(** * WizardChess, [scripts/png_tools.py]: minimal PNG codec and
      border flood fill, embedded in Rocq.

    Python integers are modelled as [Z], [bytes] and [bytearray] values as
    [list Z] (each element a channel sample, see [is_bytes]), exceptions as
    the [Err] branch of an error monad.  Sequence indexing follows Python:
    a negative index counts from the end and an index out of range raises
    [IndexError]; slices clamp. *)

From Stdlib Require Import ZArith List Lia Bool String Sorted.
From stdpp Require Import base tactics option list list_numbers pretty.

Local Open Scope Z_scope.

(** ** Exceptions and the error monad *)

Inductive exn : Type :=
  | ValueError (msg : string)   (* [raise ValueError(msg)] *)
  | IndexError                  (* sequence index out of range *)
  | StructError                 (* [struct.error] of pack / unpack *)
  | ZlibError                   (* [zlib.error] of decompress *)
  | LoopBudget.                 (* iteration budget of a [while] loop used up *)

Inductive result (A : Type) : Type :=
  | Ok (a : A)
  | Err (e : exn).
Arguments Ok {A} a.
Arguments Err {A} e.

Definition bind {A B} (c : result A) (k : A -> result B) : result B :=
  match c with
  | Ok a => k a
  | Err e => Err e
  end.

Notation "'do' x <- c ; k" := (bind c (fun x => k))
  (at level 10, x name, c at level 100, k at level 200).

(** [for a in l: s = body(a, s)], stopping at the first exception. *)
Fixpoint for_each {A S : Type} (l : list A) (body : A -> S -> result S) (s : S)
  : result S :=
  match l with
  | [] => Ok s
  | a :: l' => do s' <- body a s; for_each l' body s'
  end.

(** ** Python sequences *)

Definition len {A} (l : list A) : Z := Z.of_nat (length l).

(** [l[i]] *)
Definition py_index {A} (l : list A) (i : Z) : result A :=
  let j := if i <? 0 then i + len l else i in
  if (0 <=? j) && (j <? len l) then
    match l !! Z.to_nat j with
    | Some a => Ok a
    | None => Err IndexError
    end
  else Err IndexError.

(** [l[i] = v] *)
Definition py_setitem {A} (l : list A) (i : Z) (v : A) : result (list A) :=
  let j := if i <? 0 then i + len l else i in
  if (0 <=? j) && (j <? len l) then Ok (<[Z.to_nat j := v]> l)
  else Err IndexError.

(** A slice bound, as Python clamps it. *)
Definition slice_bound {A} (l : list A) (i : Z) : nat :=
  Z.to_nat (if i <? 0 then Z.max 0 (i + len l) else Z.min i (len l)).

(** [l[a:b]] *)
Definition py_slice {A} (l : list A) (a b : Z) : list A :=
  let a' := slice_bound l a in
  let b' := slice_bound l b in
  take (b' - a') (drop a' l).

(** [l[a:b] = src] on a bytearray (the target may change its length). *)
Definition py_setslice {A} (l : list A) (a b : Z) (src : list A) : list A :=
  let a' := slice_bound l a in
  let b' := slice_bound l b in
  take a' l ++ src ++ drop (Nat.max a' b') l.

(** [bytearray(n)]: [n] zero bytes; a negative count is a [ValueError]. *)
Definition bytearray (n : Z) : result (list Z) :=
  if n <? 0 then Err (ValueError "negative count")
  else Ok (replicate (Z.to_nat n) 0).

(** [range(n)] *)
Definition range (n : Z) : list Z := seqZ 0 n.

(** [range(0, stop, step)]: the multiples of [step] from 0 up to, or for a
    negative [step] down to, [stop] exclusive; a zero [step] is a
    [ValueError]. *)
Definition range_step (stop step : Z) : result (list Z) :=
  if step =? 0 then Err (ValueError "range() arg 3 must not be zero")
  else if 0 <? step then Ok ((fun k => k * step) <$> seqZ 0 ((stop + step - 1) / step))
  else Ok ((fun k => k * step) <$> seqZ 0 ((stop + step + 1) / step)).

(** Every element is a channel sample 0..255. *)
Definition is_bytes (l : list Z) : Prop := Forall (fun b => 0 <= b < 256) l.

(** Total read used in statements: element [i], or 0 outside the list. *)
Definition at_ (l : list Z) (i : Z) : Z :=
  if i <? 0 then 0 else nth (Z.to_nat i) l 0.

(** ** Paeth predictor *)

Definition _paeth (a b c : Z) : Z :=
  let p := a + b - c in
  let pa := Z.abs (p - a) in
  let pb := Z.abs (p - b) in
  let pc := Z.abs (p - c) in
  if (pa <=? pb) && (pa <=? pc) then a
  else if pb <=? pc then b
  else c.

(** ** Scanline reconstruction *)

(** Body of [for x in range(row_bytes)]. *)
Definition unfilter_byte (filt : Z) (src : list Z) (bpp row_bytes dst_off y : Z)
  (x : Z) (out : list Z) : result (list Z) :=
  do left <- (if x >=? bpp then py_index out (dst_off + x - bpp) else Ok 0);
  do up <- (if y >? 0 then py_index out (dst_off - row_bytes + x) else Ok 0);
  do up_left <- (if (y >? 0) && (x >=? bpp)
                 then py_index out (dst_off - row_bytes + x - bpp) else Ok 0);
  do val <- py_index src x;
  if filt =? 1 then py_setitem out (dst_off + x) (Z.land (val + left) 255)
  else if filt =? 2 then py_setitem out (dst_off + x) (Z.land (val + up) 255)
  else if filt =? 3 then
    py_setitem out (dst_off + x) (Z.land (val + (left + up) / 2) 255)
  else if filt =? 4 then
    py_setitem out (dst_off + x) (Z.land (val + _paeth left up up_left) 255)
  else Err (ValueError ("Unsupported PNG filter: " +:+ pretty filt)).

(** Body of [for y in range(height)]. *)
Definition unfilter_row (raw : list Z) (bpp row_bytes stride : Z)
  (y : Z) (out : list Z) : result (list Z) :=
  let row_start := y * stride in
  do filt <- py_index raw row_start;
  let src := py_slice raw (row_start + 1) (row_start + 1 + row_bytes) in
  let dst_off := y * row_bytes in
  if filt =? 0 then Ok (py_setslice out dst_off (dst_off + row_bytes) src)
  else for_each (range row_bytes) (unfilter_byte filt src bpp row_bytes dst_off y) out.

Definition _unfilter_scanlines (raw : list Z) (width height bpp : Z)
  : result (list Z) :=
  let row_bytes := width * bpp in
  let stride := 1 + row_bytes in
  let expected := height * stride in
  if len raw <? expected then
    Err (ValueError ("IDAT too small: got " +:+ pretty (len raw)
                     +:+ " expected " +:+ pretty expected))
  else
    do out <- bytearray (height * row_bytes);
    for_each (range height) (unfilter_row raw bpp row_bytes stride) out.

(** ** Background predicate *)

Definition rgb : Type := (Z * Z * Z)%type.

Definition _color_dist_sq (a b : rgb) : Z :=
  let '(a0, a1, a2) := a in
  let '(b0, b1, b2) := b in
  (a0 - b0) ^ 2 + (a1 - b1) ^ 2 + (a2 - b2) ^ 2.

(** [is_bg], the closure of [background_to_alpha_floodfill], with the
    variables it captures ([seeds], [tol_sq]) as arguments. *)
Definition is_bg (seeds : list rgb) (tol_sq : Z) (c : rgb) : bool :=
  existsb (fun s => _color_dist_sq c s <=? tol_sq) seeds.

(** ** Images *)

(** [PngImage]: a frozen dataclass; [rgba] is an immutable [bytes] value. *)
Record PngImage : Type := mkPngImage {
  width : Z;
  height : Z;
  rgba : list Z
}.

(** The invariant of the data model: buffer of [width * height * 4]
    channel samples. *)
Definition image_ok (img : PngImage) : Prop :=
  len (rgba img) = width img * height img * 4 /\ is_bytes (rgba img).

(** ** [struct] *)

Definition is_u8 (n : Z) : bool := (0 <=? n) && (n <? 256).

(** [struct.pack(">I", n)] *)
Definition pack_I (n : Z) : result (list Z) :=
  if (0 <=? n) && (n <? 2 ^ 32) then
    Ok [n / 2 ^ 24 mod 256; n / 2 ^ 16 mod 256; n / 2 ^ 8 mod 256; n mod 256]
  else Err StructError.

(** [struct.unpack(">I", l)[0]] *)
Definition unpack_I (l : list Z) : result Z :=
  match l with
  | [b0; b1; b2; b3] => Ok (b0 * 2 ^ 24 + b1 * 2 ^ 16 + b2 * 2 ^ 8 + b3)
  | _ => Err StructError
  end.

(** [struct.pack(">IIBBBBB", ...)] *)
Definition pack_IIBBBBB (w h b0 b1 b2 b3 b4 : Z) : result (list Z) :=
  do pw <- pack_I w;
  do ph <- pack_I h;
  if forallb is_u8 [b0; b1; b2; b3; b4] then Ok (pw ++ ph ++ [b0; b1; b2; b3; b4])
  else Err StructError.

(** [struct.unpack(">IIBBBBB", l)]: exactly 13 bytes. *)
Definition unpack_IIBBBBB (l : list Z) : result (Z * Z * Z * Z * Z * Z * Z) :=
  match l with
  | [w0; w1; w2; w3; h0; h1; h2; h3; b0; b1; b2; b3; b4] =>
      do w <- unpack_I [w0; w1; w2; w3];
      do h <- unpack_I [h0; h1; h2; h3];
      Ok (w, h, b0, b1, b2, b3, b4)
  | _ => Err StructError
  end.

(** ** Chunk reader *)

Definition PNG_SIGNATURE : list Z := [137; 80; 78; 71; 13; 10; 26; 10].
Definition IHDR : list Z := [73; 72; 68; 82].
Definition IDAT : list Z := [73; 68; 65; 84].
Definition IEND : list Z := [73; 69; 78; 68].

Definition bytes_eqb (a b : list Z) : bool := bool_decide (a = b).

(** [b.startswith(prefix)] *)
Definition startswith (b prefix : list Z) : bool :=
  bytes_eqb (take (length prefix) b) prefix.

(** The [while i < len(png_bytes)] loop of [_read_chunks]; the chunks the
    generator yields are returned as a list.  Every iteration advances [i]
    by at least 12, so [length png] iterations are never used up. *)
Fixpoint read_chunks_loop (budget : nat) (png_bytes : list Z) (i : Z)
  : result (list (list Z * list Z)) :=
  if i <? len png_bytes then
    if i + 8 >? len png_bytes then Ok []
    else
      match budget with
      | O => Err LoopBudget
      | S budget' =>
          do length <- unpack_I (py_slice png_bytes i (i + 4));
          let chunk_type := py_slice png_bytes (i + 4) (i + 8) in
          let i := i + 8 in
          let data := py_slice png_bytes i (i + length) in
          let i := i + length in
          let i := i + 4 in
          if bytes_eqb chunk_type IEND then Ok [(chunk_type, data)]
          else
            do rest <- read_chunks_loop budget' png_bytes i;
            Ok ((chunk_type, data) :: rest)
      end
  else Ok [].

Definition _read_chunks (png_bytes : list Z) : result (list (list Z * list Z)) :=
  if negb (startswith png_bytes PNG_SIGNATURE) then
    Err (ValueError "Not a PNG (bad signature)")
  else read_chunks_loop (length png_bytes) png_bytes (len PNG_SIGNATURE).

(** The [for ctype, data in _read_chunks(png)] loop of [read_png]:
    the last IHDR payload and the IDAT payloads in order, up to IEND. *)
Fixpoint collect_chunks (chunks : list (list Z * list Z))
  (ihdr : option (list Z)) (idat_parts : list (list Z))
  : option (list Z) * list (list Z) :=
  match chunks with
  | [] => (ihdr, idat_parts)
  | (ctype, data) :: rest =>
      if bytes_eqb ctype IHDR then collect_chunks rest (Some data) idat_parts
      else if bytes_eqb ctype IDAT then collect_chunks rest ihdr (idat_parts ++ [data])
      else if bytes_eqb ctype IEND then (ihdr, idat_parts)
      else collect_chunks rest ihdr idat_parts
  end.

(** RGB -> RGBA expansion loop of [read_png]. *)
Definition expand_pixel (pixels : list Z) (i : Z) (rgba_out : list Z)
  : result (list Z) :=
  do p0 <- py_index pixels (i * 3 + 0);
  do o1 <- py_setitem rgba_out (i * 4 + 0) p0;
  do p1 <- py_index pixels (i * 3 + 1);
  do o2 <- py_setitem o1 (i * 4 + 1) p1;
  do p2 <- py_index pixels (i * 3 + 2);
  do o3 <- py_setitem o2 (i * 4 + 2) p2;
  py_setitem o3 (i * 4 + 3) 255.

Definition expand_rgb (pixels : list Z) (width height : Z) : result (list Z) :=
  do rgba_out <- bytearray (width * height * 4);
  for_each (range (width * height)) (expand_pixel pixels) rgba_out.

(** [_filter_none_rgba] *)
Definition filter_none_row (rgba : list Z) (row_bytes : Z) (y : Z) (out : list Z)
  : result (list Z) :=
  do out1 <- py_setitem out (y * (1 + row_bytes)) 0;
  let start := y * row_bytes in
  Ok (py_setslice out1 (y * (1 + row_bytes) + 1) (y * (1 + row_bytes) + 1 + row_bytes)
        (py_slice rgba start (start + row_bytes))).

Definition _filter_none_rgba (rgba : list Z) (width height : Z) : result (list Z) :=
  let row_bytes := width * 4 in
  do out <- bytearray (height * (1 + row_bytes));
  for_each (range height) (filter_none_row rgba row_bytes) out.

(** ** zlib, the external collaborator *)

Class Zlib : Type := {
  zlib_compress : list Z -> list Z;          (* [zlib.compress(data, level=6)] *)
  zlib_decompress : list Z -> result (list Z);
  zlib_crc32 : list Z -> Z
}.

(** What the codec relies on: inflating a deflated stream gives it back,
    and both directions produce bytes. *)
Class ZlibLaws (z : Zlib) : Prop := {
  decompress_compress : forall l, is_bytes l -> zlib_decompress (zlib_compress l) = Ok l;
  compress_is_bytes : forall l, is_bytes l -> is_bytes (zlib_compress l);
  decompress_is_bytes : forall l l', is_bytes l -> zlib_decompress l = Ok l' -> is_bytes l'
}.

Section Codec.
Context {z : Zlib}.

(** [read_png], from the contents [png] of the file at [path]. *)
Definition read_png (png : list Z) : result PngImage :=
  do chunks <- _read_chunks png;
  match collect_chunks chunks None [] with
  | (None, _) => Err (ValueError "PNG missing IHDR")
  | (Some ihdr, idat_parts) =>
      do hdr <- unpack_IIBBBBB ihdr;
      let '(width, height, bit_depth, color_type, comp, filt, interlace) := hdr in
      if negb (comp =? 0) || negb (filt =? 0) then
        Err (ValueError "Unsupported PNG compression/filter method")
      else if negb (interlace =? 0) then
        Err (ValueError "Interlaced PNG not supported")
      else if negb (bit_depth =? 8) then
        Err (ValueError "Only 8-bit PNG supported")
      else
        do bpp <- (if color_type =? 2 then Ok 3
                   else if color_type =? 6 then Ok 4
                   else Err (ValueError ("Unsupported PNG color type: "
                                         +:+ pretty color_type)));
        do raw <- zlib_decompress (concat idat_parts);
        do pixels <- _unfilter_scanlines raw width height bpp;
        do rgba <- (if bpp =? 4 then Ok pixels else expand_rgb pixels width height);
        Ok (mkPngImage width height rgba)
  end.

(** The local function [chunk] of [write_png_rgba]. *)
Definition chunk (ctype data : list Z) : result (list Z) :=
  let crc := Z.land (zlib_crc32 (ctype ++ data)) 4294967295 in
  do l <- pack_I (len data);
  do c <- pack_I crc;
  Ok (l ++ ctype ++ data ++ c).

(** [write_png_rgba]: the bytes written to the file at [path]. *)
Definition write_png_rgba (img : PngImage) : result (list Z) :=
  do ihdr <- pack_IIBBBBB (width img) (height img) 8 6 0 0 0;
  do raw_scanlines <- _filter_none_rgba (rgba img) (width img) (height img);
  let compressed := zlib_compress raw_scanlines in
  do c1 <- chunk IHDR ihdr;
  do c2 <- chunk IDAT compressed;
  do c3 <- chunk IEND [];
  Ok (PNG_SIGNATURE ++ c1 ++ c2 ++ c3).

End Codec.

(** A stand-in codec (stored, no compression) on which the statements that
    are parametric in zlib can be evaluated. *)
Definition stored_zlib : Zlib := {|
  zlib_compress := fun l => l;
  zlib_decompress := fun l => Ok l;
  zlib_crc32 := fun _ => 0
|}.


(** ** Border sampler *)

(** The local function [get_rgb] of [_sample_border_colors]. *)
Definition get_rgb (rgba : list Z) (w : Z) (x y : Z) : result rgb :=
  let i := (y * w + x) * 4 in
  do r <- py_index rgba i;
  do g <- py_index rgba (i + 1);
  do b <- py_index rgba (i + 2);
  Ok (r, g, b).

Definition sample_columns (rgba : list Z) (w h : Z) (x : Z) (colors : list rgb)
  : result (list rgb) :=
  do c1 <- get_rgb rgba w x 0;
  do c2 <- get_rgb rgba w x (h - 1);
  Ok (colors ++ [c1; c2]).

Definition sample_rows (rgba : list Z) (w h : Z) (y : Z) (colors : list rgb)
  : result (list rgb) :=
  do c1 <- get_rgb rgba w 0 y;
  do c2 <- get_rgb rgba w (w - 1) y;
  Ok (colors ++ [c1; c2]).

Definition _sample_border_colors (img : PngImage) (step : Z) : result (list rgb) :=
  let w := width img in
  let h := height img in
  do xs <- range_step w step;
  do colors <- for_each xs (sample_columns (rgba img) w h) [];
  do ys <- range_step h step;
  for_each ys (sample_rows (rgba img) w h) colors.

(** ** [collections.Counter]

    A Counter is a dict: its items are kept in insertion order, so a colour
    counted for the first time goes to the end.  [most_common(n)] is, by its
    documentation, the [n] first items of the items sorted by descending
    count, "elements with equal counts ordered in the order first
    encountered" (a stable sort); a non-positive [n] gives no item. *)

Fixpoint counter_add (c : list (rgb * Z)) (k : rgb) : list (rgb * Z) :=
  match c with
  | [] => [(k, 1)]
  | (k', n) :: c' =>
      if bool_decide (k' = k) then (k', n + 1) :: c'
      else (k', n) :: counter_add c' k
  end.

Definition Counter (l : list rgb) : list (rgb * Z) := fold_left counter_add l [].

Fixpoint insert_desc (x : rgb * Z) (l : list (rgb * Z)) : list (rgb * Z) :=
  match l with
  | [] => [x]
  | y :: l' => if snd y >? snd x then y :: insert_desc x l' else x :: y :: l'
  end.

Definition sort_desc (l : list (rgb * Z)) : list (rgb * Z) :=
  foldr insert_desc [] l.

Definition most_common (n : Z) (c : list (rgb * Z)) : list (rgb * Z) :=
  take (Z.to_nat n) (sort_desc c).

(** ** Flood fill *)

(** What a call returns: the very object it was given ([return img]) or a
    newly built [PngImage] around a new [bytes] buffer. *)
Inductive returned : Type :=
  | TheArgument
  | NewImage (img : PngImage).

Definition image_of (arg : PngImage) (r : returned) : PngImage :=
  match r with
  | TheArgument => arg
  | NewImage img => img
  end.

(** The local function [push]; the state is the [visited] bytearray and
    the stack [(qx, qy)], kept as one list of pairs whose head is the end
    of the two Python lists (where [append] and [pop] work). *)
Definition push (w : Z) (x y : Z) (st : list Z * list (Z * Z))
  : result (list Z * list (Z * Z)) :=
  let '(visited, q) := st in
  let idx := y * w + x in
  do v <- py_index visited idx;
  if negb (v =? 0) then Ok st
  else
    do visited' <- py_setitem visited idx 1;
    Ok (visited', (x, y) :: q).

Definition seed_columns (w h : Z) (x : Z) (st : list Z * list (Z * Z)) :=
  do st1 <- push w x 0 st;
  push w x (h - 1) st1.

Definition seed_rows (w h : Z) (y : Z) (st : list Z * list (Z * Z)) :=
  do st1 <- push w 0 y st;
  push w (w - 1) y st1.

(** The four guarded [push] calls on the neighbours of [(x, y)]. *)
Definition push_neighbours (w h : Z) (x y : Z) (st : list Z * list (Z * Z)) :=
  do st1 <- (if x >? 0 then push w (x - 1) y st else Ok st);
  do st2 <- (if x + 1 <? w then push w (x + 1) y st1 else Ok st1);
  do st3 <- (if y >? 0 then push w x (y - 1) st2 else Ok st2);
  if y + 1 <? h then push w x (y + 1) st3 else Ok st3.

(** The [while qx] loop.  Every pixel is pushed at most once, so a budget
    of one iteration per pixel is never used up. *)
Fixpoint fill_loop (budget : nat) (seeds : list rgb) (tol_sq : Z) (w h : Z)
  (rgba visited : list Z) (q : list (Z * Z)) : result (list Z) :=
  match q with
  | [] => Ok rgba
  | (x, y) :: q' =>
      match budget with
      | O => Err LoopBudget
      | S budget' =>
          let i := (y * w + x) * 4 in
          do r <- py_index rgba i;
          do g <- py_index rgba (i + 1);
          do b <- py_index rgba (i + 2);
          if negb (is_bg seeds tol_sq (r, g, b)) then
            fill_loop budget' seeds tol_sq w h rgba visited q'
          else
            do rgba' <- py_setitem rgba (i + 3) 0;
            do st <- push_neighbours w h x y (visited, q');
            fill_loop budget' seeds tol_sq w h rgba' (fst st) (snd st)
      end
  end.

Definition background_to_alpha_floodfill (img : PngImage)
  (tolerance max_seed_colors : Z) : result returned :=
  let w := width img in
  let h := height img in
  let rgba := rgba img in
  do border_colors <- _sample_border_colors img 16;
  let common := most_common max_seed_colors (Counter border_colors) in
  let seeds := fst <$> common in
  match seeds with
  | [] => Ok TheArgument
  | _ =>
      let tol_sq := tolerance * tolerance in
      do visited <- bytearray (w * h);
      do st1 <- for_each (range w) (seed_columns w h) (visited, []);
      do st2 <- for_each (range h) (seed_rows w h) st1;
      do rgba' <- fill_loop (length visited) seeds tol_sq w h rgba (fst st2) (snd st2);
      Ok (NewImage (mkPngImage w h rgba'))
  end.

(** * What the specification says *)

(** ** Scanline reconstruction *)

(** The Paeth predictor in the words of the specification. *)
Definition spec_Paeth (a b c : Z) : Z :=
  let p := a + b - c in
  let pa := Z.abs (p - a) in
  let pb := Z.abs (p - b) in
  let pc := Z.abs (p - c) in
  if decide (pa <= pb /\ pa <= pc) then a
  else if decide (pb <= pc) then b
  else c.

(** The per-byte table of the specification: filtered byte [f], left [a],
    up [b], up-left [c]. *)
Definition spec_recon (filter f a b c : Z) : Z :=
  if decide (filter = 0) then f
  else if decide (filter = 1) then (f + a) mod 256
  else if decide (filter = 2) then (f + b) mod 256
  else if decide (filter = 3) then (f + (a + b) / 2) mod 256
  else if decide (filter = 4) then (f + spec_Paeth a b c) mod 256
  else f.

(** Row [y] of [out] is the reconstruction of row [y] of the stream, the
    neighbours being read from [out] itself and taken as 0 outside. *)
Definition row_spec (raw : list Z) (bpp row_bytes : Z) (y : Z) (out : list Z) : Prop :=
  forall x, 0 <= x < row_bytes ->
    at_ out (y * row_bytes + x) =
      spec_recon (at_ raw (y * (1 + row_bytes)))
        (at_ raw (y * (1 + row_bytes) + 1 + x))
        (if decide (x < bpp) then 0 else at_ out (y * row_bytes + x - bpp))
        (if decide (y = 0) then 0 else at_ out ((y - 1) * row_bytes + x))
        (if decide (y = 0 \/ x < bpp) then 0
         else at_ out ((y - 1) * row_bytes + x - bpp)).

(** The filter types of the format. *)
Definition valid_filter (f : Z) : bool := (0 <=? f) && (f <=? 4).

(** ** Header fields *)

(** The header fields [read_png] unpacks from the file [png]. *)
Definition declares (png : list Z) (hdr : Z * Z * Z * Z * Z * Z * Z) : Prop :=
  exists chunks ihdr idat_parts,
    _read_chunks png = Ok chunks /\
    collect_chunks chunks None [] = (Some ihdr, idat_parts) /\
    unpack_IIBBBBB ihdr = Ok hdr.

(** ** Border samples and seed colours *)

(** The RGB triple of pixel [(x, y)] of a buffer of row length [w]. *)
Definition pixel_rgb (rgba : list Z) (w : Z) (x y : Z) : rgb :=
  let i := (y * w + x) * 4 in
  (at_ rgba i, at_ rgba (i + 1), at_ rgba (i + 2)).

(** The positions sampled along an edge of [n] pixels, in the words of the
    specification: every [step]-th position, starting at 0. *)
Definition every_nth (step n : Z) : list Z :=
  filter (fun x => x mod step = 0) (seqZ 0 n).

(** The border scan of the specification: top and bottom pixel of every
    sampled column, then left and right pixel of every sampled row. *)
Definition border_scan (img : PngImage) (step : Z) : list rgb :=
  let w := width img in
  let h := height img in
  (every_nth step w ≫= fun x =>
     [pixel_rgb (rgba img) w x 0; pixel_rgb (rgba img) w x (h - 1)]) ++
  (every_nth step h ≫= fun y =>
     [pixel_rgb (rgba img) w 0 y; pixel_rgb (rgba img) w (w - 1) y]).

(** Number of samples equal to [c]. *)
Fixpoint occurrences (c : rgb) (l : list rgb) : Z :=
  match l with
  | [] => 0
  | x :: l' => (if bool_decide (x = c) then 1 else 0) + occurrences c l'
  end.

(** Position of the first sample equal to [c] ([length l] if there is none). *)
Fixpoint first_index (c : rgb) (l : list rgb) : nat :=
  match l with
  | [] => O
  | x :: l' => if bool_decide (x = c) then O else S (first_index c l')
  end.

(** The ranking of the specification: more frequent first, and among
    equally frequent colours the one that appeared first. *)
Definition ranks_before (l : list rgb) (c d : rgb) : Prop :=
  occurrences c l > occurrences d l \/
  (occurrences c l = occurrences d l /\ (first_index c l < first_index d l)%nat).

(** The same ranking on the items (colour, count) of a Counter. *)
Definition item_before (l : list rgb) (a b : rgb * Z) : Prop :=
  snd a > snd b \/
  (snd a = snd b /\ (first_index (fst a) l < first_index (fst b) l)%nat).

(** The items of a Counter built from the samples [p], for the keys [ks]. *)
Definition items_of (p : list rgb) (ks : list rgb) : list (rgb * Z) :=
  (fun k => (k, occurrences k p)) <$> ks.

(** [ks] lists the distinct samples of [p] in order of first appearance. *)
Definition keys_inv (p : list rgb) (ks : list rgb) : Prop :=
  List.NoDup ks /\ (forall k, In k ks <-> In k p) /\
  (forall i j a b, ks !! i = Some a -> ks !! j = Some b -> (i < j)%nat ->
     (first_index a p < first_index b p)%nat).

(** The seed colours: the keys of the [K] most common border samples. *)
Definition select_seeds (colors : list rgb) (K : Z) : list rgb :=
  fst <$> most_common K (Counter colors).

(** ** The border-connected background *)

(** Pixel [p = (x, y)] lies in the [w] x [h] image. *)
Definition in_grid (w h : Z) (p : Z * Z) : Prop :=
  0 <= fst p < w /\ 0 <= snd p < h.

(** Pixel [p] lies on one of the four edges. *)
Definition on_edge (w h : Z) (p : Z * Z) : Prop :=
  in_grid w h p /\ (fst p = 0 \/ fst p = w - 1 \/ snd p = 0 \/ snd p = h - 1).

(** 4-connectivity: up, down, left, right. *)
Definition adjacent4 (p q : Z * Z) : Prop :=
  (fst q = fst p /\ (snd q = snd p - 1 \/ snd q = snd p + 1)) \/
  (snd q = snd p /\ (fst q = fst p - 1 \/ fst q = fst p + 1)).

(** The background predicate on a pixel of the image. *)
Definition background (seeds : list rgb) (tol_sq : Z) (rgba : list Z) (w : Z)
  (p : Z * Z) : Prop :=
  is_bg seeds tol_sq (pixel_rgb rgba w (fst p) (snd p)) = true.

(** Reachable from an edge pixel along a path of background pixels. *)
Inductive border_connected (seeds : list rgb) (tol_sq : Z) (rgba : list Z)
  (w h : Z) : Z * Z -> Prop :=
  | bc_edge p :
      on_edge w h p -> background seeds tol_sq rgba w p ->
      border_connected seeds tol_sq rgba w h p
  | bc_step p q :
      border_connected seeds tol_sq rgba w h p ->
      adjacent4 p q -> in_grid w h q -> background seeds tol_sq rgba w q ->
      border_connected seeds tol_sq rgba w h q.

(** Index of the alpha byte of a pixel. *)
Definition alpha_index (w : Z) (p : Z * Z) : Z := (snd p * w + fst p) * 4 + 3.

(** Number of pixels not yet marked in the [visited] bytearray. *)
Definition count_zero (v : list Z) : nat := length (filter (fun b => b = 0) v).

(** ** State of the fill, for a [w] x [h] image with buffer [rgba0] *)

Section FillState.
Variables (w h : Z) (seeds : list rgb) (tol_sq : Z) (rgba0 : list Z).

(** Index of a pixel in [visited]. *)
Definition idx (p : Z * Z) : Z := snd p * w + fst p.

(** Pixel [p] is marked in the bytearray [v]. *)
Definition vis (v : list Z) (p : Z * Z) : Prop := at_ v (idx p) <> 0.

(** [pushed S st st']: [st'] is [st] after pushing the pixels of [S]. *)
Definition pushed (S : Z * Z -> Prop) (st st' : list Z * list (Z * Z)) : Prop :=
  len (fst st') = len (fst st) /\
  (forall j, at_ (fst st) j <> 0 -> at_ (fst st') j <> 0) /\
  (forall p, S p -> vis (fst st') p) /\
  (forall p, in_grid w h p -> vis (fst st') p ->
     vis (fst st) p \/ (S p /\ In p (snd st'))) /\
  (forall p, In p (snd st) -> In p (snd st')) /\
  (forall p, In p (snd st') -> In p (snd st) \/ S p) /\
  (length (snd st') + count_zero (fst st') = length (snd st) + count_zero (fst st))%nat.

(** Visited pixels are candidates: on the edge, or next to the region. *)
Definition candidate (p : Z * Z) : Prop :=
  on_edge w h p \/
  exists p', border_connected seeds tol_sq rgba0 w h p' /\ adjacent4 p' p.

(** A pixel taken from the stack has been dealt with. *)
Definition settled (cur v : list Z) (p : Z * Z) : Prop :=
  background seeds tol_sq rgba0 w p ->
  at_ cur (alpha_index w p) = 0 /\
  forall p', in_grid w h p' -> adjacent4 p p' -> vis v p'.

(** Invariant of the [while qx] loop. *)
Definition fill_inv (cur v : list Z) (q : list (Z * Z)) : Prop :=
  len cur = w * h * 4 /\ len v = w * h /\
  (forall i, i mod 4 <> 3 -> at_ cur i = at_ rgba0 i) /\
  (forall p, In p q -> in_grid w h p /\ vis v p) /\
  (forall p, in_grid w h p -> vis v p -> candidate p) /\
  (forall p, on_edge w h p -> vis v p) /\
  (forall p, in_grid w h p -> vis v p -> In p q \/ settled cur v p) /\
  (forall p, in_grid w h p ->
     at_ cur (alpha_index w p) = at_ rgba0 (alpha_index w p) \/
     (at_ cur (alpha_index w p) = 0 /\ border_connected seeds tol_sq rgba0 w h p)).

(** What the fill leaves in the buffer. *)
Definition fill_result (out : list Z) : Prop :=
  len out = len rgba0 /\
  (forall i, i mod 4 <> 3 -> at_ out i = at_ rgba0 i) /\
  (forall p, in_grid w h p ->
     (border_connected seeds tol_sq rgba0 w h p ->
      at_ out (alpha_index w p) = 0) /\
     (~ border_connected seeds tol_sq rgba0 w h p ->
      at_ out (alpha_index w p) = at_ rgba0 (alpha_index w p))).

End FillState.

(** ** Images of the system *)

Section Produced.
Context {z : Zlib}.


End Produced.

(** A file of one RGB pixel (10, 20, 30), row filter 1, stored uncompressed. *)
Definition sample_file : list Z :=
  PNG_SIGNATURE ++
  [0; 0; 0; 13] ++ IHDR ++ [0; 0; 0; 1; 0; 0; 0; 1; 8; 2; 0; 0; 0] ++ [0; 0; 0; 0] ++
  [0; 0; 0; 4] ++ IDAT ++ [1; 10; 20; 30] ++ [0; 0; 0; 0] ++
  [0; 0; 0; 0] ++ IEND ++ [0; 0; 0; 0].

(** ** Chunk framing on the wire *)

(** The four bytes of a length or checksum [n], most significant first. *)
Definition be32 (n : Z) : list Z :=
  [n / 2 ^ 24 mod 256; n / 2 ^ 16 mod 256; n / 2 ^ 8 mod 256; n mod 256].

(** A chunk as it lies in a file: length of the payload, type tag,
    payload, and four checksum bytes [crc]. *)
Definition frame (c : list Z * list Z * list Z) : list Z :=
  let '(ctype, data, crc) := c in
  be32 (len data) ++ ctype ++ data ++ crc.

Definition well_framed (c : list Z * list Z * list Z) : Prop :=
  let '(ctype, data, crc) := c in
  length ctype = 4%nat /\ length crc = 4%nat /\ len data < 2 ^ 32.

(** The chunks up to and including the first IEND. *)
Fixpoint upto_IEND (cs : list (list Z * list Z)) : list (list Z * list Z) :=
  match cs with
  | [] => []
  | c :: rest => if bytes_eqb (fst c) IEND then [c] else c :: upto_IEND rest
  end.

(** The chunks before the first IEND. *)
Fixpoint before_IEND (cs : list (list Z * list Z)) : list (list Z * list Z) :=
  match cs with
  | [] => []
  | c :: rest => if bytes_eqb (fst c) IEND then [] else c :: before_IEND rest
  end.

(** The payloads of the chunks of type [t] before the first IEND, in order. *)
Definition payloads_of (t : list Z) (cs : list (list Z * list Z)) : list (list Z) :=
  snd <$> filter (fun c => fst c = t) (before_IEND cs).

Section Wire.
Context {z : Zlib}.

(** The checksum bytes the encoder writes after a chunk. *)
Definition checksum (ctype data : list Z) : list Z :=
  be32 (Z.land (zlib_crc32 (ctype ++ data)) 4294967295).

(** A chunk with its checksum, as the encoder frames it. *)
Definition framed (ctype data : list Z) : list Z :=
  frame (ctype, data, checksum ctype data).

End Wire.

(** ** [read_png_dimensions] of [fix_all_assets.py] and
       [analyze_sprites_simple.py]

    [f.read(n)] returns the next [n] bytes of the file, fewer at its end;
    the function returns [None] or a pair. *)
Definition read_png_dimensions (file : list Z) : result (option (Z * Z)) :=
  if negb (bytes_eqb (py_slice file 0 8) PNG_SIGNATURE) then Ok None
  else
    do chunk_length <- unpack_I (py_slice file 8 12);
    let chunk_type := py_slice file 12 16 in
    if bytes_eqb chunk_type IHDR then
      do width <- unpack_I (py_slice file 16 20);
      do height <- unpack_I (py_slice file 20 24);
      Ok (Some (width, height))
    else Ok None.

(** * Proofs *)

(** ** The error monad and loops *)

Lemma bind_Ok {A B} (c : result A) (k : A -> result B) b :
  bind c k = Ok b <-> exists a, c = Ok a /\ k a = Ok b.
Proof.
  destruct c as [a|e]; simpl; split.
  - intros H; exists a; auto.
  - intros (a' & Ha & Hk); congruence.
  - discriminate.
  - intros (a' & Ha & _); discriminate.
Qed.

Lemma for_each_app {A S} (l1 l2 : list A) (body : A -> S -> result S) s :
  for_each (l1 ++ l2) body s = do s' <- for_each l1 body s; for_each l2 body s'.
Proof.
  revert s; induction l1 as [|a l1 IH]; intros s; simpl; [reflexivity|].
  destruct (body a s); simpl; auto.
Qed.

(** Invariant rule for [for k in range(m, m + n)]. *)
Lemma for_each_seqZ_inv {S} (P : Z -> S -> Prop) (body : Z -> S -> result S) m n s :
  0 <= n ->
  P m s ->
  (forall k s0, m <= k < m + n -> P k s0 -> exists s1, body k s0 = Ok s1 /\ P (k + 1) s1) ->
  exists s', for_each (seqZ m n) body s = Ok s' /\ P (m + n) s'.
Proof.
  intros Hn. revert s.
  pattern n. apply natlike_ind; [| |exact Hn].
  - intros s H0 _. exists s. rewrite seqZ_nil by lia. simpl.
    replace (m + 0) with m by lia. auto.
  - clear n Hn. intros n Hn IH s H0 Hstep.
    destruct (IH s H0) as (s1 & E1 & P1).
    { intros k s0 Hk. apply Hstep. lia. }
    destruct (Hstep (m + n) s1) as (s2 & E2 & P2); [lia|exact P1|].
    exists s2. split.
    + replace (Z.succ n) with (n + 1) by lia.
      rewrite seqZ_app by lia. rewrite for_each_app, E1. cbn [bind].
      rewrite seqZ_cons by lia. cbn [for_each]. rewrite E2. cbn [bind].
      rewrite seqZ_nil by lia. reflexivity.
    + replace (m + Z.succ n) with (m + n + 1) by lia. exact P2.
Qed.

Lemma for_each_range_inv {S} (P : Z -> S -> Prop) (body : Z -> S -> result S) n s :
  0 <= n ->
  P 0 s ->
  (forall k s0, 0 <= k < n -> P k s0 -> exists s1, body k s0 = Ok s1 /\ P (k + 1) s1) ->
  exists s', for_each (range n) body s = Ok s' /\ P n s'.
Proof.
  intros Hn H0 Hstep. unfold range.
  destruct (for_each_seqZ_inv P body 0 n s Hn H0) as (s' & E & HP).
  - intros k s0 Hk. apply Hstep. lia.
  - exists s'. split; [exact E|]. replace n with (0 + n) by lia. exact HP.
Qed.

(** A loop whose body raises at some index raises: the exception is the
    one of the first failing index. *)
Lemma for_each_range_raises {St} (P : Z -> St -> Prop) (bad : Z -> bool)
  (Q : exn -> Prop) (body : Z -> St -> result St) n s :
  P 0 s ->
  (forall k s0, 0 <= k < n -> P k s0 -> bad k = false ->
     exists s1, body k s0 = Ok s1 /\ P (k + 1) s1) ->
  (forall k s0, 0 <= k < n -> P k s0 -> bad k = true ->
     exists e, body k s0 = Err e /\ Q e) ->
  (exists k, 0 <= k < n /\ bad k = true) ->
  exists e, for_each (range n) body s = Err e /\ Q e.
Proof.
  intros H0 Hgood Hbad (k & Hk & Bk).
  assert (Hgen : forall (c : nat) m s0, m + Z.of_nat c = n -> 0 <= m <= k -> P m s0 ->
            exists e, for_each (seqZ m (Z.of_nat c)) body s0 = Err e /\ Q e).
  { induction c as [|c IH]; intros m s0 Hm Hmk Pm; [lia|].
    rewrite seqZ_cons by lia. simpl.
    destruct (bad m) eqn:Bm.
    - destruct (Hbad m s0) as (e & E & HQ); [lia|exact Pm|exact Bm|].
      exists e. rewrite E. simpl. auto.
    - destruct (Hgood m s0) as (s1 & E & P1); [lia|exact Pm|exact Bm|].
      rewrite E. simpl.
      replace (Z.pred (Z.of_nat (S c))) with (Z.of_nat c) by lia.
      apply IH; [lia| |exact P1].
      assert (m <> k) by (intros ->; congruence). lia. }
  unfold range. destruct (Hgen (Z.to_nat n) 0 s) as (e & E & HQ); [lia|lia|exact H0|].
  exists e. rewrite Z2Nat.id in E by lia. auto.
Qed.

(** ** Indexing in range *)

Lemma len_nonneg {A} (l : list A) : 0 <= len l.
Proof. unfold len. lia. Qed.

Lemma at_lookup (l : list Z) (i : Z) (a : Z) :
  0 <= i -> l !! Z.to_nat i = Some a -> at_ l i = a.
Proof.
  intros Hi H. unfold at_. destruct (Z.ltb_spec i 0); [lia|].
  rewrite nth_lookup, H. reflexivity.
Qed.

Lemma py_index_at (l : list Z) (i : Z) :
  0 <= i < len l -> py_index l i = Ok (at_ l i).
Proof.
  intros Hi. unfold py_index, len in *.
  destruct (Z.ltb_spec i 0); [lia|].
  destruct (Z.leb_spec 0 i); [|lia].
  destruct (Z.ltb_spec i (Z.of_nat (length l))); [|lia]. simpl.
  destruct (l !! Z.to_nat i) as [a|] eqn:E.
  - f_equal. symmetry. apply at_lookup; [lia|exact E].
  - apply lookup_ge_None in E. lia.
Qed.

Lemma py_setitem_in_range {A} (l : list A) (i : Z) (v : A) :
  0 <= i < len l -> py_setitem l i v = Ok (<[Z.to_nat i := v]> l).
Proof.
  intros Hi. unfold py_setitem.
  destruct (Z.ltb_spec i 0); [lia|].
  destruct (Z.leb_spec 0 i); [|lia].
  destruct (Z.ltb_spec i (len l)); [|lia]. reflexivity.
Qed.

Lemma len_insert {A} (l : list A) n v : len (<[n := v]> l) = len l.
Proof. unfold len. rewrite length_insert. reflexivity. Qed.

Lemma at_insert (l : list Z) (i j : Z) (v : Z) :
  0 <= i < len l ->
  at_ (<[Z.to_nat i := v]> l) j = if decide (j = i) then v else at_ l j.
Proof.
  intros Hi. unfold at_, len in *.
  destruct (Z.ltb_spec j 0).
  - destruct (decide (j = i)); [lia|reflexivity].
  - rewrite !nth_lookup. destruct (decide (j = i)) as [->|Hne].
    + rewrite list_lookup_insert_eq by lia. reflexivity.
    + rewrite list_lookup_insert_ne by lia. reflexivity.
Qed.

Lemma at_insert_eq (l : list Z) (i : Z) (v : Z) :
  0 <= i < len l -> at_ (<[Z.to_nat i := v]> l) i = v.
Proof. intros Hi. rewrite at_insert by exact Hi. apply decide_True. reflexivity. Qed.

Lemma at_insert_ne (l : list Z) (i j : Z) (v : Z) :
  0 <= i < len l -> j <> i -> at_ (<[Z.to_nat i := v]> l) j = at_ l j.
Proof. intros Hi Hne. rewrite at_insert by exact Hi. apply decide_False. exact Hne. Qed.

Lemma at_replicate n (i : Z) : at_ (replicate n 0) i = 0.
Proof.
  unfold at_. destruct (i <? 0); [reflexivity|].
  rewrite nth_lookup. destruct (replicate n 0 !! Z.to_nat i) eqn:E; [|reflexivity].
  apply lookup_replicate in E. simpl. tauto.
Qed.

Lemma list_eq_at (l1 l2 : list Z) :
  len l1 = len l2 -> (forall i, 0 <= i < len l1 -> at_ l1 i = at_ l2 i) -> l1 = l2.
Proof.
  unfold len. intros Hlen H. apply list_eq. intros n.
  destruct (decide (n < length l1)%nat) as [Hn|Hn].
  - specialize (H (Z.of_nat n) ltac:(lia)). unfold at_ in H.
    destruct (Z.ltb_spec (Z.of_nat n) 0); [lia|].
    rewrite Nat2Z.id, !nth_lookup in H.
    destruct (lookup_lt_is_Some_2 l1 n Hn) as [a Ea].
    destruct (lookup_lt_is_Some_2 l2 n ltac:(lia)) as [b Eb].
    rewrite Ea, Eb in *. simpl in H. congruence.
  - rewrite !lookup_ge_None_2 by lia. reflexivity.
Qed.

(** Slices with bounds inside the sequence. *)
Lemma slice_bound_in {A} (l : list A) (i : Z) :
  0 <= i <= len l -> slice_bound l i = Z.to_nat i.
Proof.
  intros Hi. unfold slice_bound. destruct (Z.ltb_spec i 0); [lia|].
  f_equal. lia.
Qed.

Lemma py_slice_in {A} (l : list A) (a b : Z) :
  0 <= a <= b -> b <= len l ->
  py_slice l a b = take (Z.to_nat (b - a)) (drop (Z.to_nat a) l).
Proof.
  intros Ha Hb. unfold py_slice. rewrite !slice_bound_in by lia.
  f_equal. lia.
Qed.

Lemma len_py_slice_in {A} (l : list A) (a b : Z) :
  0 <= a <= b -> b <= len l -> len (py_slice l a b) = b - a.
Proof.
  intros Ha Hb. rewrite py_slice_in by lia. unfold len in *.
  rewrite length_take, length_drop. lia.
Qed.

Lemma at_py_slice_in (l : list Z) (a b x : Z) :
  0 <= a <= b -> b <= len l -> 0 <= x < b - a ->
  at_ (py_slice l a b) x = at_ l (a + x).
Proof.
  intros Ha Hb Hx. rewrite py_slice_in by lia. unfold at_.
  destruct (Z.ltb_spec x 0); [lia|]. destruct (Z.ltb_spec (a + x) 0); [lia|].
  rewrite !nth_lookup, lookup_take_lt by lia. rewrite lookup_drop.
  replace (Z.to_nat a + Z.to_nat x)%nat with (Z.to_nat (a + x)) by lia. reflexivity.
Qed.

Lemma py_setslice_in {A} (l : list A) (a b : Z) (src : list A) :
  0 <= a <= b -> b <= len l ->
  py_setslice l a b src = take (Z.to_nat a) l ++ src ++ drop (Z.to_nat b) l.
Proof.
  intros Ha Hb. unfold py_setslice. rewrite !slice_bound_in by lia.
  do 3 f_equal. lia.
Qed.

Lemma len_py_setslice_in {A} (l : list A) (a b : Z) (src : list A) :
  0 <= a <= b -> b <= len l -> len src = b - a ->
  len (py_setslice l a b src) = len l.
Proof.
  intros Ha Hb Hs. rewrite py_setslice_in by lia. unfold len in *.
  rewrite !length_app, length_take, length_drop. lia.
Qed.

Lemma at_py_setslice_in (l : list Z) (a b : Z) (src : list Z) (j : Z) :
  0 <= a <= b -> b <= len l -> len src = b - a ->
  at_ (py_setslice l a b src) j =
    if decide (a <= j < b) then at_ src (j - a) else at_ l j.
Proof.
  intros Ha Hb Hs. rewrite py_setslice_in by lia. unfold at_, len in *.
  destruct (Z.ltb_spec j 0).
  { destruct (decide (a <= j < b)); [lia|reflexivity]. }
  rewrite !nth_lookup.
  destruct (decide (a <= j < b)) as [Hin|Hout].
  - destruct (Z.ltb_spec (j - a) 0); [lia|].
    rewrite lookup_app_r by (rewrite length_take; lia).
    rewrite length_take, lookup_app_l by lia.
    do 2 f_equal. lia.
  - destruct (decide (j < a)).
    + rewrite lookup_app_l by (rewrite length_take; lia).
      rewrite lookup_take_lt by lia. reflexivity.
    + rewrite lookup_app_r by (rewrite length_take; lia).
      rewrite lookup_app_r by (rewrite length_take; lia).
      rewrite length_take, lookup_drop. do 2 f_equal. lia.
Qed.

Lemma for_each_ext {A St} (l : list A) (f g : A -> St -> result St) s :
  (forall a s0, In a l -> f a s0 = g a s0) ->
  for_each l f s = for_each l g s.
Proof.
  revert s. induction l as [|a l IH]; intros s H; simpl; [reflexivity|].
  rewrite (H a s) by (left; reflexivity).
  destruct (g a s); simpl; [|reflexivity].
  apply IH. intros b s0 Hb. apply H. right. exact Hb.
Qed.

Lemma land_255 (v : Z) : Z.land v 255 = v mod 256.
Proof. change 255 with (Z.ones 8). rewrite Z.land_ones by lia. reflexivity. Qed.

(** ** Scanline reconstruction against the filter table *)

Lemma paeth_spec (a b c : Z) : _paeth a b c = spec_Paeth a b c.
Proof.
  unfold _paeth, spec_Paeth. cbv zeta.
  repeat match goal with
  | |- context [ ?u <=? ?v ] => destruct (Z.leb_spec u v)
  end; simpl; repeat case_decide; try reflexivity; lia.
Qed.

Lemma row_spec_ext raw bpp rb y out out' :
  0 < bpp -> 0 <= rb -> 0 <= y ->
  (forall j, 0 <= j < (y + 1) * rb -> at_ out' j = at_ out j) ->
  row_spec raw bpp rb y out -> row_spec raw bpp rb y out'.
Proof.
  intros Hbpp Hrb Hy Hsame Hrow x Hx.
  assert (0 <= y * rb) by nia.
  rewrite Hsame by nia. rewrite (Hrow x Hx).
  f_equal.
  - case_decide; [reflexivity|]. symmetry. apply Hsame. nia.
  - case_decide; [reflexivity|]. symmetry. apply Hsame. nia.
  - case_decide; [reflexivity|]. symmetry. apply Hsame. nia.
Qed.

(** One byte of a row with filter 1..4. *)
Lemma unfilter_byte_ok filt src bpp rb h y x out :
  0 < bpp -> 0 <= y < h -> 0 <= x < rb -> len out = h * rb -> len src = rb ->
  1 <= filt <= 4 ->
  unfilter_byte filt src bpp rb (y * rb) y x out =
    Ok (<[Z.to_nat (y * rb + x) :=
            spec_recon filt (at_ src x)
              (if decide (x < bpp) then 0 else at_ out (y * rb + x - bpp))
              (if decide (y = 0) then 0 else at_ out ((y - 1) * rb + x))
              (if decide (y = 0 \/ x < bpp) then 0
               else at_ out ((y - 1) * rb + x - bpp))]> out).
Proof.
  intros Hbpp Hy Hx Hlen Hsrc Hf.
  assert (0 <= y * rb) by nia.
  assert (y * rb + rb <= h * rb) by nia.
  unfold unfilter_byte.
  assert (EL : (if x >=? bpp then py_index out (y * rb + x - bpp) else Ok 0) =
               Ok (if decide (x < bpp) then 0 else at_ out (y * rb + x - bpp))).
  { destruct (Z.geb_spec x bpp); destruct (decide (x < bpp)); try lia;
      [|reflexivity].
    apply py_index_at. lia. }
  assert (EU : (if y >? 0 then py_index out (y * rb - rb + x) else Ok 0) =
               Ok (if decide (y = 0) then 0 else at_ out ((y - 1) * rb + x))).
  { destruct (Z.gtb_spec y 0); destruct (decide (y = 0)); try lia;
      [|reflexivity].
    replace (y * rb - rb + x) with ((y - 1) * rb + x) by lia.
    apply py_index_at. nia. }
  assert (EC : (if (y >? 0) && (x >=? bpp)
                then py_index out (y * rb - rb + x - bpp) else Ok 0) =
               Ok (if decide (y = 0 \/ x < bpp) then 0
                   else at_ out ((y - 1) * rb + x - bpp))).
  { destruct (Z.gtb_spec y 0), (Z.geb_spec x bpp); simpl;
      destruct (decide (y = 0 \/ x < bpp)); try lia; try reflexivity.
    replace (y * rb - rb + x - bpp) with ((y - 1) * rb + x - bpp) by lia.
    apply py_index_at. nia. }
  rewrite EL, EU, EC. cbn [bind].
  rewrite (py_index_at src x) by lia. cbn [bind].
  unfold spec_recon. rewrite <- paeth_spec, <- !land_255.
  clear EL EU EC.
  repeat match goal with
  | |- context [ filt =? ?c ] => destruct (Z.eqb_spec filt c)
  end;
  repeat match goal with
  | |- context [ decide (filt = ?c) ] => destruct (decide (filt = c))
  end; try lia; apply py_setitem_in_range; lia.
Qed.

(** One row, whatever its (valid) filter. *)
Lemma unfilter_row_ok raw bpp rb h y out :
  0 < bpp -> 0 <= rb -> 0 <= y < h -> h * (1 + rb) <= len raw ->
  len out = h * rb -> 0 <= at_ raw (y * (1 + rb)) <= 4 ->
  exists out', unfilter_row raw bpp rb (1 + rb) y out = Ok out' /\
    len out' = h * rb /\
    (forall j, ~ (y * rb <= j < (y + 1) * rb) -> at_ out' j = at_ out j) /\
    row_spec raw bpp rb y out'.
Proof.
  intros Hbpp Hrb Hy Hraw Hlen Hf.
  assert (0 <= y * rb) by nia.
  assert (y * rb + rb <= h * rb) by nia.
  assert (0 <= y * (1 + rb)) by nia.
  assert (y * (1 + rb) + 1 + rb <= h * (1 + rb)) by nia.
  unfold unfilter_row.
  rewrite py_index_at by lia. cbn [bind].
  set (filt := at_ raw (y * (1 + rb))) in *.
  set (src := py_slice raw (y * (1 + rb) + 1) (y * (1 + rb) + 1 + rb)).
  assert (Hsrc : len src = rb).
  { unfold src. rewrite len_py_slice_in by lia. lia. }
  assert (Hat : forall x, 0 <= x < rb -> at_ src x = at_ raw (y * (1 + rb) + 1 + x)).
  { intros x Hx. unfold src. apply at_py_slice_in; lia. }
  destruct (Z.eqb_spec filt 0) as [F0|F0].
  - (* filter 0: the row is copied with one slice assignment *)
    eexists. split; [reflexivity|]. split; [|split].
    + rewrite len_py_setslice_in; lia.
    + intros j Hj. rewrite at_py_setslice_in by lia.
      apply decide_False. lia.
    + intros x Hx. rewrite at_py_setslice_in by lia.
      rewrite decide_True by lia.
      fold filt. unfold spec_recon.
      rewrite decide_True by exact F0.
      replace (y * rb + x - y * rb) with x by lia. apply Hat. exact Hx.
  - (* filters 1..4: byte by byte, left to right *)
    pose (P := fun (k : Z) (o : list Z) =>
      len o = h * rb /\
      (forall j, ~ (y * rb <= j < y * rb + k) -> at_ o j = at_ out j) /\
      (forall x, 0 <= x < k ->
         at_ o (y * rb + x) =
           spec_recon filt (at_ src x)
             (if decide (x < bpp) then 0 else at_ o (y * rb + x - bpp))
             (if decide (y = 0) then 0 else at_ o ((y - 1) * rb + x))
             (if decide (y = 0 \/ x < bpp) then 0
              else at_ o ((y - 1) * rb + x - bpp)))).
    destruct (for_each_range_inv P
                (unfilter_byte filt src bpp rb (y * rb) y) rb out) as (out' & E & HP).
    + exact Hrb.
    + split; [exact Hlen|]. split; intros; [reflexivity|lia].
    + intros k o Hk (Ho & Hkeep & Hdone).
      rewrite (unfilter_byte_ok filt src bpp rb h y k o) by (try assumption; lia).
      eexists. split; [reflexivity|].
      assert (Hin : 0 <= y * rb + k < len o) by lia.
      split; [rewrite len_insert; exact Ho|]. split.
      * intros j Hj. rewrite at_insert_ne by lia. apply Hkeep. lia.
      * intros x Hx.
        rewrite (at_insert_ne o _ (y * rb + x - bpp)),
                (at_insert_ne o _ ((y - 1) * rb + x)),
                (at_insert_ne o _ ((y - 1) * rb + x - bpp)) by lia.
        destruct (decide (x = k)) as [->|Hne].
        -- rewrite at_insert_eq by exact Hin. reflexivity.
        -- rewrite at_insert_ne by lia. apply Hdone. lia.
    + destruct HP as (Ho & Hkeep & Hdone).
      exists out'. split; [exact E|]. split; [exact Ho|]. split.
      * intros j Hj. apply Hkeep. lia.
      * intros x Hx. rewrite Hdone by exact Hx. fold filt.
        rewrite Hat by exact Hx. reflexivity.
Qed.

(** The whole stream, rows top to bottom. *)
Lemma unfilter_scanlines_ok raw w h bpp :
  0 <= w -> 0 <= h -> 0 < bpp ->
  h * (1 + w * bpp) <= len raw ->
  (forall y, 0 <= y < h -> 0 <= at_ raw (y * (1 + w * bpp)) <= 4) ->
  exists out, _unfilter_scanlines raw w h bpp = Ok out /\
    len out = h * (w * bpp) /\
    forall y, 0 <= y < h -> row_spec raw bpp (w * bpp) y out.
Proof.
  intros Hw Hh Hbpp Hraw Hf.
  unfold _unfilter_scanlines. cbv zeta.
  set (rb := w * bpp) in *.
  assert (Hrb : 0 <= rb) by (unfold rb; nia).
  destruct (Z.ltb_spec (len raw) (h * (1 + rb))); [lia|].
  unfold bytearray.
  destruct (Z.ltb_spec (h * rb) 0); [nia|]. cbn [bind].
  pose (P := fun (y : Z) (o : list Z) =>
    len o = h * rb /\ forall y', 0 <= y' < y -> row_spec raw bpp rb y' o).
  destruct (for_each_range_inv P (unfilter_row raw bpp rb (1 + rb)) h
              (replicate (Z.to_nat (h * rb)) 0)) as (out & E & Ho & Hrows).
  - exact Hh.
  - split; [|intros; lia]. unfold len. rewrite length_replicate. lia.
  - intros y o Hy (Ho & Hrows).
    destruct (unfilter_row_ok raw bpp rb h y o) as (o' & E & Ho' & Hkeep & Hrow);
      try assumption; [apply Hf; exact Hy|].
    exists o'. split; [exact E|]. split; [exact Ho'|].
    intros y' Hy'. destruct (decide (y' = y)) as [->|Hne]; [exact Hrow|].
    apply (row_spec_ext raw bpp rb y' o); try assumption; [lia| |apply Hrows; lia].
    intros j Hj. apply Hkeep. nia.
  - exists out. auto.
Qed.

(** ** Surplus bytes and error cases of the reconstruction *)

Lemma py_index_take {A} (l : list A) (n : nat) (i : Z) :
  0 <= i < Z.of_nat n -> (n <= length l)%nat ->
  py_index (take n l) i = py_index l i.
Proof.
  intros Hi Hn. unfold py_index, len. rewrite length_take.
  destruct (Z.ltb_spec i 0); [lia|].
  destruct (Z.leb_spec 0 i); [|lia].
  destruct (Z.ltb_spec i (Z.of_nat (n `min` length l))); [|lia].
  destruct (Z.ltb_spec i (Z.of_nat (length l))); [|lia]. simpl.
  rewrite lookup_take_lt by lia. reflexivity.
Qed.

Lemma py_slice_take {A} (l : list A) (n : nat) (a b : Z) :
  0 <= a <= b -> b <= Z.of_nat n -> (n <= length l)%nat ->
  py_slice (take n l) a b = py_slice l a b.
Proof.
  intros Ha Hb Hn.
  rewrite !py_slice_in by (unfold len; rewrite ?length_take; lia).
  rewrite !take_drop_commute, take_take. do 2 f_equal. lia.
Qed.

Lemma unfilter_row_take raw bpp rb h y out :
  0 <= rb -> 0 <= y < h -> h * (1 + rb) <= len raw ->
  unfilter_row (take (Z.to_nat (h * (1 + rb))) raw) bpp rb (1 + rb) y out =
  unfilter_row raw bpp rb (1 + rb) y out.
Proof.
  intros Hrb Hy Hraw. unfold len in Hraw.
  assert (0 <= y * (1 + rb)) by nia.
  assert (y * (1 + rb) + 1 + rb <= h * (1 + rb)) by nia.
  unfold unfilter_row.
  rewrite py_index_take by lia.
  rewrite py_slice_take by lia. reflexivity.
Qed.

Lemma unfilter_scanlines_take raw w h bpp :
  0 <= w -> 0 <= h -> 0 < bpp -> h * (1 + w * bpp) <= len raw ->
  _unfilter_scanlines (take (Z.to_nat (h * (1 + w * bpp))) raw) w h bpp =
  _unfilter_scanlines raw w h bpp.
Proof.
  intros Hw Hh Hbpp Hraw. unfold _unfilter_scanlines. cbv zeta.
  assert (Hrb : 0 <= w * bpp) by nia.
  assert (0 <= h * (1 + w * bpp)) by nia.
  assert (Hl : len (take (Z.to_nat (h * (1 + w * bpp))) raw) = h * (1 + w * bpp)).
  { unfold len in *. rewrite length_take. lia. }
  rewrite Hl.
  destruct (Z.ltb_spec (h * (1 + w * bpp)) (h * (1 + w * bpp))); [lia|].
  destruct (Z.ltb_spec (len raw) (h * (1 + w * bpp))); [lia|].
  destruct (bytearray (h * (w * bpp))) as [out|e]; [|reflexivity]. cbn [bind].
  apply for_each_ext. intros y o Hy.
  apply list_elem_of_In, elem_of_seqZ in Hy.
  apply unfilter_row_take with (h := h); lia.
Qed.

(** A stream shorter than [height * (1 + width * bpp)] is refused, the
    message giving both counts. *)
Lemma unfilter_too_short raw w h bpp :
  len raw < h * (1 + w * bpp) ->
  _unfilter_scanlines raw w h bpp =
    Err (ValueError ("IDAT too small: got " +:+ pretty (len raw)
                     +:+ " expected " +:+ pretty (h * (1 + w * bpp)))).
Proof.
  intros H. unfold _unfilter_scanlines. cbv zeta.
  destruct (Z.ltb_spec (len raw) (h * (1 + w * bpp))); [reflexivity|lia].
Qed.

(** A row of positive width whose filter byte is outside 0..4 raises. *)
Lemma unfilter_row_bad_filter raw bpp rb h y out :
  0 < bpp -> 0 < rb -> 0 <= y < h -> h * (1 + rb) <= len raw ->
  len out = h * rb -> valid_filter (at_ raw (y * (1 + rb))) = false ->
  unfilter_row raw bpp rb (1 + rb) y out =
    Err (ValueError ("Unsupported PNG filter: " +:+ pretty (at_ raw (y * (1 + rb))))).
Proof.
  intros Hbpp Hrb Hy Hraw Hlen Hf.
  assert (0 <= y * rb) by nia.
  assert (y * rb + rb <= h * rb) by nia.
  assert (0 <= y * (1 + rb)) by nia.
  assert (y * (1 + rb) + 1 + rb <= h * (1 + rb)) by nia.
  unfold unfilter_row. rewrite py_index_at by lia. cbn [bind].
  set (filt := at_ raw (y * (1 + rb))) in *.
  unfold valid_filter in Hf.
  destruct (Z.eqb_spec filt 0) as [F0|F0]; [rewrite F0 in Hf; discriminate|].
  unfold range. rewrite seqZ_cons by lia. cbn [for_each].
  unfold unfilter_byte.
  destruct (Z.geb_spec 0 bpp); [lia|]. cbn [bind].
  rewrite andb_false_r.
  assert (EU : exists u, (if y >? 0 then py_index out (y * rb - rb + 0) else Ok 0) = Ok u).
  { destruct (Z.gtb_spec y 0); [|eauto]. rewrite py_index_at by nia. eauto. }
  destruct EU as (u & ->). cbn [bind].
  rewrite py_index_at by (rewrite len_py_slice_in; lia). cbn [bind].
  repeat match goal with
  | |- context [ filt =? ?c ] => destruct (Z.eqb_spec filt c)
  end; try reflexivity; subst filt;
  match goal with E : at_ _ _ = _ |- _ => rewrite E in Hf; discriminate end.
Qed.

Lemma unfilter_scanlines_bad_filter raw w h bpp :
  0 < w -> 0 <= h -> 0 < bpp -> h * (1 + w * bpp) <= len raw ->
  (exists y, 0 <= y < h /\ valid_filter (at_ raw (y * (1 + w * bpp))) = false) ->
  exists f, valid_filter f = false /\
    _unfilter_scanlines raw w h bpp =
      Err (ValueError ("Unsupported PNG filter: " +:+ pretty f)).
Proof.
  intros Hw Hh Hbpp Hraw Hbad.
  unfold _unfilter_scanlines. cbv zeta.
  set (rb := w * bpp) in *.
  assert (Hrb : 0 < rb) by (unfold rb; nia).
  destruct (Z.ltb_spec (len raw) (h * (1 + rb))); [lia|].
  unfold bytearray.
  destruct (Z.ltb_spec (h * rb) 0); [nia|]. cbn [bind].
  destruct (for_each_range_raises
              (fun (_ : Z) (o : list Z) => len o = h * rb)
              (fun y => negb (valid_filter (at_ raw (y * (1 + rb)))))
              (fun e => exists f, valid_filter f = false /\
                 e = ValueError ("Unsupported PNG filter: " +:+ pretty f))
              (unfilter_row raw bpp rb (1 + rb)) h
              (replicate (Z.to_nat (h * rb)) 0)) as (e & E & f & Hf & ->).
  - unfold len. rewrite length_replicate. lia.
  - intros y o Hy Ho Hv. apply negb_false_iff in Hv.
    destruct (unfilter_row_ok raw bpp rb h y o) as (o' & E & Ho' & _);
      try assumption; try lia.
    { unfold valid_filter in Hv. lia. }
    exists o'. auto.
  - intros y o Hy Ho Hv. apply negb_true_iff in Hv.
    eexists. split; [apply unfilter_row_bad_filter with (h := h); assumption|].
    eexists. split; [exact Hv|reflexivity].
  - destruct Hbad as (y & Hy & Hv). exists y. split; [exact Hy|].
    rewrite Hv. reflexivity.
  - exists f. auto.
Qed.

(** ** Buffers stay buffers: length and byte range *)

Lemma for_each_preserves {A St} (P : St -> Prop) (l : list A)
  (body : A -> St -> result St) s s' :
  (forall a s0 s1, In a l -> P s0 -> body a s0 = Ok s1 -> P s1) ->
  P s -> for_each l body s = Ok s' -> P s'.
Proof.
  revert s. induction l as [|a l IH]; intros s Hbody Hs H; simpl in H.
  - congruence.
  - apply bind_Ok in H as (s1 & E1 & H).
    apply (IH s1); [|eapply Hbody; eauto; left; reflexivity|exact H].
    intros b s0 s2 Hb. apply Hbody. right. exact Hb.
Qed.

Lemma py_index_In {A} (l : list A) (i : Z) (a : A) : py_index l i = Ok a -> In a l.
Proof.
  unfold py_index. destruct (_ && _); [|discriminate].
  destruct (l !! _) as [b|] eqn:E; [|discriminate].
  intros [= <-]. apply list_elem_of_In. eapply list_elem_of_lookup_2. exact E.
Qed.

Lemma py_index_byte (l : list Z) (i : Z) (a : Z) :
  is_bytes l -> py_index l i = Ok a -> 0 <= a < 256.
Proof.
  intros Hl H. apply py_index_In in H.
  unfold is_bytes in Hl. rewrite List.Forall_forall in Hl. auto.
Qed.

Lemma py_setitem_inv {A} (l l' : list A) (i : Z) (v : A) :
  py_setitem l i v = Ok l' -> exists n, l' = <[n := v]> l.
Proof.
  unfold py_setitem. destruct (_ && _); [|discriminate].
  intros [= <-]. eauto.
Qed.

Lemma py_setitem_bytes (l l' : list Z) (i v : Z) :
  is_bytes l -> 0 <= v < 256 -> py_setitem l i v = Ok l' ->
  len l' = len l /\ is_bytes l'.
Proof.
  intros Hl Hv H. apply py_setitem_inv in H as (n & ->).
  split; [apply len_insert|]. apply Forall_insert; assumption.
Qed.

Lemma is_bytes_py_slice (l : list Z) a b : is_bytes l -> is_bytes (py_slice l a b).
Proof. intros H. unfold py_slice. apply Forall_take, Forall_drop, H. Qed.

Lemma is_bytes_py_setslice (l src : list Z) a b :
  is_bytes l -> is_bytes src -> is_bytes (py_setslice l a b src).
Proof.
  intros Hl Hs. unfold py_setslice, is_bytes.
  rewrite !Forall_app. split; [apply Forall_take, Hl|].
  split; [exact Hs|apply Forall_drop, Hl].
Qed.

Lemma is_bytes_replicate n : is_bytes (replicate n 0).
Proof. apply Forall_replicate. lia. Qed.

Lemma land_255_byte v : 0 <= Z.land v 255 < 256.
Proof. rewrite land_255. apply Z.mod_pos_bound. lia. Qed.

Ltac inv_bind H :=
  repeat (apply bind_Ok in H; destruct H as (? & ? & H)).

Lemma unfilter_byte_bytes filt src bpp rb dst_off y x out out' :
  is_bytes out -> unfilter_byte filt src bpp rb dst_off y x out = Ok out' ->
  len out' = len out /\ is_bytes out'.
Proof.
  intros Ho H. unfold unfilter_byte in H. inv_bind H.
  repeat match type of H with
  | context [ filt =? ?c ] => destruct (Z.eqb_spec filt c)
  end; try discriminate;
  (eapply py_setitem_bytes; [exact Ho|apply land_255_byte|exact H]).
Qed.

Lemma unfilter_row_bytes raw bpp rb h y out out' :
  0 <= rb -> 0 <= y < h -> h * (1 + rb) <= len raw -> is_bytes raw ->
  len out = h * rb -> is_bytes out ->
  unfilter_row raw bpp rb (1 + rb) y out = Ok out' ->
  len out' = h * rb /\ is_bytes out'.
Proof.
  intros Hrb Hy Hraw Hb Hlen Ho H.
  assert (0 <= y * rb) by nia.
  assert (y * rb + rb <= h * rb) by nia.
  assert (0 <= y * (1 + rb)) by nia.
  assert (y * (1 + rb) + 1 + rb <= h * (1 + rb)) by nia.
  unfold unfilter_row in H. apply bind_Ok in H as (filt & _ & H).
  destruct (filt =? 0).
  - injection H as <-. split.
    + rewrite len_py_setslice_in; try lia.
      rewrite len_py_slice_in; lia.
    + apply is_bytes_py_setslice; [exact Ho|]. apply is_bytes_py_slice, Hb.
  - revert H. apply (for_each_preserves (fun o => len o = h * rb /\ is_bytes o));
      [|auto].
    intros x o o' _ (Hl & Hbo) E.
    apply unfilter_byte_bytes in E as (E1 & E2); [|exact Hbo].
    split; [lia|exact E2].
Qed.

Lemma unfilter_scanlines_bytes raw w h bpp out :
  0 <= w -> 0 <= h -> 0 < bpp -> is_bytes raw ->
  _unfilter_scanlines raw w h bpp = Ok out ->
  len out = h * (w * bpp) /\ is_bytes out.
Proof.
  intros Hw Hh Hbpp Hb H. unfold _unfilter_scanlines in H. cbv zeta in H.
  assert (Hrb : 0 <= w * bpp) by nia.
  destruct (Z.ltb_spec (len raw) (h * (1 + w * bpp))); [discriminate|].
  unfold bytearray in H.
  destruct (Z.ltb_spec (h * (w * bpp)) 0); [discriminate|]. cbn [bind] in H.
  revert H.
  apply (for_each_preserves (fun o => len o = h * (w * bpp) /\ is_bytes o)).
  - intros y o o' Hy (Hl & Hbo) E.
    apply list_elem_of_In, elem_of_seqZ in Hy.
    apply (unfilter_row_bytes raw bpp (w * bpp) h y o o'); auto; lia.
  - split; [|apply is_bytes_replicate].
    unfold len. rewrite length_replicate. lia.
Qed.

Lemma expand_pixel_bytes pixels i o o' :
  is_bytes pixels -> is_bytes o -> expand_pixel pixels i o = Ok o' ->
  len o' = len o /\ is_bytes o'.
Proof.
  intros Hp Ho H. unfold expand_pixel in H. inv_bind H.
  repeat match goal with
  | E : py_index pixels _ = Ok _ |- _ => apply (py_index_byte _ _ _ Hp) in E
  end.
  repeat match goal with
  | E : py_setitem ?l _ _ = Ok ?l', Hl : is_bytes ?l |- _ =>
      apply (py_setitem_bytes _ _ _ _ Hl) in E; [destruct E|lia]
  end.
  split; [congruence|assumption].
Qed.

Lemma expand_rgb_bytes pixels w h out :
  is_bytes pixels -> expand_rgb pixels w h = Ok out ->
  len out = w * h * 4 /\ is_bytes out.
Proof.
  intros Hp H. unfold expand_rgb, bytearray in H.
  destruct (Z.ltb_spec (w * h * 4) 0); [discriminate|]. cbn [bind] in H.
  revert H.
  apply (for_each_preserves (fun o => len o = w * h * 4 /\ is_bytes o)).
  - intros i o o' _ (Hl & Hbo) E.
    apply expand_pixel_bytes in E as (E1 & E2); auto. split; [lia|exact E2].
  - split; [|apply is_bytes_replicate].
    unfold len. rewrite length_replicate. lia.
Qed.

(** ** [struct]: big-endian words *)

Lemma pack_unpack_I (n : Z) :
  0 <= n < 2 ^ 32 ->
  exists l, pack_I n = Ok l /\ length l = 4%nat /\ is_bytes l /\ unpack_I l = Ok n.
Proof.
  intros Hn. unfold pack_I.
  destruct (Z.leb_spec 0 n); [|lia]. destruct (Z.ltb_spec n (2 ^ 32)); [|lia].
  simpl andb. cbv iota. eexists. split; [reflexivity|].
  change (2 ^ 32) with 4294967296 in *. change (2 ^ 24) with 16777216.
  change (2 ^ 16) with 65536. change (2 ^ 8) with 256.
  split; [reflexivity|]. split.
  - repeat constructor; apply Z.mod_pos_bound; lia.
  - unfold unpack_I. f_equal.
    change (2 ^ 24) with 16777216. change (2 ^ 16) with 65536. change (2 ^ 8) with 256.
    Z.div_mod_to_equations. lia.
Qed.

Lemma unpack_I_range (l : list Z) (n : Z) :
  is_bytes l -> unpack_I l = Ok n -> 0 <= n < 2 ^ 32.
Proof.
  intros Hl H. unfold unpack_I in H.
  destruct l as [|b0 [|b1 [|b2 [|b3 [|]]]]]; try discriminate.
  injection H as <-.
  repeat match goal with
  | Hb : is_bytes (_ :: _) |- _ => apply Forall_cons in Hb; destruct Hb
  | Hb : Forall _ (_ :: _) |- _ => apply Forall_cons in Hb; destruct Hb
  end.
  change (2 ^ 32) with 4294967296. change (2 ^ 24) with 16777216.
  change (2 ^ 16) with 65536. change (2 ^ 8) with 256. lia.
Qed.


Lemma pack_unpack_IIBBBBB (w h : Z) :
  0 <= w < 2 ^ 32 -> 0 <= h < 2 ^ 32 ->
  exists l, pack_IIBBBBB w h 8 6 0 0 0 = Ok l /\ length l = 13%nat /\ is_bytes l /\
    unpack_IIBBBBB l = Ok (w, h, 8, 6, 0, 0, 0).
Proof.
  intros Hw Hh. unfold pack_IIBBBBB.
  destruct (pack_unpack_I w Hw) as (lw & -> & Lw & Bw & Uw).
  destruct (pack_unpack_I h Hh) as (lh & -> & Lh & Bh & Uh).
  cbn [bind]. simpl forallb. cbv iota.
  eexists. split; [reflexivity|].
  destruct lw as [|w0 [|w1 [|w2 [|w3 [|]]]]]; try discriminate.
  destruct lh as [|h0 [|h1 [|h2 [|h3 [|]]]]]; try discriminate.
  split; [reflexivity|]. split.
  - unfold is_bytes. rewrite !Forall_app. split; [exact Bw|]. split; [exact Bh|].
    repeat constructor; lia.
  - cbn [app unpack_IIBBBBB]. rewrite Uw, Uh. reflexivity.
Qed.

Lemma unpack_IIBBBBB_range (l : list Z) w h b0 b1 b2 b3 b4 :
  is_bytes l -> unpack_IIBBBBB l = Ok (w, h, b0, b1, b2, b3, b4) ->
  0 <= w < 2 ^ 32 /\ 0 <= h < 2 ^ 32.
Proof.
  intros Hl H. unfold unpack_IIBBBBB in H.
  destruct l as [|z l]; [discriminate|]. destruct l as [|z0 l]; [discriminate|].
  destruct l as [|z1 l]; [discriminate|]. destruct l as [|z2 l]; [discriminate|].
  destruct l as [|z3 l]; [discriminate|]. destruct l as [|z4 l]; [discriminate|].
  destruct l as [|z5 l]; [discriminate|]. destruct l as [|z6 l]; [discriminate|].
  do 6 (destruct l as [|? l]; try discriminate).
  apply bind_Ok in H as (w' & Ew & H). apply bind_Ok in H as (h' & Eh & H).
  injection H as -> -> _ _ _ _ _.
  unfold is_bytes in Hl.
  repeat match goal with
  | Hb : Forall _ (_ :: _) |- _ => apply Forall_cons in Hb; destruct Hb
  end.
  split; [apply (unpack_I_range [z; z0; z1; z2])|apply (unpack_I_range [z3; z4; z5; z6])];
    try assumption; unfold is_bytes; rewrite !Forall_cons; auto.
Qed.

(** ** The encoder's scanline stream *)

Lemma filter_none_rgba_ok (rgba : list Z) (w h : Z) :
  0 <= w -> 0 <= h -> len rgba = w * h * 4 -> is_bytes rgba ->
  exists raw, _filter_none_rgba rgba w h = Ok raw /\
    len raw = h * (1 + w * 4) /\ is_bytes raw /\
    forall y, 0 <= y < h ->
      at_ raw (y * (1 + w * 4)) = 0 /\
      forall x, 0 <= x < w * 4 ->
        at_ raw (y * (1 + w * 4) + 1 + x) = at_ rgba (y * (w * 4) + x).
Proof.
  intros Hw Hh Hlen Hb. unfold _filter_none_rgba. cbv zeta.
  set (rb := w * 4) in *. assert (Hrb : 0 <= rb) by (unfold rb; lia).
  unfold bytearray. destruct (Z.ltb_spec (h * (1 + rb)) 0); [nia|]. cbn [bind].
  pose (P := fun (y : Z) (o : list Z) =>
    len o = h * (1 + rb) /\ is_bytes o /\
    forall y', 0 <= y' < y ->
      at_ o (y' * (1 + rb)) = 0 /\
      forall x, 0 <= x < rb -> at_ o (y' * (1 + rb) + 1 + x) = at_ rgba (y' * rb + x)).
  destruct (for_each_range_inv P (filter_none_row rgba rb) h
              (replicate (Z.to_nat (h * (1 + rb))) 0)) as (raw & E & HP).
  - exact Hh.
  - split; [unfold len; rewrite length_replicate; lia|].
    split; [apply is_bytes_replicate|]. intros; lia.
  - intros y o Hy (Ho & Hbo & Hrows).
    assert (0 <= y * (1 + rb)) by nia.
    assert (y * (1 + rb) + 1 + rb <= h * (1 + rb)) by nia.
    assert (0 <= y * rb) by nia.
    assert (y * rb + rb <= w * h * 4) by (unfold rb in *; nia).
    unfold filter_none_row.
    rewrite py_setitem_in_range by lia. cbn [bind].
    eexists. split; [reflexivity|].
    set (o1 := <[Z.to_nat (y * (1 + rb)) := 0]> o).
    assert (Ho1 : len o1 = h * (1 + rb)) by (unfold o1; rewrite len_insert; exact Ho).
    set (src := py_slice rgba (y * rb) (y * rb + rb)).
    assert (Hsrc : len src = rb) by (unfold src; rewrite len_py_slice_in; lia).
    split; [rewrite len_py_setslice_in; lia|]. split.
    { apply is_bytes_py_setslice; [|apply is_bytes_py_slice, Hb].
      apply Forall_insert; [exact Hbo|lia]. }
    assert (Hold : forall j, j < y * (1 + rb) ->
      at_ (py_setslice o1 (y * (1 + rb) + 1) (y * (1 + rb) + 1 + rb) src) j = at_ o j).
    { intros j Hj. rewrite at_py_setslice_in by lia.
      rewrite decide_False by lia. unfold o1. apply at_insert_ne; lia. }
    intros y' Hy'. destruct (decide (y' = y)) as [->|Hne].
    + split.
      * rewrite at_py_setslice_in by lia. rewrite decide_False by lia.
        unfold o1. apply at_insert_eq. lia.
      * intros x Hx. rewrite at_py_setslice_in by lia. rewrite decide_True by lia.
        unfold src. rewrite at_py_slice_in by lia. f_equal. lia.
    + destruct (Hrows y' ltac:(lia)) as (Hf & Hx).
      assert (y' * (1 + rb) + 1 + rb <= y * (1 + rb)) by nia.
      assert (0 <= y' * (1 + rb)) by nia.
      split; [rewrite Hold by lia; exact Hf|].
      intros x Hx'. rewrite Hold by lia. apply Hx. exact Hx'.
  - destruct HP as (Ho & Hbo & Hrows). exists raw. auto.
Qed.

(** ** Reading back what the encoder wrote *)

Lemma len_app {A} (l1 l2 : list A) : len (l1 ++ l2) = len l1 + len l2.
Proof. unfold len. rewrite length_app. lia. Qed.

Lemma py_slice_mid {A} (l pre mid post : list A) (i j : Z) :
  l = pre ++ mid ++ post -> i = len pre -> j = len pre + len mid ->
  py_slice l i j = mid.
Proof.
  intros -> -> ->. pose proof (len_nonneg pre). pose proof (len_nonneg mid).
  rewrite py_slice_in by (rewrite ?len_app; pose proof (len_nonneg post); lia).
  unfold len. rewrite Nat2Z.id.
  replace (Z.to_nat (Z.of_nat (length pre) + Z.of_nat (length mid) - Z.of_nat (length pre)))
    with (length mid) by lia.
  rewrite drop_app_length, take_app_length. reflexivity.
Qed.

(** One iteration of the chunk loop, at the start of a well-formed chunk
    [L ++ T ++ D ++ C]. *)
Lemma read_chunks_step (budget : nat) (png pre L T D C post : list Z) :
  png = pre ++ L ++ T ++ D ++ C ++ post ->
  length L = 4%nat -> length T = 4%nat -> length C = 4%nat ->
  unpack_I L = Ok (len D) ->
  read_chunks_loop (S budget) png (len pre) =
    if bytes_eqb T IEND then Ok [(T, D)]
    else do rest <- read_chunks_loop budget png (len pre + 12 + len D);
         Ok ((T, D) :: rest).
Proof.
  intros Hpng HL HT HC HU.
  assert (Hlen : len png = len pre + 12 + len D + len post).
  { subst png. rewrite !len_app. unfold len. lia. }
  pose proof (len_nonneg pre). pose proof (len_nonneg D). pose proof (len_nonneg post).
  cbn [read_chunks_loop].
  destruct (Z.ltb_spec (len pre) (len png)); [|lia].
  destruct (Z.gtb_spec (len pre + 8) (len png)); [lia|].
  rewrite (py_slice_mid png pre L (T ++ D ++ C ++ post)) by (auto; unfold len; lia).
  rewrite HU. cbn [bind].
  rewrite (py_slice_mid png (pre ++ L) T (D ++ C ++ post))
    by (rewrite <- ?app_assoc, ?len_app; auto; unfold len; lia).
  rewrite (py_slice_mid png (pre ++ L ++ T) D (C ++ post))
    by (rewrite <- ?app_assoc, ?len_app; auto; unfold len; lia).
  replace (len pre + 8 + len D + 4) with (len pre + 12 + len D) by lia.
  reflexivity.
Qed.

Section CodecProofs.
Context {z : Zlib} {laws : ZlibLaws z}.

Lemma chunk_ok (T D : list Z) :
  len D < 2 ^ 32 ->
  exists L C, chunk T D = Ok (L ++ T ++ D ++ C) /\
    length L = 4%nat /\ length C = 4%nat /\ unpack_I L = Ok (len D) /\
    is_bytes L /\ is_bytes C.
Proof.
  intros HD. unfold chunk. cbv zeta.
  destruct (pack_unpack_I (len D)) as (L & -> & HL & BL & UL);
    [pose proof (len_nonneg D); lia|].
  destruct (pack_unpack_I (Z.land (zlib_crc32 (T ++ D)) 4294967295))
    as (C & -> & HC & BC & _).
  { change 4294967295 with (Z.ones 32). rewrite Z.land_ones by lia.
    apply Z.mod_pos_bound. lia. }
  cbn [bind]. exists L, C. repeat split; solve [reflexivity|assumption].
Qed.

(** The chunk stream of an encoded image reads back as its three chunks. *)
Lemma read_chunks_encoded (L1 C1 L2 C2 L3 C3 ihdr compressed : list Z) :
  length L1 = 4%nat -> length C1 = 4%nat -> unpack_I L1 = Ok (len ihdr) ->
  length L2 = 4%nat -> length C2 = 4%nat -> unpack_I L2 = Ok (len compressed) ->
  length L3 = 4%nat -> length C3 = 4%nat -> unpack_I L3 = Ok (len (@nil Z)) ->
  _read_chunks (PNG_SIGNATURE ++ (L1 ++ IHDR ++ ihdr ++ C1) ++
                (L2 ++ IDAT ++ compressed ++ C2) ++ (L3 ++ IEND ++ [] ++ C3)) =
    Ok [(IHDR, ihdr); (IDAT, compressed); (IEND, [])].
Proof.
  intros HL1 HC1 U1 HL2 HC2 U2 HL3 HC3 U3.
  set (png := PNG_SIGNATURE ++ _).
  unfold _read_chunks.
  assert (Hs : startswith png PNG_SIGNATURE = true).
  { unfold startswith, png. rewrite take_app_length.
    unfold bytes_eqb. apply bool_decide_eq_true. reflexivity. }
  rewrite Hs. cbn [negb].
  assert (Hn : exists k, length png = S (S (S k))).
  { unfold png. rewrite !length_app, HL1, HL2, HL3. simpl. eauto. }
  destruct Hn as (k & ->).
  assert (E1 : png = PNG_SIGNATURE ++ L1 ++ IHDR ++ ihdr ++ C1 ++
                 ((L2 ++ IDAT ++ compressed ++ C2) ++ (L3 ++ IEND ++ [] ++ C3))).
  { unfold png. rewrite <- !app_assoc. reflexivity. }
  rewrite (read_chunks_step _ png _ _ _ _ _ _ E1 HL1 eq_refl HC1 U1).
  replace (bytes_eqb IHDR IEND) with false by reflexivity.
  replace (len PNG_SIGNATURE + 12 + len ihdr)
    with (len (PNG_SIGNATURE ++ L1 ++ IHDR ++ ihdr ++ C1))
    by (rewrite !len_app; unfold len; rewrite HL1, HC1; simpl; lia).
  assert (E2 : png = (PNG_SIGNATURE ++ L1 ++ IHDR ++ ihdr ++ C1) ++
                 L2 ++ IDAT ++ compressed ++ C2 ++ (L3 ++ IEND ++ [] ++ C3)).
  { unfold png. rewrite <- !app_assoc. reflexivity. }
  rewrite (read_chunks_step _ png _ _ _ _ _ _ E2 HL2 eq_refl HC2 U2).
  replace (bytes_eqb IDAT IEND) with false by reflexivity.
  replace (len (PNG_SIGNATURE ++ L1 ++ IHDR ++ ihdr ++ C1) + 12 + len compressed)
    with (len ((PNG_SIGNATURE ++ L1 ++ IHDR ++ ihdr ++ C1) ++
               L2 ++ IDAT ++ compressed ++ C2))
    by (rewrite !len_app; unfold len; rewrite HL2, HC2; simpl; lia).
  assert (E3 : png = ((PNG_SIGNATURE ++ L1 ++ IHDR ++ ihdr ++ C1) ++
                 L2 ++ IDAT ++ compressed ++ C2) ++ L3 ++ IEND ++ [] ++ C3 ++ []).
  { unfold png. rewrite <- !app_assoc, ?app_nil_r. reflexivity. }
  rewrite (read_chunks_step _ png _ _ _ _ _ _ E3 HL3 eq_refl HC3 U3).
  replace (bytes_eqb IEND IEND) with true by reflexivity.
  reflexivity.
Qed.

(** Encoding an image that satisfies the invariant succeeds, and decoding
    the bytes gives the image back. *)
Lemma write_read_png (img : PngImage) :
  image_ok img ->
  0 <= width img < 2 ^ 32 -> 0 <= height img < 2 ^ 32 ->
  (forall raw, _filter_none_rgba (rgba img) (width img) (height img) = Ok raw ->
     len (zlib_compress raw) < 2 ^ 32) ->
  exists png, write_png_rgba img = Ok png /\ is_bytes png /\ read_png png = Ok img.
Proof.
  destruct img as [w h buf]. unfold image_ok. cbn [width height rgba].
  intros (Hlen & Hb) Hw Hh Hfit.
  unfold write_png_rgba. cbn [width height rgba].
  destruct (pack_unpack_IIBBBBB w h Hw Hh) as (ihdr & -> & Hi & Bi & Ui). cbn [bind].
  destruct (filter_none_rgba_ok buf w h) as (raw & Eraw & Lraw & Braw & Hraw);
    try lia; try assumption.
  rewrite Eraw. cbn [bind].
  specialize (Hfit raw Eraw).
  destruct (chunk_ok IHDR ihdr) as (L1 & C1 & -> & HL1 & HC1 & U1 & BL1 & BC1).
  { unfold len. rewrite Hi. reflexivity. }
  destruct (chunk_ok IDAT (zlib_compress raw)) as (L2 & C2 & -> & HL2 & HC2 & U2 & BL2 & BC2);
    [exact Hfit|].
  destruct (chunk_ok IEND []) as (L3 & C3 & -> & HL3 & HC3 & U3 & BL3 & BC3);
    [reflexivity|].
  cbn [bind]. eexists. split; [reflexivity|]. split.
  { unfold is_bytes in *. rewrite !Forall_app.
    pose proof (compress_is_bytes raw Braw) as Bc.
    repeat split; try assumption; try (repeat constructor; lia). }
  unfold read_png.
  rewrite read_chunks_encoded by assumption. cbn [bind].
  replace (collect_chunks [(IHDR, ihdr); (IDAT, zlib_compress raw); (IEND, [])] None [])
    with (Some ihdr, [zlib_compress raw]) by reflexivity.
  rewrite Ui. cbn [bind]. cbn.
  rewrite app_nil_r, (decompress_compress raw Braw). cbn [bind].
  destruct (unfilter_scanlines_ok raw w h 4) as (out & -> & Lout & Hrows); try lia.
  { intros y Hy. destruct (Hraw y Hy) as (-> & _). lia. }
  cbn [bind]. do 2 f_equal.
  apply list_eq_at; [lia|].
  intros i Hi'. rewrite Lout in Hi'.
  assert (0 <= w * 4) by lia.
  assert (Hq : i = (i / (w * 4)) * (w * 4) + i mod (w * 4)).
  { rewrite Z.mul_comm. apply Z.div_mod. nia. }
  assert (0 < w * 4) by nia.
  pose proof (Z.mod_pos_bound i (w * 4) ltac:(lia)) as Hm.
  assert (Hy : 0 <= i / (w * 4) < h).
  { split; [apply Z.div_pos; lia|]. apply Z.div_lt_upper_bound; nia. }
  rewrite Hq. rewrite (Hrows _ Hy _ Hm).
  destruct (Hraw _ Hy) as (-> & Hx). unfold spec_recon.
  rewrite decide_True by reflexivity. apply Hx. exact Hm.
Qed.


End CodecProofs.

(** ** Every decoded image satisfies the invariant *)

Lemma read_chunks_loop_bytes (budget : nat) (png : list Z) (i : Z) chunks :
  is_bytes png -> read_chunks_loop budget png i = Ok chunks ->
  Forall (fun c => is_bytes (snd c)) chunks.
Proof.
  intros Hb. revert i chunks.
  induction budget as [|budget IH]; intros i chunks H; cbn [read_chunks_loop] in H.
  - destruct (i <? len png); [|injection H as <-; constructor].
    destruct (i + 8 >? len png); [injection H as <-; constructor|discriminate].
  - destruct (i <? len png); [|injection H as <-; constructor].
    destruct (i + 8 >? len png); [injection H as <-; constructor|].
    apply bind_Ok in H as (length & _ & H).
    destruct (bytes_eqb _ IEND).
    + injection H as <-. repeat constructor. apply is_bytes_py_slice, Hb.
    + apply bind_Ok in H as (rest & Hrest & H). injection H as <-.
      constructor; [apply is_bytes_py_slice, Hb|]. eapply IH, Hrest.
Qed.

Lemma collect_chunks_bytes chunks ihdr idat_parts ihdr' idat_parts' :
  Forall (fun c => is_bytes (snd c)) chunks ->
  (forall d, ihdr = Some d -> is_bytes d) -> Forall is_bytes idat_parts ->
  collect_chunks chunks ihdr idat_parts = (ihdr', idat_parts') ->
  (forall d, ihdr' = Some d -> is_bytes d) /\ Forall is_bytes idat_parts'.
Proof.
  intros Hc. revert ihdr idat_parts.
  induction Hc as [|[ctype data] rest Hd Hrest IH]; intros ihdr idat Hi Hp H;
    cbn [collect_chunks] in H.
  - injection H as <- <-. auto.
  - cbn [snd] in Hd.
    destruct (bytes_eqb ctype IHDR).
    { eapply IH; [| |exact H]; [|exact Hp]. intros d [= <-]. exact Hd. }
    destruct (bytes_eqb ctype IDAT).
    { eapply IH; [| |exact H]; [exact Hi|].
      apply Forall_app. split; [exact Hp|]. repeat constructor. exact Hd. }
    destruct (bytes_eqb ctype IEND).
    { injection H as <- <-. auto. }
    eapply IH; eauto.
Qed.

(** The chunk loop stays within its budget: on a file of bytes every
    chunk length is nonnegative, so [i] grows by at least 12 per iteration. *)
Lemma read_chunks_loop_returns (png : list Z) :
  is_bytes png ->
  forall (budget : nat) (i : Z),
    0 <= i -> len png - i < 12 * Z.of_nat budget ->
    exists chunks, read_chunks_loop budget png i = Ok chunks.
Proof.
  intros Hb. induction budget as [|budget IH]; intros i Hi Hbud;
    cbn [read_chunks_loop].
  - destruct (Z.ltb_spec i (len png)); [lia|eauto].
  - destruct (Z.ltb_spec i (len png)); [|eauto].
    destruct (Z.gtb_spec (i + 8) (len png)); [eauto|].
    pose proof (len_py_slice_in png i (i + 4) ltac:(lia) ltac:(lia)) as L4.
    pose proof (is_bytes_py_slice png i (i + 4) Hb) as B4.
    destruct (py_slice png i (i + 4)) as [|b0 [|b1 [|b2 [|b3 [|]]]]];
      try (unfold len in L4; cbn in L4; lia).
    pose proof (unpack_I_range _ _ B4 eq_refl) as Hn.
    cbn [unpack_I bind].
    destruct (bytes_eqb _ IEND); [eauto|].
    destruct (IH (i + 8 + (b0 * 2 ^ 24 + b1 * 2 ^ 16 + b2 * 2 ^ 8 + b3) + 4))
      as (rest & ->); [lia|lia|].
    cbn [bind]. eauto.
Qed.

Lemma read_chunks_returns (png : list Z) :
  is_bytes png ->
  (exists chunks, _read_chunks png = Ok chunks) \/
  _read_chunks png = Err (ValueError "Not a PNG (bad signature)").
Proof.
  intros Hb. unfold _read_chunks.
  destruct (negb _); [right; reflexivity|left].
  change (len PNG_SIGNATURE) with 8.
  apply read_chunks_loop_returns; [exact Hb|lia|].
  unfold len. lia.
Qed.

Section DecodeInvariant.
Context {z : Zlib} {laws : ZlibLaws z}.

Lemma read_png_image_ok (png : list Z) (img : PngImage) :
  is_bytes png -> read_png png = Ok img ->
  image_ok img /\ 0 <= width img < 2 ^ 32 /\ 0 <= height img < 2 ^ 32.
Proof.
  intros Hb H. unfold read_png in H.
  apply bind_Ok in H as (chunks & Hchunks & H).
  assert (Hcb : Forall (fun c => is_bytes (snd c)) chunks).
  { unfold _read_chunks in Hchunks. destruct (negb _); [discriminate|].
    eapply read_chunks_loop_bytes; eauto. }
  destruct (collect_chunks chunks None []) as [[ihdr|] idat] eqn:Ecol; [|discriminate].
  destruct (collect_chunks_bytes chunks None [] (Some ihdr) idat Hcb) as (Hi & Hp);
    [intros; discriminate|constructor|exact Ecol|].
  specialize (Hi ihdr eq_refl).
  apply bind_Ok in H as (hdr & Hhdr & H).
  destruct hdr as [[[[[[w h] bit_depth] color_type] comp] filt] interlace].
  destruct (unpack_IIBBBBB_range _ _ _ _ _ _ _ _ Hi Hhdr) as (Hw & Hh).
  destruct (_ || _); [discriminate|].
  destruct (negb (interlace =? 0)); [discriminate|].
  destruct (negb (bit_depth =? 8)); [discriminate|].
  apply bind_Ok in H as (bpp & Hbpp & H).
  apply bind_Ok in H as (raw & Hraw & H).
  apply bind_Ok in H as (pixels & Hpix & H).
  apply bind_Ok in H as (buf & Hbuf & H).
  injection H as <-. cbn [width height rgba]. unfold image_ok. cbn [width height rgba].
  split; [|split; assumption].
  assert (Braw : is_bytes raw).
  { eapply decompress_is_bytes; [|exact Hraw].
    unfold is_bytes. apply Forall_concat. exact Hp. }
  assert (Hb34 : bpp = 3 \/ bpp = 4).
  { destruct (color_type =? 2); [injection Hbpp as <-; auto|].
    destruct (color_type =? 6); [injection Hbpp as <-; auto|discriminate]. }
  apply unfilter_scanlines_bytes in Hpix as (Lpix & Bpix); try lia; [|exact Braw].
  destruct Hb34 as [-> | ->].
  - replace (3 =? 4) with false in Hbuf by reflexivity.
    apply expand_rgb_bytes in Hbuf; [exact Hbuf|exact Bpix].
  - replace (4 =? 4) with true in Hbuf by reflexivity.
    injection Hbuf as <-. split; [lia|exact Bpix].
Qed.

End DecodeInvariant.

(** ** Seed selection: [Counter(...).most_common(K)] *)

Lemma occurrences_app c l1 l2 :
  occurrences c (l1 ++ l2) = occurrences c l1 + occurrences c l2.
Proof. induction l1 as [|x l1 IH]; simpl; [reflexivity|]. rewrite IH. lia. Qed.

Lemma occurrences_nonneg c l : 0 <= occurrences c l.
Proof. induction l as [|x l IH]; simpl; [lia|]. destruct (bool_decide _); lia. Qed.

Lemma first_index_lt c l : In c l -> (first_index c l < length l)%nat.
Proof.
  induction l as [|x l IH]; simpl; [tauto|]. intros Hin.
  destruct (bool_decide_reflect (x = c)); [lia|].
  destruct Hin as [->|Hin]; [congruence|]. specialize (IH Hin). lia.
Qed.

Lemma first_index_app_l c l1 l2 :
  In c l1 -> first_index c (l1 ++ l2) = first_index c l1.
Proof.
  induction l1 as [|x l1 IH]; simpl; [tauto|]. intros Hin.
  destruct (bool_decide_reflect (x = c)); [reflexivity|].
  destruct Hin as [->|Hin]; [congruence|]. rewrite IH by exact Hin. reflexivity.
Qed.

Lemma first_index_app_r c l1 l2 :
  ~ In c l1 -> first_index c (l1 ++ l2) = (length l1 + first_index c l2)%nat.
Proof.
  induction l1 as [|x l1 IH]; simpl; [reflexivity|]. intros Hin.
  destruct (bool_decide_reflect (x = c)); [tauto|].
  rewrite IH by tauto. reflexivity.
Qed.

(** [counter_add] on a key that is present, and on a new key. *)
Lemma counter_add_new (c : list (rgb * Z)) (k : rgb) :
  ~ In k (c.*1) -> counter_add c k = c ++ [(k, 1)].
Proof.
  induction c as [|[k' n] c IH]; simpl; [reflexivity|]. intros Hin.
  destruct (bool_decide_reflect (k' = k)); [tauto|].
  rewrite IH by tauto. reflexivity.
Qed.

Lemma items_of_keys p ks : (items_of p ks).*1 = ks.
Proof.
  unfold items_of. rewrite <- list_fmap_compose.
  induction ks as [|k ks IH]; simpl; [reflexivity|]. f_equal. exact IH.
Qed.

Lemma counter_add_present p ks x :
  List.NoDup ks -> In x ks ->
  counter_add (items_of p ks) x = items_of (p ++ [x]) ks.
Proof.
  unfold items_of. induction ks as [|k ks IH]; intros Hnd Hin; [destruct Hin|].
  apply List.NoDup_cons_iff in Hnd as (Hk & Hnd). cbn [fmap list_fmap counter_add].
  rewrite occurrences_app. cbn [occurrences].
  destruct (bool_decide_reflect (k = x)) as [->|Hne].
  - rewrite bool_decide_eq_true_2 by reflexivity.
    f_equal; try solve [f_equal; lia].
    apply list_fmap_ext. intros i k' Hk'. apply list_elem_of_lookup_2 in Hk'.
    apply list_elem_of_In in Hk'.
    rewrite occurrences_app. cbn [occurrences].
    rewrite bool_decide_eq_false_2 by (intros ->; tauto). f_equal. lia.
  - rewrite bool_decide_eq_false_2 by congruence.
    f_equal; try solve [f_equal; lia].
    destruct Hin as [->|Hin]; [congruence|]. apply IH; assumption.
Qed.

Lemma counter_add_absent p ks x :
  ~ In x ks -> ~ In x p ->
  counter_add (items_of p ks) x = items_of (p ++ [x]) (ks ++ [x]).
Proof.
  intros Hks Hp. rewrite counter_add_new by (rewrite items_of_keys; exact Hks).
  unfold items_of. rewrite fmap_app. cbn [fmap list_fmap]. f_equal.
  - apply list_fmap_ext. intros i k' Hk'. apply list_elem_of_lookup_2 in Hk'.
    apply list_elem_of_In in Hk'.
    rewrite occurrences_app. cbn [occurrences].
    rewrite bool_decide_eq_false_2 by (intros ->; tauto). f_equal. lia.
  - rewrite occurrences_app. cbn [occurrences].
    rewrite bool_decide_eq_true_2 by reflexivity.
    assert (occurrences x p = 0).
    { clear Hks. induction p as [|y p IH]; simpl; [reflexivity|].
      rewrite bool_decide_eq_false_2 by (intros ->; apply Hp; left; reflexivity).
      rewrite IH; [reflexivity|]. intros H. apply Hp. right. exact H. }
    do 2 f_equal. lia.
Qed.

Lemma keys_inv_present p ks x : keys_inv p ks -> In x ks -> keys_inv (p ++ [x]) ks.
Proof.
  intros (Hnd & Hin & Hord) Hx. split; [exact Hnd|]. split.
  - intros k. rewrite Hin, in_app_iff. simpl. split; [tauto|].
    intros [H|[<-|[]]]; [exact H|]. apply Hin, Hx.
  - intros i j a b Ha Hb Hij.
    rewrite !first_index_app_l; [eapply Hord; eauto| |];
      apply Hin, list_elem_of_In; eapply list_elem_of_lookup_2; eauto.
Qed.

Lemma keys_inv_absent p ks x :
  keys_inv p ks -> ~ In x ks -> keys_inv (p ++ [x]) (ks ++ [x]).
Proof.
  intros (Hnd & Hin & Hord) Hx.
  assert (Hxp : ~ In x p) by (rewrite <- Hin; exact Hx).
  split; [|split].
  - apply NoDup_ListNoDup, NoDup_app. split; [apply NoDup_ListNoDup, Hnd|].
    split; [|apply NoDup_singleton].
    intros k Hk Hk'. apply list_elem_of_singleton in Hk'. subst k.
    apply Hx, list_elem_of_In, Hk.
  - intros k. rewrite !in_app_iff, Hin. reflexivity.
  - intros i j a b Ha Hb Hij.
    assert (Hi : (i < length ks)%nat).
    { apply lookup_lt_Some in Hb. rewrite length_app in Hb. simpl in Hb. lia. }
    rewrite lookup_app_l in Ha by exact Hi.
    assert (Hap : In a p).
    { apply Hin, list_elem_of_In. eapply list_elem_of_lookup_2; eauto. }
    rewrite (first_index_app_l a) by exact Hap.
    destruct (decide (j < length ks)%nat) as [Hj|Hj].
    + rewrite lookup_app_l in Hb by exact Hj.
      rewrite first_index_app_l; [eapply Hord; eauto|].
      apply Hin, list_elem_of_In. eapply list_elem_of_lookup_2; eauto.
    + rewrite lookup_app_r in Hb by lia.
      apply list_lookup_singleton_Some in Hb as (_ & <-).
      rewrite first_index_app_r by exact Hxp.
      pose proof (first_index_lt a p Hap). lia.
Qed.

Lemma Counter_fold (l p ks : list rgb) :
  keys_inv p ks ->
  exists ks', fold_left counter_add l (items_of p ks) = items_of (p ++ l) ks' /\
    keys_inv (p ++ l) ks'.
Proof.
  revert p ks. induction l as [|x l IH]; intros p ks Hinv.
  - exists ks. rewrite app_nil_r. auto.
  - cbn [fold_left]. replace (p ++ x :: l) with ((p ++ [x]) ++ l)
      by (rewrite <- app_assoc; reflexivity).
    destruct (in_dec (decide_rel (=)) x ks) as [Hin|Hin].
    + rewrite (counter_add_present p ks x (proj1 Hinv) Hin).
      apply IH, keys_inv_present; assumption.
    + rewrite counter_add_absent; [|exact Hin|].
      * apply IH, keys_inv_absent; assumption.
      * destruct Hinv as (_ & Hk & _). rewrite <- Hk. exact Hin.
Qed.

(** The Counter of the samples: one item per distinct colour, in order of
    first appearance, with its number of occurrences. *)
Lemma Counter_items (l : list rgb) :
  exists ks, Counter l = items_of l ks /\ keys_inv l ks.
Proof.
  destruct (Counter_fold l [] []) as (ks & E & Hinv).
  - split; [constructor|]. split; [tauto|]. intros i j a b Ha. discriminate.
  - exists ks. auto.
Qed.

(** The stable descending sort behind [most_common]. *)
Lemma insert_desc_perm x l : insert_desc x l ≡ₚ x :: l.
Proof.
  induction l as [|y l IH]; simpl; [reflexivity|].
  destruct (snd y >? snd x); [|reflexivity].
  rewrite IH. apply Permutation_swap.
Qed.

Lemma sort_desc_perm l : sort_desc l ≡ₚ l.
Proof.
  induction l as [|x l IH]; simpl; [reflexivity|].
  rewrite insert_desc_perm, IH. reflexivity.
Qed.

Lemma insert_desc_sorted (l0 : list rgb) x l :
  (forall y, In y l -> snd y <= snd x -> item_before l0 x y) ->
  StronglySorted (item_before l0) l ->
  StronglySorted (item_before l0) (insert_desc x l).
Proof.
  intros Hx Hs. induction Hs as [|y l Hs IH Hy]; simpl.
  - repeat constructor.
  - destruct (Z.gtb_spec (snd y) (snd x)) as [Hgt|Hle].
    + constructor.
      * apply IH. intros u Hu. apply Hx. right. exact Hu.
      * rewrite insert_desc_perm. constructor; [left; lia|exact Hy].
    + constructor; [constructor; assumption|].
      constructor; [apply Hx; [left; reflexivity|exact Hle]|].
      rewrite List.Forall_forall in Hy |- *. intros u Hu.
      apply Hx; [right; exact Hu|].
      destruct (Hy u Hu) as [H|[H _]]; lia.
Qed.

Lemma sort_desc_sorted (l0 : list rgb) (c : list (rgb * Z)) :
  (forall i j a b, c !! i = Some a -> c !! j = Some b -> (i < j)%nat ->
     (first_index (fst a) l0 < first_index (fst b) l0)%nat) ->
  StronglySorted (item_before l0) (sort_desc c).
Proof.
  induction c as [|x c IH]; intros Hord; simpl; [constructor|].
  apply insert_desc_sorted.
  - intros y Hy Hle. apply list_elem_of_In in Hy. rewrite sort_desc_perm in Hy.
    apply list_elem_of_lookup_1 in Hy as (j & Hj).
    destruct (decide (snd x > snd y)) as [Hgt|Hngt]; [left; exact Hgt|].
    right. split; [lia|]. apply (Hord O (S j)); [reflexivity|exact Hj|lia].
  - apply IH. intros i j a b Ha Hb Hij. apply (Hord (S i) (S j)); auto. lia.
Qed.

Lemma StronglySorted_lookup {A} (R : A -> A -> Prop) (l : list A) i j a b :
  StronglySorted R l -> l !! i = Some a -> l !! j = Some b -> (i < j)%nat -> R a b.
Proof.
  intros Hs. revert i j. induction Hs as [|x l Hs IH Hx]; intros i j Ha Hb Hij.
  - discriminate.
  - destruct j as [|j]; [lia|]. cbn in Hb. destruct i as [|i]; cbn in Ha.
    + injection Ha as ->. rewrite List.Forall_forall in Hx. apply Hx.
      apply list_elem_of_In. eapply list_elem_of_lookup_2. exact Hb.
    + apply (IH i j); auto. lia.
Qed.

Lemma select_seeds_spec (colors : list rgb) (K : Z) :
  let seeds := select_seeds colors K in
  length seeds = Nat.min (Z.to_nat K) (length (remove_dups colors)) /\
  (forall s, In s seeds -> In s colors) /\
  (forall i j s t, seeds !! i = Some s -> seeds !! j = Some t -> (i < j)%nat ->
     ranks_before colors s t) /\
  (forall s c, In s seeds -> In c colors -> ~ In c seeds -> ranks_before colors s c).
Proof.
  cbv zeta. unfold select_seeds, most_common.
  destruct (Counter_items colors) as (ks & -> & Hnd & Hin & Hord).
  set (c := items_of colors ks). set (S := sort_desc c).
  assert (Hperm : S ≡ₚ c) by apply sort_desc_perm.
  assert (Hitem : forall a, a ∈ S -> snd a = occurrences (fst a) colors /\ In (fst a) colors).
  { intros a Ha. rewrite Hperm in Ha. unfold c, items_of in Ha.
    apply list_elem_of_fmap in Ha as (k & -> & Hk). cbn. split; [reflexivity|].
    apply Hin, list_elem_of_In, Hk. }
  assert (Hsorted : StronglySorted (item_before colors) S).
  { apply sort_desc_sorted. intros i j a b Ha Hb Hij.
    apply (Hord i j); [| |exact Hij].
    - rewrite <- (items_of_keys colors ks). fold c. rewrite list_lookup_fmap, Ha. reflexivity.
    - rewrite <- (items_of_keys colors ks). fold c. rewrite list_lookup_fmap, Hb. reflexivity. }
  assert (Hrank : forall a b, a ∈ S -> b ∈ S -> item_before colors a b ->
            ranks_before colors (fst a) (fst b)).
  { intros a b Ha Hb. destruct (Hitem a Ha) as (Ea & _), (Hitem b Hb) as (Eb & _).
    unfold item_before, ranks_before. rewrite Ea, Eb. tauto. }
  split; [|split; [|split]].
  - rewrite length_fmap, length_take. f_equal.
    rewrite (Permutation_length Hperm). unfold c, items_of. rewrite length_fmap.
    apply Permutation_length, NoDup_Permutation.
    + apply NoDup_ListNoDup, Hnd.
    + apply NoDup_remove_dups.
    + intros k. rewrite elem_of_remove_dups, !list_elem_of_In. apply Hin.
  - intros s Hs. apply list_elem_of_In, list_elem_of_fmap in Hs as (a & -> & Ha).
    apply Hitem. apply elem_of_take in Ha as (i & Ei & _).
    eapply list_elem_of_lookup_2. exact Ei.
  - intros i j s t Hs Ht Hij.
    rewrite list_lookup_fmap in Hs, Ht.
    destruct (take _ S !! i) as [a|] eqn:Ea; [|discriminate].
    destruct (take _ S !! j) as [b|] eqn:Eb; [|discriminate].
    injection Hs as <-. injection Ht as <-.
    apply lookup_take_Some in Ea as (Ea & _). apply lookup_take_Some in Eb as (Eb & _).
    apply Hrank; [eapply list_elem_of_lookup_2; eauto..|].
    eapply StronglySorted_lookup; eauto.
  - intros s d Hs Hd Hnot.
    apply list_elem_of_In, list_elem_of_fmap in Hs as (a & -> & Ha).
    apply list_elem_of_lookup_1 in Ha as (i & Ea).
    apply lookup_take_Some in Ea as (Ea & Hi).
    assert (Hd' : (d, occurrences d colors) ∈ S).
    { rewrite Hperm. unfold c, items_of. apply list_elem_of_fmap.
      exists d. split; [reflexivity|]. apply list_elem_of_In, Hin, Hd. }
    apply list_elem_of_lookup_1 in Hd' as (j & Eb).
    assert (Hj : ~ (j < Z.to_nat K)%nat).
    { intros Hj. apply Hnot. apply list_elem_of_In, list_elem_of_fmap.
      exists (d, occurrences d colors). split; [reflexivity|].
      eapply list_elem_of_lookup_2. apply lookup_take_Some. eauto. }
    apply (Hrank a (d, occurrences d colors));
      [eapply list_elem_of_lookup_2; eauto..|].
    eapply StronglySorted_lookup; eauto. lia.
Qed.

(** ** Border samples *)

Lemma ceil_succ (n step : Z) :
  0 <= n -> 0 < step ->
  (n + 1 + step - 1) / step =
    (n + step - 1) / step + (if decide (n mod step = 0) then 1 else 0) /\
  (n mod step = 0 -> (n + step - 1) / step * step = n) /\
  0 <= (n + step - 1) / step.
Proof.
  intros Hn Hs. pose proof (Z.div_mod n step ltac:(lia)) as Hdm.
  pose proof (Z.mod_pos_bound n step Hs) as Hm.
  pose proof (Z.div_pos n step Hn Hs) as Hq.
  destruct (decide (n mod step = 0)) as [H0|H0].
  - assert (E1 : (n + step - 1) / step = n / step).
    { symmetry. apply (Z.div_unique _ _ _ (step - 1)); lia. }
    assert (E2 : (n + 1 + step - 1) / step = n / step + 1).
    { symmetry. apply (Z.div_unique _ _ _ 0); lia. }
    rewrite E1, E2. repeat split; lia.
  - assert (E1 : (n + step - 1) / step = n / step + 1).
    { symmetry. apply (Z.div_unique _ _ _ (n mod step - 1)); lia. }
    assert (E2 : (n + 1 + step - 1) / step = n / step + 1).
    { symmetry. apply (Z.div_unique _ _ _ (n mod step)); lia. }
    rewrite E1, E2. repeat split; lia.
Qed.

Lemma range_step_every_nth (n step : Z) :
  0 < step -> range_step n step = Ok (every_nth step n).
Proof.
  intros Hs. unfold range_step.
  destruct (Z.eqb_spec step 0); [lia|]. destruct (Z.ltb_spec 0 step); [|lia].
  f_equal. unfold every_nth.
  destruct (Z.le_gt_cases 0 n) as [Hn|Hn].
  - pattern n. apply natlike_ind; [| |exact Hn]; clear n Hn.
    + replace ((0 + step - 1) / step) with 0; [reflexivity|].
      symmetry. apply Z.div_small. lia.
    + intros n Hn IH. replace (Z.succ n) with (n + 1) by lia.
      destruct (ceil_succ n step Hn Hs) as (E & Hmul & Hc).
      rewrite (seqZ_app 0 n 1), filter_app by lia.
      rewrite <- IH, E.
      rewrite (seqZ_cons (0 + n) 1), (seqZ_nil (Z.succ (0 + n))) by lia.
      replace (0 + n) with n by lia.
      rewrite filter_cons, filter_nil.
      destruct (decide (n mod step = 0)) as [H0|H0].
      * rewrite (seqZ_app 0 _ 1), fmap_app by lia.
        rewrite (seqZ_cons _ 1), (seqZ_nil _ (Z.pred 1)) by lia.
        cbn [fmap list_fmap].
        replace (0 + (n + step - 1) / step) with ((n + step - 1) / step) by lia.
        rewrite (Hmul H0). reflexivity.
      * rewrite Z.add_0_r, app_nil_r. reflexivity.
  - rewrite !seqZ_nil; [reflexivity|lia|].
    apply Z.lt_succ_r, Z.div_lt_upper_bound; lia.
Qed.

Lemma elem_of_every_nth step n x :
  x ∈ every_nth step n <-> 0 <= x < n /\ x mod step = 0.
Proof.
  unfold every_nth. rewrite list_elem_of_filter, elem_of_seqZ. intuition lia.
Qed.

Lemma get_rgb_in_grid rgba w h x y :
  len rgba = w * h * 4 -> 0 <= x < w -> 0 <= y < h ->
  get_rgb rgba w x y = Ok (pixel_rgb rgba w x y).
Proof.
  intros Hlen Hx Hy. unfold get_rgb, pixel_rgb. cbv zeta.
  assert (0 <= y * w + x < w * h) by nia.
  rewrite !py_index_at by lia. reflexivity.
Qed.

Lemma sample_columns_loop rgba w h (l : list Z) acc :
  len rgba = w * h * 4 -> 0 < h -> (forall x, In x l -> 0 <= x < w) ->
  for_each l (sample_columns rgba w h) acc =
    Ok (acc ++ (l ≫= fun x => [pixel_rgb rgba w x 0; pixel_rgb rgba w x (h - 1)])).
Proof.
  intros Hlen Hh. revert acc. induction l as [|x l IH]; intros acc Hl.
  - cbn. rewrite app_nil_r. reflexivity.
  - cbn [for_each]. unfold sample_columns at 1.
    rewrite !(get_rgb_in_grid rgba w h) by (try apply Hl; try lia; left; reflexivity).
    cbn [bind]. rewrite IH by (intros; apply Hl; right; assumption).
    rewrite <- app_assoc. reflexivity.
Qed.

Lemma sample_rows_loop rgba w h (l : list Z) acc :
  len rgba = w * h * 4 -> 0 < w -> (forall y, In y l -> 0 <= y < h) ->
  for_each l (sample_rows rgba w h) acc =
    Ok (acc ++ (l ≫= fun y => [pixel_rgb rgba w 0 y; pixel_rgb rgba w (w - 1) y])).
Proof.
  intros Hlen Hw. revert acc. induction l as [|y l IH]; intros acc Hl.
  - cbn. rewrite app_nil_r. reflexivity.
  - cbn [for_each]. unfold sample_rows at 1.
    rewrite !(get_rgb_in_grid rgba w h) by (try apply Hl; try lia; left; reflexivity).
    cbn [bind]. rewrite IH by (intros; apply Hl; right; assumption).
    rewrite <- app_assoc. reflexivity.
Qed.

Lemma sample_border_colors_ok (img : PngImage) (step : Z) :
  len (rgba img) = width img * height img * 4 ->
  0 < width img -> 0 < height img -> 0 < step ->
  _sample_border_colors img step = Ok (border_scan img step).
Proof.
  intros Hlen Hw Hh Hs. unfold _sample_border_colors, border_scan. cbv zeta.
  rewrite !range_step_every_nth by exact Hs. cbn [bind].
  rewrite (sample_columns_loop _ _ _ _ _ Hlen Hh).
  - cbn [bind app]. apply (sample_rows_loop _ _ _ _ _ Hlen Hw).
    intros y Hy. apply list_elem_of_In, elem_of_every_nth in Hy. lia.
  - intros x Hx. apply list_elem_of_In, elem_of_every_nth in Hx. lia.
Qed.

(** ** Flood fill: the border-connected background *)

Lemma count_zero_insert (v : list Z) (i : Z) :
  0 <= i < len v -> at_ v i = 0 ->
  (count_zero (<[Z.to_nat i := 1%Z]> v) + 1 = count_zero v)%nat.
Proof.
  intros Hi H0. unfold len in Hi.
  destruct (lookup_lt_is_Some_2 v (Z.to_nat i) ltac:(lia)) as (b & Eb).
  assert (b = 0) by (rewrite <- H0; symmetry; apply at_lookup; [lia|exact Eb]).
  subst b. unfold count_zero.
  rewrite insert_take_drop by lia.
  rewrite <- (take_drop_middle v _ _ Eb) at 3.
  rewrite !filter_app, !filter_cons, !length_app.
  rewrite decide_False by lia. rewrite decide_True by reflexivity.
  cbn [length]. lia.
Qed.

Lemma count_zero_replicate n : count_zero (replicate n 0) = n.
Proof.
  unfold count_zero. induction n as [|n IH]; [reflexivity|].
  cbn [replicate]. rewrite filter_cons, decide_True by reflexivity.
  cbn [length]. rewrite IH. reflexivity.
Qed.

Section FloodFill.
Variables (w h : Z).
Hypothesis (Hw : 0 < w) (Hh : 0 < h).

Lemma idx_range p : in_grid w h p -> 0 <= idx w p < w * h.
Proof. unfold in_grid, idx. intros (Hx & Hy). nia. Qed.

Lemma idx_inj p q : in_grid w h p -> in_grid w h q -> idx w p = idx w q -> p = q.
Proof.
  destruct p as [x y], q as [x' y']. unfold in_grid, idx. cbn [fst snd].
  intros (Hx & Hy) (Hx' & Hy') E.
  assert (y = y') by nia. subst y'. f_equal. lia.
Qed.

Lemma pushed_none st : pushed w h (fun _ => False) st st.
Proof. unfold pushed. repeat split; auto; tauto. Qed.

Lemma pushed_iff (S S' : Z * Z -> Prop) st st' :
  (forall p, S p <-> S' p) -> pushed w h S st st' -> pushed w h S' st st'.
Proof.
  intros HS (H1 & H2 & H3 & H4 & H5 & H6 & H7). unfold pushed.
  repeat split; auto.
  - intros p Hp. apply H3, HS, Hp.
  - intros p Hg Hv. destruct (H4 p Hg Hv) as [|(Hs & Hq)]; [auto|].
    right. split; [apply HS, Hs|exact Hq].
  - intros p Hp. destruct (H6 p Hp); [auto|]. right. apply HS. assumption.
Qed.

Lemma pushed_trans (S1 S2 : Z * Z -> Prop) st st1 st2 :
  pushed w h S1 st st1 -> pushed w h S2 st1 st2 -> pushed w h (fun p => S1 p \/ S2 p) st st2.
Proof.
  intros (A1 & A2 & A3 & A4 & A5 & A6 & A7) (B1 & B2 & B3 & B4 & B5 & B6 & B7).
  unfold pushed. repeat split.
  - congruence.
  - auto.
  - intros p [Hp|Hp]; [apply B2, A3, Hp|apply B3, Hp].
  - intros p Hg Hv. destruct (B4 p Hg Hv) as [Hv1|(Hs & Hq)]; [|tauto].
    destruct (A4 p Hg Hv1) as [|(Hs & Hq)]; [auto|]. right. split; [tauto|auto].
  - auto.
  - intros p Hp. destruct (B6 p Hp) as [Hp1|]; [|tauto].
    destruct (A6 p Hp1); tauto.
  - lia.
Qed.

Lemma push_ok (x y : Z) (st : list Z * list (Z * Z)) :
  in_grid w h (x, y) -> len (fst st) = w * h ->
  exists st', push w x y st = Ok st' /\ pushed w h (fun p => p = (x, y)) st st'.
Proof.
  destruct st as [v q]. cbn [fst]. intros Hg Hlen.
  pose proof (idx_range _ Hg) as Hi. unfold idx in Hi. cbn [fst snd] in Hi.
  unfold push. rewrite py_index_at by lia. cbn [bind].
  destruct (Z.eqb_spec (at_ v (y * w + x)) 0) as [E0|E0]; cbn [negb].
  - rewrite py_setitem_in_range by lia. cbn [bind].
    eexists. split; [reflexivity|]. unfold pushed. cbn [fst snd].
    repeat split.
    + apply len_insert.
    + intros j Hj. rewrite at_insert by lia. destruct (decide _); [lia|exact Hj].
    + intros p ->. unfold vis, idx. cbn [fst snd].
      rewrite at_insert_eq by lia. lia.
    + intros p Hp Hv. unfold vis in *.
      destruct (decide (idx w p = y * w + x)) as [E|E].
      * right. assert (p = (x, y)) by (apply idx_inj; auto).
        subst p. split; [reflexivity|left; reflexivity].
      * left. rewrite at_insert_ne in Hv by lia. exact Hv.
    + intros p Hp. right. exact Hp.
    + intros p [<-|Hp]; auto.
    + pose proof (count_zero_insert v (y * w + x) ltac:(lia) E0). cbn [length]. lia.
  - exists (v, q). split; [reflexivity|]. unfold pushed. cbn [fst snd].
    repeat split; auto.
    intros p ->. exact E0.
Qed.

(** A guarded push: [if c: push(x, y)]. *)
Lemma guarded_push_ok (c : bool) (x y : Z) (st : list Z * list (Z * Z)) :
  (c = true -> in_grid w h (x, y)) -> len (fst st) = w * h ->
  exists st', (if c then push w x y st else Ok st) = Ok st' /\
    pushed w h (fun p => c = true /\ p = (x, y)) st st'.
Proof.
  intros Hc Hlen. destruct c.
  - destruct (push_ok x y st (Hc eq_refl) Hlen) as (st' & E & HP).
    exists st'. split; [exact E|]. eapply pushed_iff; [|exact HP]. intros p. tauto.
  - exists st. split; [reflexivity|]. eapply pushed_iff; [|apply pushed_none].
    intros p. split; [tauto|]. intros (H & _). discriminate.
Qed.

Lemma pushed_len S st st' : pushed w h S st st' -> len (fst st') = len (fst st).
Proof. intros H. apply H. Qed.

Lemma push_neighbours_ok (x y : Z) (st : list Z * list (Z * Z)) :
  in_grid w h (x, y) -> len (fst st) = w * h ->
  exists st', push_neighbours w h x y st = Ok st' /\
    pushed w h (fun p => in_grid w h p /\ adjacent4 (x, y) p) st st'.
Proof.
  intros Hg Hlen. unfold in_grid in Hg. cbn [fst snd] in Hg.
  unfold push_neighbours.
  destruct (guarded_push_ok (x >? 0) (x - 1) y st) as (st1 & -> & P1); [|exact Hlen|].
  { intros H. apply Z.gtb_lt in H. unfold in_grid. cbn. lia. }
  cbn [bind]. pose proof (pushed_len _ _ _ P1) as L1.
  destruct (guarded_push_ok (x + 1 <? w) (x + 1) y st1) as (st2 & -> & P2); [|lia|].
  { intros H. apply Z.ltb_lt in H. unfold in_grid. cbn. lia. }
  cbn [bind]. pose proof (pushed_len _ _ _ P2) as L2.
  destruct (guarded_push_ok (y >? 0) x (y - 1) st2) as (st3 & -> & P3); [|lia|].
  { intros H. apply Z.gtb_lt in H. unfold in_grid. cbn. lia. }
  cbn [bind]. pose proof (pushed_len _ _ _ P3) as L3.
  destruct (guarded_push_ok (y + 1 <? h) x (y + 1) st3) as (st4 & -> & P4); [|lia|].
  { intros H. apply Z.ltb_lt in H. unfold in_grid. cbn. lia. }
  exists st4. split; [reflexivity|].
  pose proof (pushed_trans _ _ _ _ _ P1 P2) as P12.
  pose proof (pushed_trans _ _ _ _ _ (pushed_trans _ _ _ _ _ P12 P3) P4) as HP.
  eapply pushed_iff; [|exact HP].
  intros [x' y']. unfold in_grid, adjacent4. cbn [fst snd].
  rewrite !Z.gtb_lt, !Z.ltb_lt. split.
  - intros [[[(H & [= -> ->])|(H & [= -> ->])]|(H & [= -> ->])]|(H & [= -> ->])]; lia.
  - intros (Hg' & [(-> & [->| ->])|(-> & [->| ->])]).
    + left. right. split; [lia|reflexivity].
    + right. split; [lia|reflexivity].
    + left. left. left. split; [lia|reflexivity].
    + left. left. right. split; [lia|reflexivity].
Qed.

(** A loop that pushes two pixels per index (the two seeding loops). *)
Lemma push_pair_loop (a b : Z -> Z * Z) (n : Z)
  (body : Z -> list Z * list (Z * Z) -> result (list Z * list (Z * Z))) st0 :
  (forall k st, body k st =
     do st1 <- push w (fst (a k)) (snd (a k)) st; push w (fst (b k)) (snd (b k)) st1) ->
  (forall k, 0 <= k < n -> in_grid w h (a k) /\ in_grid w h (b k)) ->
  0 <= n -> len (fst st0) = w * h ->
  exists st, for_each (range n) body st0 = Ok st /\
    pushed w h (fun p => exists k, 0 <= k < n /\ (p = a k \/ p = b k)) st0 st.
Proof.
  intros Hbody Hin Hn Hlen.
  apply (for_each_range_inv
           (fun k st =>
              pushed w h (fun p => exists k', 0 <= k' < k /\ (p = a k' \/ p = b k'))
                st0 st)).
  - exact Hn.
  - eapply pushed_iff; [|apply pushed_none]. intros p. split; [tauto|].
    intros (k & Hk & _). lia.
  - intros k st Hk HP. rewrite Hbody.
    destruct (Hin k Hk) as (Ha & Hb).
    pose proof (pushed_len _ _ _ HP) as L.
    destruct (a k) as [xa ya] eqn:Ea, (b k) as [xb yb] eqn:Eb. cbn [fst snd].
    destruct (push_ok xa ya st Ha ltac:(lia)) as (st1 & -> & P1). cbn [bind].
    pose proof (pushed_len _ _ _ P1) as L1.
    destruct (push_ok xb yb st1 Hb ltac:(lia)) as (st2 & -> & P2).
    exists st2. split; [reflexivity|].
    eapply pushed_iff; [|exact (pushed_trans _ _ _ _ _ HP (pushed_trans _ _ _ _ _ P1 P2))].
    intros p. split.
    + intros [(k' & Hk' & H)|[->| ->]].
      * exists k'. split; [lia|exact H].
      * exists k. split; [lia|]. left. congruence.
      * exists k. split; [lia|]. right. congruence.
    + intros (k' & Hk' & H). destruct (decide (k' = k)) as [->|Hne].
      * right. rewrite Ea, Eb in H. exact H.
      * left. exists k'. split; [lia|exact H].
Qed.

(** The two seeding loops push exactly the edge pixels. *)
Lemma seeding_ok (v0 : list Z) :
  len v0 = w * h ->
  exists st,
    (do st1 <- for_each (range w) (seed_columns w h) (v0, []);
     for_each (range h) (seed_rows w h) st1) = Ok st /\
    pushed w h (on_edge w h) (v0, []) st.
Proof.
  intros Hlen.
  destruct (push_pair_loop (fun x => (x, 0)) (fun x => (x, h - 1)) w
              (seed_columns w h) (v0, [])) as (st1 & -> & P1); try lia.
  { reflexivity. }
  { intros k Hk. unfold in_grid. cbn. lia. }
  { exact Hlen. }
  cbn [bind]. pose proof (pushed_len _ _ _ P1) as L1. cbn [fst] in L1.
  destruct (push_pair_loop (fun y => (0, y)) (fun y => (w - 1, y)) h
              (seed_rows w h) st1) as (st2 & -> & P2); try lia.
  { reflexivity. }
  { intros k Hk. unfold in_grid. cbn. lia. }
  exists st2. split; [reflexivity|].
  eapply pushed_iff; [|exact (pushed_trans _ _ _ _ _ P1 P2)].
  intros [x y]. unfold on_edge, in_grid. cbn [fst snd]. split.
  - intros [(k & Hk & [[= -> ->]|[= -> ->]])|(k & Hk & [[= -> ->]|[= -> ->]])]; lia.
  - intros (Hg & [->|[->|[->| ->]]]).
    + right. exists y. split; [lia|]. left. reflexivity.
    + right. exists y. split; [lia|]. right. reflexivity.
    + left. exists x. split; [lia|]. left. reflexivity.
    + left. exists x. split; [lia|]. right. reflexivity.
Qed.

Variables (seeds : list rgb) (tol_sq : Z) (rgba0 : list Z).
Hypothesis Hlen0 : len rgba0 = w * h * 4.

Let bg := background seeds tol_sq rgba0 w.
Let bc := border_connected seeds tol_sq rgba0 w h.

Lemma bc_bg p : bc p -> bg p.
Proof. intros H. destruct H; assumption. Qed.

Lemma candidate_bc p : in_grid w h p -> candidate w h seeds tol_sq rgba0 p -> bg p -> bc p.
Proof.
  intros Hg [He|(p' & Hp' & Hadj)] Hb.
  - apply bc_edge; assumption.
  - apply (bc_step _ _ _ _ _ p' p); assumption.
Qed.

Lemma alpha_index_mod p : alpha_index w p mod 4 = 3.
Proof. unfold alpha_index. Z.div_mod_to_equations. lia. Qed.

Lemma alpha_index_inj p q :
  in_grid w h p -> in_grid w h q -> alpha_index w p = alpha_index w q -> p = q.
Proof.
  intros Hp Hq E. apply idx_inj; auto. unfold alpha_index, idx in *. lia.
Qed.

Lemma fill_inv_start (v : list Z) (q : list (Z * Z)) :
  pushed w h (on_edge w h) (replicate (Z.to_nat (w * h)) 0, []) (v, q) ->
  fill_inv w h seeds tol_sq rgba0 rgba0 v q /\ (length q + count_zero v = Z.to_nat (w * h))%nat.
Proof.
  intros (A1 & A2 & A3 & A4 & A5 & A6 & A7). cbn [fst snd] in *.
  assert (Hnv : forall p, ~ vis w (replicate (Z.to_nat (w * h)) 0) p).
  { intros p Hv. apply Hv. apply at_replicate. }
  split.
  - unfold fill_inv. repeat split.
    + exact Hlen0.
    + rewrite A1. unfold len. rewrite length_replicate. nia.
    + destruct (A6 p H) as [[]|He]. apply He.
    + destruct (A6 p H) as [[]|He]. apply He.
    + destruct (A6 p H) as [[]|He]. apply He.
    + destruct (A6 p H) as [[]|He]. apply He.
    + destruct (A6 p H) as [[]|He]. apply A3, He.
    + intros p Hg Hv. destruct (A4 p Hg Hv) as [Hv0|(He & _)].
      * destruct (Hnv p Hv0).
      * left. exact He.
    + intros p He. apply A3, He.
    + intros p Hg Hv. destruct (A4 p Hg Hv) as [Hv0|(_ & Hq)].
      * destruct (Hnv p Hv0).
      * left. exact Hq.
    + intros p Hg. left. reflexivity.
  - rewrite count_zero_replicate in A7. cbn [length] in A7. lia.
Qed.

Lemma fill_loop_ok (budget : nat) :
  forall cur v q,
    fill_inv w h seeds tol_sq rgba0 cur v q -> (length q + count_zero v <= budget)%nat ->
    exists out v', fill_loop budget seeds tol_sq w h cur v q = Ok out /\
      fill_inv w h seeds tol_sq rgba0 out v' [].
Proof.
  induction budget as [|budget IH]; intros cur v q Hinv Hm.
  { destruct q as [|p q]; [|cbn [length] in Hm; lia].
    exists cur, v. split; [reflexivity|exact Hinv]. }
  destruct q as [|[x y] q].
  { exists cur, v. split; [reflexivity|exact Hinv]. }
  destruct Hinv as (L1 & L2 & HR & HQ & HV & HE & HD & HA).
  destruct (HQ (x, y) ltac:(left; reflexivity)) as (Hg & Hvis).
  pose proof (idx_range _ Hg) as Hi. unfold idx in Hi. cbn [fst snd] in Hi.
  cbn [fill_loop].
  rewrite !py_index_at by lia. cbn [bind].
  rewrite !HR by (Z.div_mod_to_equations; lia).
  change (at_ rgba0 ((y * w + x) * 4), at_ rgba0 ((y * w + x) * 4 + 1),
          at_ rgba0 ((y * w + x) * 4 + 2)) with (pixel_rgb rgba0 w x y).
  destruct (is_bg seeds tol_sq (pixel_rgb rgba0 w x y)) eqn:Ebg; cbn [negb].
  - (* background: clear alpha, push the neighbours *)
    assert (Hbg : bg (x, y)) by exact Ebg.
    assert (Hbc : bc (x, y)) by (apply candidate_bc; auto).
    rewrite py_setitem_in_range by lia. cbn [bind].
    destruct (push_neighbours_ok x y (v, q) Hg L2) as (st & -> & HP). cbn [bind].
    destruct HP as (A1 & A2 & A3 & A4 & A5 & A6 & A7). cbn [fst snd] in *.
    assert (Ealpha : (y * w + x) * 4 + 3 = alpha_index w (x, y)) by reflexivity.
    apply IH; [|cbn [length] in Hm; lia].
    unfold fill_inv. split; [rewrite len_insert; exact L1|].
    split; [lia|]. split; [|split; [|split; [|split; [|split]]]].
    + intros i Hi3. rewrite at_insert_ne; [apply HR, Hi3|lia|].
      intros ->. rewrite Ealpha, alpha_index_mod in Hi3. lia.
    + intros p Hp. destruct (A6 p Hp) as [Hq|(Hgp & Hadj)].
      * destruct (HQ p ltac:(right; exact Hq)) as (Hgp & Hvp).
        split; [exact Hgp|]. apply A2, Hvp.
      * split; [exact Hgp|]. apply A3. auto.
    + intros p Hgp Hvp. destruct (A4 p Hgp Hvp) as [Hv0|((_ & Hadj) & _)].
      * apply HV; assumption.
      * right. exists (x, y). auto.
    + intros p He. apply A2, HE, He.
    + intros p Hgp Hvp.
      assert (Hsettle :
        settled w h seeds tol_sq rgba0 cur v p ->
        settled w h seeds tol_sq rgba0
          (<[Z.to_nat ((y * w + x) * 4 + 3) := 0]> cur) (fst st) p).
      { intros Hs Hb. destruct (Hs Hb) as (Hz & Hn). split.
        - rewrite at_insert by lia. destruct (decide _); [reflexivity|exact Hz].
        - intros p' Hg' Hadj. apply A2, Hn; assumption. }
      destruct (A4 p Hgp Hvp) as [Hv0|(_ & Hq)]; [|left; exact Hq].
      destruct (HD p Hgp Hv0) as [[<-|Hq]|Hs].
      * right. intros _. split.
        -- rewrite Ealpha. apply at_insert_eq. rewrite <- Ealpha. lia.
        -- intros p' Hg' Hadj. apply A3. auto.
      * left. apply A5, Hq.
      * right. apply Hsettle, Hs.
    + intros p Hgp. rewrite at_insert by lia.
      destruct (decide (alpha_index w p = (y * w + x) * 4 + 3)) as [E|E].
      * right. split; [reflexivity|].
        rewrite Ealpha in E. apply alpha_index_inj in E; auto. subst p. exact Hbc.
      * apply HA, Hgp.
  - (* not background: left as it is, nothing pushed *)
    apply IH; [|cbn [length] in Hm; lia].
    unfold fill_inv. repeat split; auto.
    + apply HQ. right. assumption.
    + apply HQ. right. assumption.
    + apply HQ. right. assumption.
    + apply HQ. right. assumption.
    + apply HQ. right. assumption.
    + intros p Hgp Hvp. destruct (HD p Hgp Hvp) as [[<-|Hq]|Hs]; auto.
      right. intros Hb. unfold bg, background in Hb. cbn [fst snd] in Hb. congruence.
Qed.

Lemma fill_inv_final (out v : list Z) :
  fill_inv w h seeds tol_sq rgba0 out v [] -> fill_result w h seeds tol_sq rgba0 out.
Proof.
  intros (L1 & L2 & HR & HQ & HV & HE & HD & HA).
  assert (Hall : forall p, bc p ->
            in_grid w h p /\ vis w v p /\ settled w h seeds tol_sq rgba0 out v p).
  { intros p Hp. induction Hp as [p He Hb|p p' Hp IH Hadj Hg' Hb'].
    - pose proof (HE p He) as Hv. destruct He as (Hg & _).
      destruct (HD p Hg Hv) as [[]|Hs]. auto.
    - destruct IH as (Hg & Hv & Hs).
      destruct (Hs (bc_bg _ Hp)) as (_ & Hn).
      pose proof (Hn p' Hg' Hadj) as Hv'.
      destruct (HD p' Hg' Hv') as [[]|Hs']. auto. }
  split; [lia|]. split; [exact HR|].
  intros p Hg. split.
  - intros Hp. destruct (Hall p Hp) as (_ & _ & Hs). apply Hs, bc_bg, Hp.
  - intros Hp. destruct (HA p Hg) as [E|(_ & Hbc)]; [exact E|tauto].
Qed.

(** Seeding and the loop together, for a buffer [rgba0] of a [w] x [h] image. *)
Lemma fill_ok :
  exists st out,
    (do st1 <- for_each (range w) (seed_columns w h) (replicate (Z.to_nat (w * h)) 0, []);
     for_each (range h) (seed_rows w h) st1) = Ok st /\
    fill_loop (Z.to_nat (w * h)) seeds tol_sq w h rgba0 (fst st) (snd st) = Ok out /\
    fill_result w h seeds tol_sq rgba0 out.
Proof.
  destruct (seeding_ok (replicate (Z.to_nat (w * h)) 0)) as ([v q] & E & HP).
  { unfold len. rewrite length_replicate. nia. }
  destruct (fill_inv_start v q HP) as (Hinv & Hm).
  destruct (fill_loop_ok (Z.to_nat (w * h)) rgba0 v q Hinv ltac:(lia)) as (out & v' & E' & Hfin).
  exists (v, q), out. split; [exact E|]. split; [exact E'|].
  eapply fill_inv_final, Hfin.
Qed.

End FloodFill.

(** ** Frame of the fill: whatever the state, only alpha bytes change *)

Lemma fill_loop_frame (budget : nat) seeds tol_sq w h :
  forall cur v q out,
    (4 | len cur) -> is_bytes cur ->
    fill_loop budget seeds tol_sq w h cur v q = Ok out ->
    len out = len cur /\ is_bytes out /\
    (forall i, i mod 4 <> 3 -> at_ out i = at_ cur i) /\
    (forall i, at_ out i = at_ cur i \/ at_ out i = 0).
Proof.
  induction budget as [|budget IH]; intros cur v q out H4 Hb H.
  { destruct q as [|[x y] q]; [|discriminate]. injection H as <-. auto. }
  destruct q as [|[x y] q]; [injection H as <-; auto|].
  cbn [fill_loop] in H.
  apply bind_Ok in H as (r & _ & H). apply bind_Ok in H as (g & _ & H).
  apply bind_Ok in H as (b & _ & H).
  destruct (negb _); [eapply IH; eauto|].
  apply bind_Ok in H as (cur' & Hset & H). apply bind_Ok in H as (st & _ & H).
  unfold py_setitem in Hset.
  set (j := if (y * w + x) * 4 + 3 <? 0 then (y * w + x) * 4 + 3 + len cur
            else (y * w + x) * 4 + 3) in Hset.
  destruct (Z.leb_spec 0 j); [|discriminate].
  destruct (Z.ltb_spec j (len cur)); [|discriminate].
  cbn [andb] in Hset. injection Hset as <-.
  assert (Hj : j mod 4 = 3).
  { destruct H4 as (m & Hm). unfold j. destruct (_ <? 0); Z.div_mod_to_equations; lia. }
  apply IH in H as (E1 & E2 & E3 & E4).
  - rewrite len_insert in E1. split; [exact E1|]. split; [exact E2|]. split.
    + intros i Hi. rewrite E3 by exact Hi. apply at_insert_ne; [lia|]. congruence.
    + intros i. destruct (E4 i) as [E|E]; [|auto]. rewrite E, at_insert by lia.
      destruct (decide (i = j)); auto.
  - rewrite len_insert. exact H4.
  - apply Forall_insert; [exact Hb|lia].
Qed.

Lemma floodfill_frame (img : PngImage) (tolerance K : Z) (r : returned) :
  image_ok img ->
  background_to_alpha_floodfill img tolerance K = Ok r ->
  let out := image_of img r in
  width out = width img /\ height out = height img /\
  len (rgba out) = len (rgba img) /\ is_bytes (rgba out) /\
  (forall i, i mod 4 <> 3 -> at_ (rgba out) i = at_ (rgba img) i) /\
  (forall i, at_ (rgba out) i = at_ (rgba img) i \/ at_ (rgba out) i = 0).
Proof.
  intros (Hlen & Hb) H. cbv zeta. unfold background_to_alpha_floodfill in H.
  cbv zeta in H. apply bind_Ok in H as (colors & _ & H).
  destruct (fst <$> most_common K (Counter colors)) as [|s seeds].
  { injection H as <-. cbn [image_of]. auto 10. }
  apply bind_Ok in H as (visited & _ & H). apply bind_Ok in H as (st1 & _ & H).
  apply bind_Ok in H as (st2 & _ & H). apply bind_Ok in H as (out & Hfill & H).
  injection H as <-. cbn [image_of width height rgba].
  apply fill_loop_frame in Hfill; [|exists (width img * height img); lia|exact Hb].
  tauto.
Qed.

Lemma select_seeds_nil (colors : list rgb) (K : Z) :
  select_seeds colors K = [] <-> K <= 0 \/ colors = [].
Proof.
  destruct (select_seeds_spec colors K) as (Hl & _).
  split.
  - intros E. rewrite E in Hl. cbn [length] in Hl.
    destruct (decide (K <= 0)) as [|HK]; [auto|]. right.
    destruct colors as [|c colors]; [reflexivity|].
    assert (c ∈ remove_dups (c :: colors)) as Hc.
    { apply elem_of_remove_dups. left. }
    destruct (remove_dups (c :: colors)); [inversion Hc|]. cbn [length] in Hl. lia.
  - intros [HK| ->]; apply length_zero_iff_nil; rewrite Hl.
    + replace (Z.to_nat K) with O by lia. reflexivity.
    + cbn. lia.
Qed.

Lemma border_scan_nonempty (img : PngImage) :
  0 < width img -> border_scan img 16 <> [].
Proof.
  intros Hw. unfold border_scan. cbv zeta.
  assert (0 ∈ every_nth 16 (width img)) as H0.
  { apply elem_of_every_nth. split; [lia|reflexivity]. }
  destruct (every_nth 16 (width img)) as [|x l]; [inversion H0|].
  cbn. discriminate.
Qed.

(** * The properties of the specification *)

(** ** Scanline reconstruction *)

(** C2. For a stream of at least [height * (1 + width * bpp)] bytes whose
    filter bytes are all in 0..4, reconstruction succeeds, and every
    output byte is the table entry of its row's filter applied to the
    filtered byte [f] and the already reconstructed neighbours: left [a]
    (0 in the first [bpp] columns), up [b] (0 in row 0) and up-left [c]
    (0 in both cases); filter 0 gives [f], 1 gives [(f + a) mod 256], 2
    gives [(f + b) mod 256], 3 gives [(f + (a + b) / 2) mod 256], 4 gives
    [(f + Paeth a b c) mod 256]. *)
Theorem unfilter_scanlines_reconstructs (raw : list Z) (w h bpp : Z) :
  0 <= w -> 0 <= h -> 0 < bpp ->
  h * (1 + w * bpp) <= len raw ->
  (forall y, 0 <= y < h -> 0 <= at_ raw (y * (1 + w * bpp)) <= 4) ->
  exists out, _unfilter_scanlines raw w h bpp = Ok out /\
    len out = h * (w * bpp) /\
    forall y x, 0 <= y < h -> 0 <= x < w * bpp ->
      let f := at_ raw (y * (1 + w * bpp) + 1 + x) in
      let a := if decide (x < bpp) then 0 else at_ out (y * (w * bpp) + x - bpp) in
      let b := if decide (y = 0) then 0 else at_ out ((y - 1) * (w * bpp) + x) in
      let c := if decide (y = 0 \/ x < bpp) then 0
               else at_ out ((y - 1) * (w * bpp) + x - bpp) in
      at_ out (y * (w * bpp) + x) = spec_recon (at_ raw (y * (1 + w * bpp))) f a b c.
Proof.
  intros Hw Hh Hbpp Hraw Hf.
  destruct (unfilter_scanlines_ok raw w h bpp Hw Hh Hbpp Hraw Hf) as (out & E & L & Hrows).
  exists out. split; [exact E|]. split; [exact L|].
  intros y x Hy Hx. cbv zeta. apply (Hrows y Hy x Hx).
Qed.

Lemma unfilter_scanlines_reconstructs_witness :
  exists out,
    _unfilter_scanlines [1; 10; 20; 30; 40; 4; 1; 2; 3; 4] 2 2 2 = Ok out /\
    len out = 2 * (2 * 2) /\
    forall y x, 0 <= y < 2 -> 0 <= x < 2 * 2 ->
      let f := at_ [1; 10; 20; 30; 40; 4; 1; 2; 3; 4] (y * (1 + 2 * 2) + 1 + x) in
      let a := if decide (x < 2) then 0 else at_ out (y * (2 * 2) + x - 2) in
      let b := if decide (y = 0) then 0 else at_ out ((y - 1) * (2 * 2) + x) in
      let c := if decide (y = 0 \/ x < 2) then 0
               else at_ out ((y - 1) * (2 * 2) + x - 2) in
      at_ out (y * (2 * 2) + x) =
        spec_recon (at_ [1; 10; 20; 30; 40; 4; 1; 2; 3; 4] (y * (1 + 2 * 2))) f a b c.
Proof.
  apply (unfilter_scanlines_reconstructs [1; 10; 20; 30; 40; 4; 1; 2; 3; 4] 2 2 2);
    [lia|lia|lia|vm_compute; discriminate|].
  intros y Hy. assert (Hc : y = 0 \/ y = 1) by lia.
  destruct Hc as [-> | ->]; vm_compute; split; discriminate.
Defined.

(** C10. Surplus bytes after the expected [height * (1 + width * bpp)] do
    not matter: reconstruction of a longer stream gives exactly what the
    stream cut to the expected length gives (so nothing is raised for the
    surplus and no output byte depends on it), and, the filter bytes being
    valid, it succeeds. *)
Theorem unfilter_scanlines_ignores_surplus (raw : list Z) (w h bpp : Z) :
  0 <= w -> 0 <= h -> 0 < bpp ->
  h * (1 + w * bpp) < len raw ->
  _unfilter_scanlines raw w h bpp =
    _unfilter_scanlines (take (Z.to_nat (h * (1 + w * bpp))) raw) w h bpp /\
  ((forall y, 0 <= y < h -> 0 <= at_ raw (y * (1 + w * bpp)) <= 4) ->
   exists out, _unfilter_scanlines raw w h bpp = Ok out /\ len out = h * (w * bpp)).
Proof.
  intros Hw Hh Hbpp Hraw. split.
  - symmetry. apply unfilter_scanlines_take; lia.
  - intros Hf.
    destruct (unfilter_scanlines_ok raw w h bpp) as (out & E & L & _); try lia; eauto.
Qed.

Lemma unfilter_scanlines_ignores_surplus_witness :
  _unfilter_scanlines [1; 10; 20; 2; 5; 7; 99; 98] 2 2 1 =
    _unfilter_scanlines (take (Z.to_nat (2 * (1 + 2 * 1))) [1; 10; 20; 2; 5; 7; 99; 98]) 2 2 1 /\
  ((forall y, 0 <= y < 2 -> 0 <= at_ [1; 10; 20; 2; 5; 7; 99; 98] (y * (1 + 2 * 1)) <= 4) ->
   exists out, _unfilter_scanlines [1; 10; 20; 2; 5; 7; 99; 98] 2 2 1 = Ok out /\
     len out = 2 * (2 * 1)).
Proof.
  apply (unfilter_scanlines_ignores_surplus [1; 10; 20; 2; 5; 7; 99; 98] 2 2 1);
    [lia|lia|lia|vm_compute; reflexivity].
Defined.

(** ** Background predicate *)

(** C6. A colour is background exactly when, for some seed, the sum of the
    squared channel differences is at most [tolerance * tolerance].  The
    bound is inclusive: a squared distance equal to it is background, and
    a colour whose squared distance to every seed is at least one more is
    not. *)
Theorem is_bg_inclusive (seeds : list rgb) (tolerance : Z) (c : rgb) :
  (is_bg seeds (tolerance * tolerance) c = true <->
   exists s, In s seeds /\ _color_dist_sq c s <= tolerance * tolerance) /\
  (forall s, In s seeds -> _color_dist_sq c s = tolerance * tolerance ->
     is_bg seeds (tolerance * tolerance) c = true) /\
  ((forall s, In s seeds -> _color_dist_sq c s >= tolerance * tolerance + 1) ->
   is_bg seeds (tolerance * tolerance) c = false).
Proof.
  assert (Hiff : is_bg seeds (tolerance * tolerance) c = true <->
            exists s, In s seeds /\ _color_dist_sq c s <= tolerance * tolerance).
  { unfold is_bg. rewrite existsb_exists. split; intros (s & Hs & H); exists s;
      (split; [exact Hs|]); [apply Z.leb_le, H|apply Z.leb_le, H]. }
  split; [exact Hiff|]. split.
  - intros s Hs E. apply Hiff. exists s. split; [exact Hs|lia].
  - intros Hfar. apply not_true_is_false. intros H.
    apply Hiff in H as (s & Hs & Hle). specialize (Hfar s Hs). lia.
Qed.

Lemma is_bg_inclusive_witness :
  is_bg [(0, 0, 0)] (28 * 28) (28, 0, 0) = true /\
  is_bg [(0, 0, 0)] (28 * 28) (28, 1, 0) = false.
Proof.
  split.
  - apply (proj1 (proj2 (is_bg_inclusive [(0, 0, 0)] 28 (28, 0, 0))) (0, 0, 0));
      [left; reflexivity|reflexivity].
  - apply (proj2 (proj2 (is_bg_inclusive [(0, 0, 0)] 28 (28, 1, 0)))).
    intros s [<-|[]]. vm_compute. discriminate.
Defined.

(** ** Rejected inputs *)

Section HeaderChecks.
Context {z : Zlib}.

(** The four header checks, in the order of the code, with their messages. *)
Lemma read_png_rejects_header png w h bit_depth color_type comp filt interlace :
  declares png (w, h, bit_depth, color_type, comp, filt, interlace) ->
  (comp <> 0 \/ filt <> 0 ->
   read_png png = Err (ValueError "Unsupported PNG compression/filter method")) /\
  (comp = 0 -> filt = 0 -> interlace <> 0 ->
   read_png png = Err (ValueError "Interlaced PNG not supported")) /\
  (comp = 0 -> filt = 0 -> interlace = 0 -> bit_depth <> 8 ->
   read_png png = Err (ValueError "Only 8-bit PNG supported")) /\
  (comp = 0 -> filt = 0 -> interlace = 0 -> bit_depth = 8 ->
   color_type <> 2 -> color_type <> 6 ->
   read_png png =
     Err (ValueError ("Unsupported PNG color type: " +:+ pretty color_type))).
Proof.
  intros (chunks & ihdr & idat & E1 & E2 & E3).
  unfold read_png. rewrite E1. cbn [bind]. rewrite E2, E3. cbn [bind].
  repeat split.
  - intros [H|H].
    + destruct (Z.eqb_spec comp 0); [contradiction|]. reflexivity.
    + destruct (Z.eqb_spec filt 0); [contradiction|].
      rewrite orb_true_r. reflexivity.
  - intros -> -> H. cbn. destruct (Z.eqb_spec interlace 0); [contradiction|]. reflexivity.
  - intros -> -> -> H. cbn. destruct (Z.eqb_spec bit_depth 8); [contradiction|]. reflexivity.
  - intros -> -> -> -> H2 H6. cbn.
    destruct (Z.eqb_spec color_type 2); [contradiction|].
    destruct (Z.eqb_spec color_type 6); [contradiction|]. reflexivity.
Qed.

(** A file whose header declares anything unsupported yields no image. *)
Lemma read_png_unsupported_no_image png w h bit_depth color_type comp filt interlace :
  declares png (w, h, bit_depth, color_type, comp, filt, interlace) ->
  comp <> 0 \/ filt <> 0 \/ interlace <> 0 \/ bit_depth <> 8 \/
    (color_type <> 2 /\ color_type <> 6) ->
  exists msg, read_png png = Err (ValueError msg).
Proof.
  intros Hd Hbad.
  destruct (read_png_rejects_header _ _ _ _ _ _ _ _ Hd) as (H1 & H2 & H3 & H4).
  destruct (decide (comp = 0)) as [Ec|Ec]; [|eexists; apply H1; auto].
  destruct (decide (filt = 0)) as [Ef|Ef]; [|eexists; apply H1; auto].
  destruct (decide (interlace = 0)) as [Ei|Ei]; [|eexists; apply H2; auto].
  destruct (decide (bit_depth = 8)) as [Eb|Eb]; [|eexists; apply H3; auto].
  eexists. apply H4; auto; intros ->; intuition congruence.
Qed.

End HeaderChecks.

(** Rows of zero width: the filter byte of a row is only looked at when
    its first byte is reconstructed, so any value passes. *)
Lemma unfilter_scanlines_zero_width (raw : list Z) (h bpp : Z) :
  0 <= h -> h <= len raw -> _unfilter_scanlines raw 0 h bpp = Ok [].
Proof.
  intros Hh Hraw. unfold _unfilter_scanlines. cbv zeta.
  replace (0 * bpp) with 0 by lia. replace (h * (1 + 0)) with h by lia.
  replace (h * 0) with 0 by lia.
  destruct (Z.ltb_spec (len raw) h); [lia|]. cbn [bytearray Z.ltb Z.compare bind].
  change (replicate (Z.to_nat 0) 0) with (@nil Z).
  destruct (for_each_range_inv (fun _ o => o = @nil Z) (unfilter_row raw bpp 0 (1 + 0)) h [])
    as (out & E & ->); [exact Hh|reflexivity| |exact E].
  intros y o Hy ->. unfold unfilter_row.
  rewrite py_index_at by lia. cbn [bind].
  exists []. split; [|reflexivity].
  destruct (_ =? 0); [|reflexivity].
  assert (Hs : py_slice raw (y * (1 + 0) + 1) (y * (1 + 0) + 1 + 0) = []).
  { rewrite py_slice_in by lia.
    replace (y * (1 + 0) + 1 + 0 - (y * (1 + 0) + 1)) with 0 by lia. reflexivity. }
  rewrite Hs. unfold py_setslice. rewrite take_nil, drop_nil. reflexivity.
Qed.

(** C4. A filter byte outside 0..4 is not refused when the rows
    have zero width: the stream [5] of a 0 x 1 image is reconstructed to
    the empty buffer, and a file that declares this image decodes to it. *)
Theorem zero_width_filter_byte_unchecked :
  _unfilter_scanlines [5] 0 1 4 = Ok [] /\
  @read_png stored_zlib
    (PNG_SIGNATURE ++
     [0; 0; 0; 13] ++ IHDR ++ [0; 0; 0; 0; 0; 0; 0; 1; 8; 6; 0; 0; 0] ++ [0; 0; 0; 0] ++
     [0; 0; 0; 1] ++ IDAT ++ [5] ++ [0; 0; 0; 0] ++
     [0; 0; 0; 0] ++ IEND ++ [0; 0; 0; 0])
  = Ok (mkPngImage 0 1 []).
Proof. split; vm_compute; reflexivity. Qed.

(** C8. An image with exactly one zero dimension has an empty
    buffer, and sampling its border indexes that buffer: the call raises
    [IndexError] instead of returning the input.  Only the 0 x 0 image
    takes the [return img] path. *)
Theorem zero_area_one_dimension_raises :
  background_to_alpha_floodfill (mkPngImage 0 1 []) 28 2 = Err IndexError /\
  background_to_alpha_floodfill (mkPngImage 1 0 []) 28 2 = Err IndexError /\
  background_to_alpha_floodfill (mkPngImage 0 0 []) 28 2 = Ok TheArgument.
Proof. repeat split; vm_compute; reflexivity. Qed.

(** ** Seed colours *)

(** C7. For an image of positive width and height, the border scan takes
    the RGB triples at every 16th position of the top and bottom edge and
    of the left and right edge; the seed colours are the [K] most frequent
    triples of the scan (all of them when there are fewer than [K]), most
    frequent first, equally frequent ones in order of first appearance. *)
Theorem seed_colors_most_common (img : PngImage) (K : Z) :
  len (rgba img) = width img * height img * 4 ->
  0 < width img -> 0 < height img ->
  let colors := border_scan img 16 in
  let seeds := select_seeds colors K in
  _sample_border_colors img 16 = Ok colors /\
  length seeds = Nat.min (Z.to_nat K) (length (remove_dups colors)) /\
  (forall s, In s seeds -> In s colors) /\
  (forall i j s t, seeds !! i = Some s -> seeds !! j = Some t -> (i < j)%nat ->
     ranks_before colors s t) /\
  (forall s c, In s seeds -> In c colors -> ~ In c seeds -> ranks_before colors s c).
Proof.
  intros Hlen Hw Hh. cbv zeta.
  split; [apply sample_border_colors_ok; auto; lia|].
  apply select_seeds_spec.
Qed.

Lemma seed_colors_most_common_witness :
  _sample_border_colors (mkPngImage 2 1 [1; 2; 3; 255; 4; 5; 6; 255]) 16 =
    Ok [(1, 2, 3); (1, 2, 3); (1, 2, 3); (4, 5, 6)] /\
  select_seeds (border_scan (mkPngImage 2 1 [1; 2; 3; 255; 4; 5; 6; 255]) 16) 2 =
    [(1, 2, 3); (4, 5, 6)] /\
  ranks_before (border_scan (mkPngImage 2 1 [1; 2; 3; 255; 4; 5; 6; 255]) 16)
    (1, 2, 3) (4, 5, 6).
Proof.
  destruct (seed_colors_most_common (mkPngImage 2 1 [1; 2; 3; 255; 4; 5; 6; 255]) 2)
    as (E & _ & _ & Hord & _); [reflexivity|cbn; lia|cbn; lia|].
  split; [exact E|]. split; [reflexivity|].
  apply (Hord 0%nat 1%nat); [reflexivity|reflexivity|lia].
Defined.

(** ** Flood fill *)

(** C3. For an image of positive width and height the call returns, and
    in the returned buffer the alpha byte of a pixel is 0 when the pixel is
    border-connected (it satisfies the background predicate and a path of
    4-adjacent pixels satisfying it links it to an edge pixel) and is the
    input's alpha byte otherwise; in particular a pixel that fails the
    predicate, or an enclosed region not linked to any edge, keeps its
    alpha.  RGB bytes are the input's. *)
Theorem floodfill_clears_border_connected (img : PngImage) (tolerance K : Z) :
  len (rgba img) = width img * height img * 4 ->
  0 < width img -> 0 < height img ->
  let w := width img in
  let h := height img in
  let seeds := select_seeds (border_scan img 16) K in
  let region := border_connected seeds (tolerance * tolerance) (rgba img) w h in
  exists r, background_to_alpha_floodfill img tolerance K = Ok r /\
    let out := image_of img r in
    width out = w /\ height out = h /\ len (rgba out) = len (rgba img) /\
    forall p, in_grid w h p ->
      (region p -> at_ (rgba out) (alpha_index w p) = 0) /\
      (~ region p ->
       at_ (rgba out) (alpha_index w p) = at_ (rgba img) (alpha_index w p)) /\
      (~ background seeds (tolerance * tolerance) (rgba img) w p ->
       at_ (rgba out) (alpha_index w p) = at_ (rgba img) (alpha_index w p)) /\
      pixel_rgb (rgba out) w (fst p) (snd p) = pixel_rgb (rgba img) w (fst p) (snd p).
Proof.
  intros Hlen Hw Hh. cbv zeta.
  unfold background_to_alpha_floodfill. cbv zeta.
  rewrite sample_border_colors_ok by (auto; lia). cbn [bind].
  change (fst <$> most_common K (Counter (border_scan img 16)))
    with (select_seeds (border_scan img 16) K).
  destruct (select_seeds (border_scan img 16) K) as [|s seeds] eqn:Es.
  - exists TheArgument. split; [reflexivity|]. cbn [image_of].
    repeat split; try reflexivity.
    intros Hp. assert (Hb : background [] (tolerance * tolerance) (rgba img) (width img) p)
      by (destruct Hp; assumption).
    discriminate Hb.
  - unfold bytearray. destruct (Z.ltb_spec (width img * height img) 0); [nia|].
    cbn [bind]. rewrite length_replicate.
    destruct (fill_ok (width img) (height img) Hw Hh (s :: seeds)
                (tolerance * tolerance) (rgba img) Hlen)
      as (st & out & Eseed & Eloop & L & HR & HA).
    apply bind_Ok in Eseed as (st1 & E1 & E2).
    rewrite E1. cbn [bind]. rewrite E2. cbn [bind]. rewrite Eloop. cbn [bind].
    eexists. split; [reflexivity|]. cbn [image_of width height rgba].
    split; [reflexivity|]. split; [reflexivity|]. split; [exact L|].
    intros p Hp. destruct (HA p Hp) as (H1 & H2).
    split; [exact H1|]. split; [exact H2|]. split.
    + intros Hnb. apply H2. intros Hbc. apply Hnb. destruct Hbc; assumption.
    + unfold pixel_rgb. cbv zeta.
      rewrite !HR by (Z.div_mod_to_equations; lia). reflexivity.
Qed.

Lemma floodfill_clears_border_connected_witness :
  exists r,
    background_to_alpha_floodfill
      (mkPngImage 3 3 [0; 0; 0; 255; 200; 200; 200; 255; 0; 0; 0; 255;
                       200; 200; 200; 255; 0; 0; 0; 255; 200; 200; 200; 255;
                       0; 0; 0; 255; 200; 200; 200; 255; 0; 0; 0; 255]) 28 2 = Ok r.
Proof.
  destruct (floodfill_clears_border_connected
              (mkPngImage 3 3 [0; 0; 0; 255; 200; 200; 200; 255; 0; 0; 0; 255;
                               200; 200; 200; 255; 0; 0; 0; 255; 200; 200; 200; 255;
                               0; 0; 0; 255; 200; 200; 200; 255; 0; 0; 0; 255]) 28 2)
    as (r & E & _); [reflexivity|cbn; lia|cbn; lia|].
  exists r. exact E.
Defined.

(** C5. Whenever the call returns, every R, G and B byte of
    the result is the input's and every alpha byte is the input's or 0,
    width, height and buffer length being kept.  With at least one seed
    colour (positive dimensions and [K]) the result is a new image around
    a new buffer; with none ([K <= 0], or a 0 x 0 image) the call returns
    the image it was given. *)
Theorem floodfill_touches_only_alpha (img : PngImage) (tolerance K : Z) (r : returned) :
  image_ok img ->
  background_to_alpha_floodfill img tolerance K = Ok r ->
  let out := image_of img r in
  (width out = width img /\ height out = height img /\
   len (rgba out) = len (rgba img)) /\
  (forall i, i mod 4 <> 3 -> at_ (rgba out) i = at_ (rgba img) i) /\
  (forall i, at_ (rgba out) i = at_ (rgba img) i \/ at_ (rgba out) i = 0) /\
  (K <= 0 -> r = TheArgument) /\
  (width img = 0 -> height img = 0 -> r = TheArgument) /\
  (0 < K -> 0 < width img -> 0 < height img -> exists img', r = NewImage img').
Proof.
  intros Hok H. cbv zeta.
  destruct (floodfill_frame img tolerance K r Hok H) as (F1 & F2 & F3 & _ & F5 & F6).
  split; [auto|]. split; [exact F5|]. split; [exact F6|].
  unfold background_to_alpha_floodfill in H. cbv zeta in H.
  apply bind_Ok in H as (colors & Ecol & H).
  change (fst <$> most_common K (Counter colors)) with (select_seeds colors K) in H.
  assert (Hnil : select_seeds colors K = [] -> r = TheArgument).
  { intros E. rewrite E in H. congruence. }
  split; [|split].
  - intros HK. apply Hnil, select_seeds_nil. auto.
  - intros E0 E1. apply Hnil, select_seeds_nil. right.
    unfold _sample_border_colors in Ecol. rewrite E0, E1 in Ecol.
    change (range_step 0 16) with (@Ok (list Z) []) in Ecol.
    cbn in Ecol. congruence.
  - intros HK Hw Hh.
    rewrite sample_border_colors_ok in Ecol by (try apply Hok; lia).
    injection Ecol as <-.
    destruct (select_seeds (border_scan img 16) K) as [|s seeds] eqn:Es.
    { apply select_seeds_nil in Es as [|Es]; [lia|].
      destruct (border_scan_nonempty img Hw Es). }
    apply bind_Ok in H as (visited & _ & H). apply bind_Ok in H as (st1 & _ & H).
    apply bind_Ok in H as (st2 & _ & H). apply bind_Ok in H as (out & _ & H).
    injection H as <-. eauto.
Qed.

Lemma floodfill_touches_only_alpha_witness :
  len (rgba (image_of (mkPngImage 1 1 [10; 20; 30; 255])
               (NewImage (mkPngImage 1 1 [10; 20; 30; 0])))) = len [10; 20; 30; 255] /\
  exists img', NewImage (mkPngImage 1 1 [10; 20; 30; 0]) = NewImage img'.
Proof.
  destruct (floodfill_touches_only_alpha (mkPngImage 1 1 [10; 20; 30; 255]) 28 2
              (NewImage (mkPngImage 1 1 [10; 20; 30; 0])))
    as ((_ & _ & L) & _ & _ & _ & _ & Hnew).
  - split; [reflexivity|]. repeat constructor; cbn; lia.
  - vm_compute. reflexivity.
  - split; [exact L|]. apply Hnew; cbn; lia.
Defined.

(** C5, the [return img] path: with no seed colour the result is the
    argument itself, not a new image. *)
Lemma floodfill_returns_its_argument :
  background_to_alpha_floodfill (mkPngImage 1 1 [10; 20; 30; 255]) 28 0 = Ok TheArgument /\
  background_to_alpha_floodfill (mkPngImage 0 0 []) 28 2 = Ok TheArgument /\
  ~ (exists img', background_to_alpha_floodfill (mkPngImage 1 1 [10; 20; 30; 255]) 28 0
                  = Ok (NewImage img')).
Proof.
  split; [vm_compute; reflexivity|]. split; [vm_compute; reflexivity|].
  intros (img' & H). vm_compute in H. discriminate H.
Qed.

(** ** The image invariant and the round trip *)

Lemma stored_zlib_laws : ZlibLaws stored_zlib.
Proof.
  split.
  - intros l _. reflexivity.
  - intros l Hl. exact Hl.
  - intros l l' Hl [= <-]. exact Hl.
Qed.

Section Images.
Context {z : Zlib} {laws : ZlibLaws z}.

Lemma floodfill_image_ok (img : PngImage) (tolerance K : Z) (r : returned) :
  image_ok img ->
  background_to_alpha_floodfill img tolerance K = Ok r ->
  image_ok (image_of img r) /\
  width (image_of img r) = width img /\ height (image_of img r) = height img.
Proof.
  intros Hok H.
  destruct (floodfill_frame img tolerance K r Hok H) as (F1 & F2 & F3 & F4 & _).
  split; [|auto]. destruct Hok as (Hlen & _).
  split; [rewrite F1, F2; lia|exact F4].
Qed.


(** C9. Every image returned by decode, and every image returned by the
    background removal of an image that satisfies the invariant, has a
    buffer of exactly [width * height * 4] elements, each a byte 0..255. *)
Theorem produced_images_satisfy_invariant :
  (forall png img, is_bytes png -> read_png png = Ok img -> image_ok img) /\
  (forall img tolerance K r,
     image_ok img -> background_to_alpha_floodfill img tolerance K = Ok r ->
     image_ok (image_of img r)).
Proof.
  split.
  - intros png img Hb H. apply (read_png_image_ok png); assumption.
  - intros img tolerance K r Hok H.
    apply (floodfill_image_ok img tolerance K r Hok H).
Qed.


End Images.

Lemma sample_file_bytes : is_bytes sample_file.
Proof. unfold is_bytes. apply (bool_decide_unpack _). vm_compute. exact I. Qed.

Lemma produced_images_satisfy_invariant_witness :
  image_ok (mkPngImage 1 1 [10; 20; 30; 255]) /\
  image_ok (image_of (mkPngImage 1 1 [10; 20; 30; 255])
              (NewImage (mkPngImage 1 1 [10; 20; 30; 0]))).
Proof.
  destruct (@produced_images_satisfy_invariant stored_zlib stored_zlib_laws) as (Hd & Hf).
  assert (H1 : image_ok (mkPngImage 1 1 [10; 20; 30; 255])).
  { apply (Hd sample_file); [exact sample_file_bytes|vm_compute; reflexivity]. }
  split; [exact H1|].
  apply (Hf _ 28 2); [exact H1|vm_compute; reflexivity].
Defined.






(** * Further properties of the codec *)

(** ** Paeth predictor *)

(** X1. The predictor returns one of its three arguments, and none of them
    is nearer to [p = a + b - c] than the one returned. *)
Theorem paeth_is_nearest (a b c : Z) :
  let p := a + b - c in
  let r := _paeth a b c in
  (r = a \/ r = b \/ r = c) /\
  Z.abs (p - r) <= Z.abs (p - a) /\
  Z.abs (p - r) <= Z.abs (p - b) /\
  Z.abs (p - r) <= Z.abs (p - c).
Proof.
  cbv zeta. unfold _paeth. cbv zeta.
  destruct (Z.leb_spec (Z.abs (a + b - c - a)) (Z.abs (a + b - c - b)));
    destruct (Z.leb_spec (Z.abs (a + b - c - a)) (Z.abs (a + b - c - c)));
    destruct (Z.leb_spec (Z.abs (a + b - c - b)) (Z.abs (a + b - c - c)));
    cbn [andb]; lia.
Qed.

(** ** RGB to RGBA expansion *)

Lemma expand_rgb_ok (pixels : list Z) (w h : Z) :
  0 <= w * h -> w * h * 3 <= len pixels ->
  exists out, expand_rgb pixels w h = Ok out /\
    len out = w * h * 4 /\
    forall i, 0 <= i < w * h ->
      at_ out (i * 4) = at_ pixels (i * 3) /\
      at_ out (i * 4 + 1) = at_ pixels (i * 3 + 1) /\
      at_ out (i * 4 + 2) = at_ pixels (i * 3 + 2) /\
      at_ out (i * 4 + 3) = 255.
Proof.
  intros Hn Hp. unfold expand_rgb, bytearray.
  destruct (Z.ltb_spec (w * h * 4) 0); [lia|]. cbn [bind].
  pose (P := fun (k : Z) (o : list Z) =>
    len o = w * h * 4 /\
    forall i, 0 <= i < k ->
      at_ o (i * 4) = at_ pixels (i * 3) /\
      at_ o (i * 4 + 1) = at_ pixels (i * 3 + 1) /\
      at_ o (i * 4 + 2) = at_ pixels (i * 3 + 2) /\
      at_ o (i * 4 + 3) = 255).
  destruct (for_each_range_inv P (expand_pixel pixels) (w * h)
              (replicate (Z.to_nat (w * h * 4)) 0)) as (out & E & HP).
  - exact Hn.
  - split; [unfold len; rewrite length_replicate; lia|]. intros; lia.
  - intros k o Hk (Ho & Hdone). unfold expand_pixel.
    replace (k * 3 + 0) with (k * 3) by lia. replace (k * 4 + 0) with (k * 4) by lia.
    rewrite (py_index_at pixels (k * 3)) by lia. cbn [bind].
    rewrite py_setitem_in_range by lia. cbn [bind].
    set (o1 := <[Z.to_nat (k * 4) := at_ pixels (k * 3)]> o).
    assert (L1 : len o1 = w * h * 4) by (unfold o1; rewrite len_insert; exact Ho).
    rewrite (py_index_at pixels (k * 3 + 1)) by lia. cbn [bind].
    rewrite py_setitem_in_range by lia. cbn [bind].
    set (o2 := <[Z.to_nat (k * 4 + 1) := at_ pixels (k * 3 + 1)]> o1).
    assert (L2 : len o2 = w * h * 4) by (unfold o2; rewrite len_insert; exact L1).
    rewrite (py_index_at pixels (k * 3 + 2)) by lia. cbn [bind].
    rewrite py_setitem_in_range by lia. cbn [bind].
    set (o3 := <[Z.to_nat (k * 4 + 2) := at_ pixels (k * 3 + 2)]> o2).
    assert (L3 : len o3 = w * h * 4) by (unfold o3; rewrite len_insert; exact L2).
    rewrite py_setitem_in_range by lia.
    eexists. split; [reflexivity|]. split; [rewrite len_insert; exact L3|].
    assert (Hget : forall j,
      at_ (<[Z.to_nat (k * 4 + 3) := 255]> o3) j =
        if decide (j = k * 4 + 3) then 255
        else if decide (j = k * 4 + 2) then at_ pixels (k * 3 + 2)
        else if decide (j = k * 4 + 1) then at_ pixels (k * 3 + 1)
        else if decide (j = k * 4) then at_ pixels (k * 3)
        else at_ o j).
    { intros j. rewrite at_insert by lia. destruct (decide (j = k * 4 + 3)); [reflexivity|].
      unfold o3. rewrite at_insert by lia. destruct (decide (j = k * 4 + 2)); [reflexivity|].
      unfold o2. rewrite at_insert by lia. destruct (decide (j = k * 4 + 1)); [reflexivity|].
      unfold o1. rewrite at_insert by lia. reflexivity. }
    intros i Hi. rewrite !Hget.
    destruct (decide (i = k)) as [->|Hne].
    + repeat split; repeat (destruct (decide _); try lia); reflexivity.
    + destruct (Hdone i ltac:(lia)) as (D0 & D1 & D2 & D3).
      repeat split; repeat (destruct (decide _); try lia); assumption.
  - destruct HP as (Ho & Hdone). exists out. auto.
Qed.

(** X2. Expanding [width * height] RGB pixels gives a buffer of
    [width * height * 4] bytes in which pixel [i] has the three colour
    bytes of pixel [i] of the input, in order, and alpha 255. *)
Theorem expand_rgb_pixels (pixels : list Z) (w h : Z) :
  0 <= w * h -> w * h * 3 <= len pixels ->
  exists out, expand_rgb pixels w h = Ok out /\
    len out = w * h * 4 /\
    forall i, 0 <= i < w * h ->
      at_ out (i * 4) = at_ pixels (i * 3) /\
      at_ out (i * 4 + 1) = at_ pixels (i * 3 + 1) /\
      at_ out (i * 4 + 2) = at_ pixels (i * 3 + 2) /\
      at_ out (i * 4 + 3) = 255.
Proof. exact (expand_rgb_ok pixels w h). Qed.

Lemma expand_rgb_pixels_witness :
  exists out, expand_rgb [255; 0; 0; 1; 2; 3] 2 1 = Ok out /\ len out = 2 * 1 * 4.
Proof.
  destruct (expand_rgb_pixels [255; 0; 0; 1; 2; 3] 2 1) as (out & E & L & _);
    [lia|vm_compute; discriminate|].
  exists out. auto.
Defined.

(** ** The encoder's scanlines *)

(** X3. Reconstruction undoes the encoder's filtering: the scanline stream
    built from a buffer of [width * height * 4] bytes has
    [height * (1 + width * 4)] bytes and reconstructs, with 4 bytes per
    pixel, to the buffer itself. *)
Theorem unfilter_filter_none (rgba : list Z) (w h : Z) :
  0 <= w -> 0 <= h -> len rgba = w * h * 4 -> is_bytes rgba ->
  exists raw, _filter_none_rgba rgba w h = Ok raw /\
    len raw = h * (1 + w * 4) /\
    _unfilter_scanlines raw w h 4 = Ok rgba.
Proof.
  intros Hw Hh Hlen Hb.
  destruct (filter_none_rgba_ok rgba w h Hw Hh Hlen Hb) as (raw & E & L & _ & Hraw).
  exists raw. split; [exact E|]. split; [exact L|].
  destruct (unfilter_scanlines_ok raw w h 4) as (out & -> & Lout & Hrows); try lia.
  { intros y Hy. destruct (Hraw y Hy) as (-> & _). lia. }
  f_equal. apply list_eq_at; [lia|].
  intros i Hi. rewrite Lout in Hi.
  assert (0 < w * 4) by nia.
  assert (Hq : i = (i / (w * 4)) * (w * 4) + i mod (w * 4)).
  { rewrite Z.mul_comm. apply Z.div_mod. lia. }
  pose proof (Z.mod_pos_bound i (w * 4) ltac:(lia)) as Hm.
  assert (Hy : 0 <= i / (w * 4) < h).
  { split; [apply Z.div_pos; lia|]. apply Z.div_lt_upper_bound; nia. }
  rewrite Hq. rewrite (Hrows _ Hy _ Hm).
  destruct (Hraw _ Hy) as (-> & Hx). unfold spec_recon.
  rewrite decide_True by reflexivity. apply Hx. exact Hm.
Qed.

Lemma unfilter_filter_none_witness :
  exists raw, _filter_none_rgba [1; 2; 3; 4; 5; 6; 7; 8] 1 2 = Ok raw /\
    len raw = 2 * (1 + 1 * 4) /\
    _unfilter_scanlines raw 1 2 4 = Ok [1; 2; 3; 4; 5; 6; 7; 8].
Proof.
  apply (unfilter_filter_none [1; 2; 3; 4; 5; 6; 7; 8] 1 2);
    [lia|lia|reflexivity|].
  unfold is_bytes. apply (bool_decide_unpack _). vm_compute. exact I.
Defined.

(** ** Chunk reader *)

Lemma pack_I_be32 (n : Z) : 0 <= n < 2 ^ 32 -> pack_I n = Ok (be32 n).
Proof.
  intros Hn. unfold pack_I.
  destruct (Z.leb_spec 0 n); [|lia]. destruct (Z.ltb_spec n (2 ^ 32)); [|lia].
  reflexivity.
Qed.

Lemma unpack_I_be32 (n : Z) : 0 <= n < 2 ^ 32 -> unpack_I (be32 n) = Ok n.
Proof.
  intros Hn. destruct (pack_unpack_I n Hn) as (l & E & _ & _ & U).
  rewrite pack_I_be32 in E by exact Hn. injection E as <-. exact U.
Qed.

Lemma frames_cons_assoc (pre junk : list Z) c (cs : list (list Z * list Z * list Z)) :
  pre ++ concat (frame <$> c :: cs) ++ junk =
  (pre ++ frame c) ++ concat (frame <$> cs) ++ junk.
Proof. cbn [fmap list_fmap concat]. rewrite <- !app_assoc. reflexivity. Qed.

Lemma read_chunks_loop_framed (junk : list Z) :
  forall (cs : list (list Z * list Z * list Z)) (pre : list Z) (budget : nat),
    Forall well_framed cs ->
    Exists (fun c => fst (fst c) = IEND) cs \/ len junk < 8 ->
    (length cs <= budget)%nat ->
    read_chunks_loop budget (pre ++ concat (frame <$> cs) ++ junk) (len pre) =
      Ok (upto_IEND (fst <$> cs)).
Proof.
  induction cs as [|[[t d] crc] cs IH]; intros pre budget Hwf Hend Hbud.
  - destruct Hend as [Hex|Hj]; [inversion Hex|].
    cbn [fmap list_fmap concat app upto_IEND].
    pose proof (len_nonneg junk).
    destruct budget; cbn [read_chunks_loop]; rewrite len_app;
      destruct (Z.ltb_spec (len pre) (len pre + len junk)); try reflexivity;
      destruct (Z.gtb_spec (len pre + 8) (len pre + len junk)); try reflexivity; lia.
  - apply Forall_cons in Hwf as ((Ht & Hc & Hd) & Hwf).
    destruct budget as [|budget]; [cbn [length] in Hbud; lia|].
    rewrite frames_cons_assoc.
    cbn [fmap list_fmap upto_IEND fst].
    pose proof (len_nonneg d).
    assert (Epng : (pre ++ frame (t, d, crc)) ++ concat (frame <$> cs) ++ junk =
                   pre ++ be32 (len d) ++ t ++ d ++ crc ++ (concat (frame <$> cs) ++ junk)).
    { unfold frame. rewrite <- !app_assoc. reflexivity. }
    rewrite (read_chunks_step budget _ pre (be32 (len d)) t d crc _ Epng eq_refl Ht Hc
               (unpack_I_be32 (len d) ltac:(lia))).
    destruct (bytes_eqb t IEND) eqn:Et; [reflexivity|].
    replace (len pre + 12 + len d) with (len (pre ++ frame (t, d, crc))).
    2:{ unfold frame. rewrite !len_app. unfold len, be32. rewrite Ht, Hc.
        cbn [length]. lia. }
    rewrite IH; [reflexivity|exact Hwf| |cbn [length] in Hbud; lia].
    destruct Hend as [Hex|Hj]; [|right; exact Hj]. left.
    apply Exists_cons in Hex as [Hhd|Htl]; [|exact Htl].
    cbn [fst] in Hhd. subst t. unfold bytes_eqb in Et.
    rewrite bool_decide_eq_true_2 in Et by reflexivity. discriminate.
Qed.

Lemma length_frames_ge (cs : list (list Z * list Z * list Z)) :
  (length cs <= length (concat (frame <$> cs)))%nat.
Proof.
  induction cs as [|[[t d] crc] cs IH]; [cbn; lia|].
  cbn [fmap list_fmap concat length]. unfold frame at 1.
  rewrite !length_app. cbn [be32 length]. lia.
Qed.

Lemma read_chunks_of_frames (cs : list (list Z * list Z * list Z)) (junk : list Z) :
  Forall well_framed cs ->
  Exists (fun c => fst (fst c) = IEND) cs \/ len junk < 8 ->
  _read_chunks (PNG_SIGNATURE ++ concat (frame <$> cs) ++ junk) =
    Ok (upto_IEND (fst <$> cs)).
Proof.
  intros Hwf Hend. unfold _read_chunks.
  assert (Hs : startswith (PNG_SIGNATURE ++ concat (frame <$> cs) ++ junk) PNG_SIGNATURE = true).
  { unfold startswith. rewrite take_app_length.
    unfold bytes_eqb. apply bool_decide_eq_true. reflexivity. }
  rewrite Hs. cbn [negb].
  apply read_chunks_loop_framed; [exact Hwf|exact Hend|].
  rewrite !length_app. pose proof (length_frames_ge cs). lia.
Qed.

(** X4. A file made of the signature and well-framed chunks is read as
    the list of their (type, payload) pairs up to and including the first
    IEND.  The four checksum bytes of a chunk are never looked at; whatever
    follows IEND is ignored, and without an IEND fewer than 8 trailing
    bytes are ignored. *)
Theorem read_chunks_framed (cs : list (list Z * list Z * list Z)) (junk : list Z) :
  Forall well_framed cs ->
  Exists (fun c => fst (fst c) = IEND) cs \/ len junk < 8 ->
  _read_chunks (PNG_SIGNATURE ++ concat (frame <$> cs) ++ junk) =
    Ok (upto_IEND (fst <$> cs)).
Proof. exact (read_chunks_of_frames cs junk). Qed.

Lemma read_chunks_framed_witness :
  _read_chunks (PNG_SIGNATURE ++
                concat (frame <$> [(IDAT, [7; 8], [1; 2; 3; 4]); (IEND, [], [9; 9; 9; 9]);
                                   (IDAT, [5], [0; 0; 0; 0])]) ++ [42])
  = Ok [(IDAT, [7; 8]); (IEND, [])].
Proof.
  apply (read_chunks_framed
           [(IDAT, [7; 8], [1; 2; 3; 4]); (IEND, [], [9; 9; 9; 9]); (IDAT, [5], [0; 0; 0; 0])]
           [42]).
  - repeat constructor.
  - left. right. left. reflexivity.
Defined.

Section ChunkIndependence.
Context {z : Zlib}.

(** X5. Decoding depends on a file only through its chunks: two files
    framing the same (type, payload) sequence decode alike, whatever their
    checksum bytes and whatever follows the IEND chunk. *)
Theorem read_png_ignores_checksums
  (cs cs' : list (list Z * list Z * list Z)) (junk junk' : list Z) :
  Forall well_framed cs -> Forall well_framed cs' ->
  fst <$> cs = fst <$> cs' ->
  Exists (fun c => fst (fst c) = IEND) cs ->
  read_png (PNG_SIGNATURE ++ concat (frame <$> cs) ++ junk) =
  read_png (PNG_SIGNATURE ++ concat (frame <$> cs') ++ junk').
Proof.
  intros Hwf Hwf' Heq Hend.
  assert (Hend' : Exists (fun c => fst (fst c) = IEND) cs').
  { apply Exists_exists in Hend as (c & Hc & Ht).
    assert (Hin : fst c ∈ fst <$> cs') by (rewrite <- Heq; apply list_elem_of_fmap_2, Hc).
    apply list_elem_of_fmap in Hin as (c' & E & Hc').
    apply Exists_exists. exists c'. split; [exact Hc'|]. rewrite <- E. exact Ht. }
  unfold read_png.
  rewrite !read_chunks_of_frames by auto. rewrite Heq. reflexivity.
Qed.

End ChunkIndependence.

Lemma read_png_ignores_checksums_witness :
  @read_png stored_zlib
    (PNG_SIGNATURE ++
     concat (frame <$> [(IHDR, [0; 0; 0; 1; 0; 0; 0; 1; 8; 6; 0; 0; 0], [0; 0; 0; 0]);
                        (IDAT, [0; 1; 2; 3; 4], [0; 0; 0; 0]);
                        (IEND, [], [0; 0; 0; 0])]) ++ []) =
  @read_png stored_zlib
    (PNG_SIGNATURE ++
     concat (frame <$> [(IHDR, [0; 0; 0; 1; 0; 0; 0; 1; 8; 6; 0; 0; 0], [1; 1; 1; 1]);
                        (IDAT, [0; 1; 2; 3; 4], [2; 2; 2; 2]);
                        (IEND, [], [3; 3; 3; 3])]) ++ [77; 78]).
Proof.
  apply (@read_png_ignores_checksums stored_zlib).
  - repeat constructor.
  - repeat constructor.
  - reflexivity.
  - right. right. left. reflexivity.
Defined.

(** ** Which chunks the decoder uses *)

Lemma bytes_eqb_eq (a b : list Z) : bytes_eqb a b = true <-> a = b.
Proof. unfold bytes_eqb. apply bool_decide_eq_true. Qed.

Lemma collect_chunks_acc (cs : list (list Z * list Z)) ihdr idat_parts :
  collect_chunks cs ihdr idat_parts =
    (match last (payloads_of IHDR cs) with Some d => Some d | None => ihdr end,
     idat_parts ++ payloads_of IDAT cs).
Proof.
  revert ihdr idat_parts. induction cs as [|[t d] cs IH]; intros ihdr idat.
  - cbn. rewrite app_nil_r. reflexivity.
  - cbn [collect_chunks]. unfold payloads_of in *. cbn [before_IEND fst].
    destruct (bytes_eqb t IHDR) eqn:E1.
    { apply bytes_eqb_eq in E1. subst t.
      replace (bytes_eqb IHDR IEND) with false by reflexivity.
      rewrite IH, !filter_cons. cbn [fst].
      rewrite (decide_True (P := IHDR = IHDR)) by reflexivity.
      rewrite (decide_False (P := IHDR = IDAT)) by discriminate.
      cbn [fmap list_fmap snd]. rewrite last_cons.
      destruct (last _); reflexivity. }
    destruct (bytes_eqb t IDAT) eqn:E2.
    { apply bytes_eqb_eq in E2. subst t.
      replace (bytes_eqb IDAT IEND) with false by reflexivity.
      rewrite IH, !filter_cons. cbn [fst].
      rewrite (decide_True (P := IDAT = IDAT)) by reflexivity.
      rewrite (decide_False (P := IDAT = IHDR)) by discriminate.
      cbn [fmap list_fmap snd]. rewrite <- app_assoc. reflexivity. }
    destruct (bytes_eqb t IEND) eqn:E3.
    { cbn. rewrite app_nil_r. reflexivity. }
    rewrite IH, !filter_cons. cbn [fst].
    rewrite !decide_False; [reflexivity| |].
    + intros ->. rewrite (proj2 (bytes_eqb_eq IDAT IDAT) eq_refl) in E2. discriminate.
    + intros ->. rewrite (proj2 (bytes_eqb_eq IHDR IHDR) eq_refl) in E1. discriminate.
Qed.

Section ChunkUse.
Context {z : Zlib}.

(** X6. Of the chunks of a file the decoder uses only, among those before
    the first IEND, the payload of the last IHDR and the concatenation of
    the IDAT payloads in file order: two files that agree on these decode
    alike, however the data is split into IDAT chunks and whatever other
    chunks they carry. *)
Theorem read_png_uses_last_IHDR_and_IDATs (png png' : list Z)
  (cs cs' : list (list Z * list Z)) :
  _read_chunks png = Ok cs -> _read_chunks png' = Ok cs' ->
  last (payloads_of IHDR cs) = last (payloads_of IHDR cs') ->
  concat (payloads_of IDAT cs) = concat (payloads_of IDAT cs') ->
  read_png png = read_png png'.
Proof.
  intros E E' Hh Hd. unfold read_png. rewrite E, E'. cbn [bind].
  rewrite !collect_chunks_acc. cbn [app]. rewrite Hh.
  destruct (last (payloads_of IHDR cs')) as [ihdr|]; [|reflexivity].
  rewrite Hd. reflexivity.
Qed.

(** X7. A file with no IHDR chunk before its first IEND is refused with
    "PNG missing IHDR"; one whose (last) IHDR payload is not exactly 13
    bytes long makes the call raise [struct.error]. *)
Theorem read_png_header_chunk_errors (png : list Z) (cs : list (list Z * list Z)) :
  _read_chunks png = Ok cs ->
  (payloads_of IHDR cs = [] -> read_png png = Err (ValueError "PNG missing IHDR")) /\
  (forall ihdr, last (payloads_of IHDR cs) = Some ihdr -> length ihdr <> 13%nat ->
     read_png png = Err StructError).
Proof.
  intros E. unfold read_png. rewrite E. cbn [bind].
  rewrite collect_chunks_acc. cbn [app]. split.
  - intros ->. reflexivity.
  - intros ihdr -> Hlen.
    assert (Hu : unpack_IIBBBBB ihdr = Err StructError).
    { unfold unpack_IIBBBBB.
      do 14 (destruct ihdr as [|? ihdr];
             [first [reflexivity|cbn [length] in Hlen; lia]|]).
      reflexivity. }
    rewrite Hu. reflexivity.
Qed.

End ChunkUse.

Lemma read_png_uses_last_IHDR_and_IDATs_witness :
  @read_png stored_zlib
    (PNG_SIGNATURE ++
     concat (frame <$> [(IHDR, [0; 0; 0; 1; 0; 0; 0; 1; 8; 6; 0; 0; 0], [0; 0; 0; 0]);
                        (IDAT, [0; 1; 2; 3; 4], [0; 0; 0; 0]);
                        (IEND, [], [0; 0; 0; 0])])) =
  @read_png stored_zlib
    (PNG_SIGNATURE ++
     concat (frame <$> [(IHDR, [0; 0; 0; 9; 0; 0; 0; 9; 8; 6; 0; 0; 0], [0; 0; 0; 0]);
                        ([116; 69; 88; 116], [1; 2; 3], [0; 0; 0; 0]);
                        (IDAT, [0; 1], [0; 0; 0; 0]);
                        (IHDR, [0; 0; 0; 1; 0; 0; 0; 1; 8; 6; 0; 0; 0], [0; 0; 0; 0]);
                        (IDAT, [2; 3; 4], [0; 0; 0; 0]);
                        (IEND, [], [0; 0; 0; 0])])).
Proof.
  eapply (@read_png_uses_last_IHDR_and_IDATs stored_zlib);
    [vm_compute; reflexivity|vm_compute; reflexivity|reflexivity|reflexivity].
Defined.

Lemma read_png_header_chunk_errors_witness :
  @read_png stored_zlib PNG_SIGNATURE = Err (ValueError "PNG missing IHDR") /\
  @read_png stored_zlib
    (PNG_SIGNATURE ++ frame (IHDR, [0; 0; 0; 1; 0; 0; 0; 1; 8; 6; 0; 0], [0; 0; 0; 0]))
  = Err StructError.
Proof.
  split.
  - apply (proj1 (@read_png_header_chunk_errors stored_zlib PNG_SIGNATURE [] eq_refl)).
    reflexivity.
  - assert (E : _read_chunks
                  (PNG_SIGNATURE ++
                   frame (IHDR, [0; 0; 0; 1; 0; 0; 0; 1; 8; 6; 0; 0], [0; 0; 0; 0])) =
                Ok [(IHDR, [0; 0; 0; 1; 0; 0; 0; 1; 8; 6; 0; 0])])
      by (vm_compute; reflexivity).
    apply (proj2 (@read_png_header_chunk_errors stored_zlib _ _ E)
             [0; 0; 0; 1; 0; 0; 0; 1; 8; 6; 0; 0]); [reflexivity|cbn; lia].
Defined.

(** ** What the encoder writes *)

Lemma pack_I_inv (n : Z) (l : list Z) :
  pack_I n = Ok l -> 0 <= n < 2 ^ 32 /\ l = be32 n.
Proof.
  unfold pack_I. destruct (Z.leb_spec 0 n); [|discriminate].
  destruct (Z.ltb_spec n (2 ^ 32)); [|discriminate].
  intros [= <-]. split; [lia|reflexivity].
Qed.

Lemma length_be32 (n : Z) : length (be32 n) = 4%nat.
Proof. reflexivity. Qed.

Section EncoderOutput.
Context {z : Zlib}.

Lemma chunk_inv (ctype data out : list Z) :
  chunk ctype data = Ok out -> len data < 2 ^ 32 /\ out = framed ctype data.
Proof.
  unfold chunk. cbv zeta. intros H.
  apply bind_Ok in H as (l & Hl & H). apply bind_Ok in H as (c & Hc & H).
  apply pack_I_inv in Hl as (Hr & ->). apply pack_I_inv in Hc as (_ & ->).
  injection H as <-. split; [lia|reflexivity].
Qed.

Lemma write_png_rgba_inv (img : PngImage) (png : list Z) :
  write_png_rgba img = Ok png ->
  exists raw,
    0 <= width img < 2 ^ 32 /\ 0 <= height img < 2 ^ 32 /\
    _filter_none_rgba (rgba img) (width img) (height img) = Ok raw /\
    len (zlib_compress raw) < 2 ^ 32 /\
    png = PNG_SIGNATURE ++
          framed IHDR (be32 (width img) ++ be32 (height img) ++ [8; 6; 0; 0; 0]) ++
          framed IDAT (zlib_compress raw) ++ framed IEND [].
Proof.
  unfold write_png_rgba, pack_IIBBBBB. intros H.
  apply bind_Ok in H as (ihdr & Hi & H).
  apply bind_Ok in Hi as (pw & Hpw & Hi). apply bind_Ok in Hi as (ph & Hph & Hi).
  cbn in Hi. injection Hi as <-.
  apply pack_I_inv in Hpw as (Hw & ->). apply pack_I_inv in Hph as (Hh & ->).
  apply bind_Ok in H as (raw & Hraw & H).
  apply bind_Ok in H as (c1 & H1 & H). apply bind_Ok in H as (c2 & H2 & H).
  apply bind_Ok in H as (c3 & H3 & H). injection H as <-.
  apply chunk_inv in H1 as (_ & ->). apply chunk_inv in H2 as (Hfit & ->).
  apply chunk_inv in H3 as (_ & ->).
  exists raw. auto 10.
Qed.

(** X8. Whenever the encoder returns, the file is the signature followed
    by exactly three chunks, each closed by the CRC-32 of its type and
    payload: an IHDR of 13 bytes giving width and height as 32-bit words
    and then 8, 6, 0, 0, 0 (bit depth 8, RGBA, no interlace), one IDAT
    holding the deflated scanlines, and an empty IEND.  Width and height
    then fit 32 bits, and the chunk reader finds these three chunks. *)
Theorem write_png_rgba_layout (img : PngImage) (png : list Z) :
  write_png_rgba img = Ok png ->
  exists raw,
    _filter_none_rgba (rgba img) (width img) (height img) = Ok raw /\
    0 <= width img < 2 ^ 32 /\ 0 <= height img < 2 ^ 32 /\
    let ihdr := be32 (width img) ++ be32 (height img) ++ [8; 6; 0; 0; 0] in
    png = PNG_SIGNATURE ++ framed IHDR ihdr ++
          framed IDAT (zlib_compress raw) ++ framed IEND [] /\
    _read_chunks png = Ok [(IHDR, ihdr); (IDAT, zlib_compress raw); (IEND, [])] /\
    declares png (width img, height img, 8, 6, 0, 0, 0).
Proof.
  intros H. destruct (write_png_rgba_inv img png H) as (raw & Hw & Hh & Hraw & Hfit & ->).
  exists raw. split; [exact Hraw|]. split; [exact Hw|]. split; [exact Hh|].
  cbv zeta. split; [reflexivity|].
  set (ihdr := be32 (width img) ++ be32 (height img) ++ [8; 6; 0; 0; 0]).
  assert (Hrd : _read_chunks (PNG_SIGNATURE ++ framed IHDR ihdr ++
                              framed IDAT (zlib_compress raw) ++ framed IEND []) =
                Ok [(IHDR, ihdr); (IDAT, zlib_compress raw); (IEND, [])]).
  { pose proof (read_chunks_of_frames
                  [(IHDR, ihdr, checksum IHDR ihdr);
                   (IDAT, zlib_compress raw, checksum IDAT (zlib_compress raw));
                   (IEND, [], checksum IEND [])] []) as Hr.
    cbn [fmap list_fmap concat] in Hr. rewrite !app_nil_r in Hr.
    unfold framed. rewrite Hr; [reflexivity| |].
    - repeat constructor; try reflexivity; exact Hfit.
    - left. right. right. left. reflexivity. }
  split; [exact Hrd|].
  exists [(IHDR, ihdr); (IDAT, zlib_compress raw); (IEND, [])], ihdr, [zlib_compress raw].
  split; [exact Hrd|]. split; [reflexivity|].
  unfold ihdr, be32. cbn [app unpack_IIBBBBB].
  fold (be32 (width img)). fold (be32 (height img)).
  rewrite !unpack_I_be32 by assumption. reflexivity.
Qed.

(** X9. The header reader of the asset scripts agrees with the encoder:
    on any file the encoder wrote it returns the image's width and
    height. *)
Theorem read_png_dimensions_of_written (img : PngImage) (png : list Z) :
  write_png_rgba img = Ok png ->
  read_png_dimensions png = Ok (Some (width img, height img)).
Proof.
  intros H. destruct (write_png_rgba_inv img png H) as (raw & Hw & Hh & _ & _ & ->).
  set (rest := framed IDAT (zlib_compress raw) ++ framed IEND []).
  set (ihdr := be32 (width img) ++ be32 (height img) ++ [8; 6; 0; 0; 0]).
  set (crc := checksum IHDR ihdr).
  set (png := PNG_SIGNATURE ++ framed IHDR ihdr ++ rest).
  assert (E0 : py_slice png 0 8 = PNG_SIGNATURE).
  { apply (py_slice_mid png [] PNG_SIGNATURE (framed IHDR ihdr ++ rest)); reflexivity. }
  assert (E1 : py_slice png 8 12 = be32 (len ihdr)).
  { apply (py_slice_mid png PNG_SIGNATURE (be32 (len ihdr))
             (IHDR ++ ihdr ++ crc ++ rest)); [|reflexivity|reflexivity].
    unfold png, framed, frame. rewrite <- !app_assoc. reflexivity. }
  assert (E2 : py_slice png 12 16 = IHDR).
  { apply (py_slice_mid png (PNG_SIGNATURE ++ be32 (len ihdr)) IHDR
             (ihdr ++ crc ++ rest)); [|reflexivity|reflexivity].
    unfold png, framed, frame. rewrite <- !app_assoc. reflexivity. }
  assert (E3 : py_slice png 16 20 = be32 (width img)).
  { apply (py_slice_mid png (PNG_SIGNATURE ++ be32 (len ihdr) ++ IHDR) (be32 (width img))
             (be32 (height img) ++ [8; 6; 0; 0; 0] ++ crc ++ rest));
      [|reflexivity|reflexivity].
    unfold png, framed, frame, ihdr. rewrite <- !app_assoc. reflexivity. }
  assert (E4 : py_slice png 20 24 = be32 (height img)).
  { apply (py_slice_mid png
             (PNG_SIGNATURE ++ be32 (len ihdr) ++ IHDR ++ be32 (width img))
             (be32 (height img)) ([8; 6; 0; 0; 0] ++ crc ++ rest));
      [|reflexivity|reflexivity].
    unfold png, framed, frame, ihdr. rewrite <- !app_assoc. reflexivity. }
  unfold read_png_dimensions. rewrite E0, E1, E2, E3, E4.
  replace (bytes_eqb PNG_SIGNATURE PNG_SIGNATURE) with true by reflexivity.
  replace (bytes_eqb IHDR IHDR) with true by reflexivity. cbn [negb].
  rewrite (unpack_I_be32 (len ihdr)) by (unfold len, ihdr; cbn; lia).
  rewrite !unpack_I_be32 by assumption. reflexivity.
Qed.

End EncoderOutput.

Lemma write_png_rgba_layout_witness :
  declares
    (PNG_SIGNATURE ++
     @framed stored_zlib IHDR (be32 1 ++ be32 1 ++ [8; 6; 0; 0; 0]) ++
     @framed stored_zlib IDAT [0; 10; 20; 30; 255] ++ @framed stored_zlib IEND [])
    (1, 1, 8, 6, 0, 0, 0).
Proof.
  destruct (@write_png_rgba_layout stored_zlib (mkPngImage 1 1 [10; 20; 30; 255])
              (PNG_SIGNATURE ++
               @framed stored_zlib IHDR (be32 1 ++ be32 1 ++ [8; 6; 0; 0; 0]) ++
               @framed stored_zlib IDAT [0; 10; 20; 30; 255] ++ @framed stored_zlib IEND []))
    as (raw & _ & _ & _ & _ & _ & Hd); [vm_compute; reflexivity|exact Hd].
Defined.

Lemma read_png_dimensions_of_written_witness :
  read_png_dimensions
    (PNG_SIGNATURE ++
     @framed stored_zlib IHDR (be32 1 ++ be32 1 ++ [8; 6; 0; 0; 0]) ++
     @framed stored_zlib IDAT [0; 10; 20; 30; 255] ++ @framed stored_zlib IEND [])
  = Ok (Some (1, 1)).
Proof.
  apply (@read_png_dimensions_of_written stored_zlib (mkPngImage 1 1 [10; 20; 30; 255])).
  vm_compute. reflexivity.
Defined.

(** X10. The header reader does not guard against short files: a file
    that starts with the signature and ends before the four length bytes
    of its first chunk are complete makes it raise [struct.error], and so
    does a file cut inside the width and height of a leading IHDR. *)
Theorem read_png_dimensions_truncated (file : list Z) :
  py_slice file 0 8 = PNG_SIGNATURE ->
  len file < 12 \/ (py_slice file 12 16 = IHDR /\ len file < 24) ->
  read_png_dimensions file = Err StructError.
Proof.
  intros Hsig Hcut. unfold read_png_dimensions. rewrite Hsig.
  replace (bytes_eqb PNG_SIGNATURE PNG_SIGNATURE) with true by reflexivity. cbn [negb].
  assert (Hshort : forall a b, 0 <= a -> len file < b -> b = a + 4 ->
            unpack_I (py_slice file a b) = Err StructError).
  { intros a b Ha Hb ->.
    assert (Hl : (length (py_slice file a (a + 4)) < 4)%nat).
    { unfold py_slice, slice_bound.
      destruct (Z.ltb_spec a 0); [lia|]. destruct (Z.ltb_spec (a + 4) 0); [lia|].
      rewrite length_take, length_drop. unfold len in *. lia. }
    destruct (py_slice file a (a + 4)) as [|b0 [|b1 [|b2 [|b3 l]]]];
      try reflexivity. cbn [length] in Hl. lia. }
  destruct Hcut as [Hcut|(Ht & Hcut)].
  - rewrite (Hshort 8 12) by lia. reflexivity.
  - destruct (unpack_I (py_slice file 8 12)) as [n|e] eqn:E8.
    + cbn [bind]. rewrite Ht.
      replace (bytes_eqb IHDR IHDR) with true by reflexivity.
      destruct (unpack_I (py_slice file 16 20)) as [wd|e] eqn:E16.
      * cbn [bind]. rewrite (Hshort 20 24) by lia. reflexivity.
      * cbn [bind]. unfold unpack_I in E16.
        destruct (py_slice file 16 20) as [|b0 [|b1 [|b2 [|b3 [|]]]]];
          congruence.
    + cbn [bind]. unfold unpack_I in E8.
      destruct (py_slice file 8 12) as [|b0 [|b1 [|b2 [|b3 [|]]]]]; congruence.
Qed.

Lemma read_png_dimensions_truncated_witness :
  read_png_dimensions (PNG_SIGNATURE ++ [0; 0]) = Err StructError.
Proof.
  apply (read_png_dimensions_truncated (PNG_SIGNATURE ++ [0; 0])).
  - reflexivity.
  - left. vm_compute. reflexivity.
Defined.

(** ** Further properties of the background removal *)

(** The call on an image of positive dimensions, in terms of [fill_result]. *)
Lemma floodfill_spec (img : PngImage) (tolerance K : Z) :
  len (rgba img) = width img * height img * 4 ->
  0 < width img -> 0 < height img ->
  exists r, background_to_alpha_floodfill img tolerance K = Ok r /\
    width (image_of img r) = width img /\ height (image_of img r) = height img /\
    fill_result (width img) (height img) (select_seeds (border_scan img 16) K)
      (tolerance * tolerance) (rgba img) (rgba (image_of img r)).
Proof.
  intros Hlen Hw Hh.
  unfold background_to_alpha_floodfill. cbv zeta.
  rewrite sample_border_colors_ok by (auto; lia). cbn [bind].
  change (fst <$> most_common K (Counter (border_scan img 16)))
    with (select_seeds (border_scan img 16) K).
  destruct (select_seeds (border_scan img 16) K) as [|s seeds] eqn:Es.
  - exists TheArgument. split; [reflexivity|]. cbn [image_of].
    split; [reflexivity|]. split; [reflexivity|].
    split; [reflexivity|]. split; [reflexivity|].
    intros p Hp. split; [|reflexivity].
    intros Hbc.
    assert (Hb : background [] (tolerance * tolerance) (rgba img) (width img) p)
      by (destruct Hbc; assumption).
    discriminate Hb.
  - unfold bytearray. destruct (Z.ltb_spec (width img * height img) 0); [nia|].
    cbn [bind]. rewrite length_replicate.
    destruct (fill_ok (width img) (height img) Hw Hh (s :: seeds)
                (tolerance * tolerance) (rgba img) Hlen)
      as (st & out & Eseed & Eloop & Hres).
    apply bind_Ok in Eseed as (st1 & E1 & E2).
    rewrite E1. cbn [bind]. rewrite E2. cbn [bind]. rewrite Eloop. cbn [bind].
    eexists. split; [reflexivity|]. cbn [image_of width height rgba]. auto.
Qed.

Lemma pixel_rgb_ext (a b : list Z) (w x y : Z) :
  (forall i, i mod 4 <> 3 -> at_ a i = at_ b i) ->
  pixel_rgb a w x y = pixel_rgb b w x y.
Proof.
  intros H. unfold pixel_rgb. cbv zeta.
  rewrite !H by (Z.div_mod_to_equations; lia). reflexivity.
Qed.

Lemma border_scan_ext (img img' : PngImage) (step : Z) :
  width img' = width img -> height img' = height img ->
  (forall i, i mod 4 <> 3 -> at_ (rgba img') i = at_ (rgba img) i) ->
  border_scan img' step = border_scan img step.
Proof.
  intros Hw Hh H. unfold border_scan. cbv zeta. rewrite Hw, Hh.
  f_equal; apply list_bind_ext; try reflexivity; intros x;
    rewrite !(pixel_rgb_ext (rgba img') (rgba img)) by exact H; reflexivity.
Qed.

Lemma border_connected_impl seeds seeds' t t' (a b : list Z) (w h : Z) :
  (forall p, background seeds t a w p -> background seeds' t' b w p) ->
  forall p, border_connected seeds t a w h p -> border_connected seeds' t' b w h p.
Proof.
  intros Hbg p Hp. induction Hp as [p He Hb|p q Hp IH Hadj Hg Hb].
  - apply bc_edge; auto.
  - apply (bc_step _ _ _ _ _ p q); auto.
Qed.

Lemma is_bg_mono (seeds : list rgb) (t t' : Z) (c : rgb) :
  t <= t' -> is_bg seeds t c = true -> is_bg seeds t' c = true.
Proof.
  intros Ht. unfold is_bg. rewrite !existsb_exists.
  intros (s & Hs & H). exists s. split; [exact Hs|].
  apply Z.leb_le in H. apply Z.leb_le. lia.
Qed.

(** Every index of an alpha byte is the alpha index of a pixel of the grid. *)
Lemma alpha_index_cover (w h i : Z) :
  0 < w -> 0 <= i < w * h * 4 -> i mod 4 = 3 ->
  exists p, in_grid w h p /\ alpha_index w p = i.
Proof.
  intros Hw Hi H3.
  pose proof (Z.div_mod i 4 ltac:(lia)) as Hd4.
  assert (Hk : 0 <= i / 4 < w * h).
  { split; [apply Z.div_pos; lia|]. apply Z.div_lt_upper_bound; lia. }
  pose proof (Z.div_mod (i / 4) w ltac:(lia)) as Hdw.
  pose proof (Z.mod_pos_bound (i / 4) w Hw) as Hm.
  exists ((i / 4) mod w, i / 4 / w). split.
  - unfold in_grid. cbn [fst snd]. split; [exact Hm|].
    split; [apply Z.div_pos; lia|]. apply Z.div_lt_upper_bound; [lia|]. lia.
  - unfold alpha_index. cbn [fst snd]. lia.
Qed.

(** X11. Running the background removal on its own result changes
    nothing: the second call returns, and its image equals the first
    result (the seed colours and the region depend on RGB bytes only, and
    the region's alpha is already 0). *)
Theorem floodfill_idempotent (img : PngImage) (tolerance K : Z) (r : returned) :
  len (rgba img) = width img * height img * 4 ->
  0 < width img -> 0 < height img ->
  background_to_alpha_floodfill img tolerance K = Ok r ->
  exists r', background_to_alpha_floodfill (image_of img r) tolerance K = Ok r' /\
    image_of (image_of img r) r' = image_of img r.
Proof.
  intros Hlen Hw Hh H.
  destruct (floodfill_spec img tolerance K Hlen Hw Hh) as (r0 & E0 & W0 & H0 & L0 & R0 & A0).
  rewrite E0 in H. injection H as <-.
  set (img1 := image_of img r0) in *.
  assert (Hlen1 : len (rgba img1) = width img1 * height img1 * 4) by (rewrite W0, H0; lia).
  destruct (floodfill_spec img1 tolerance K Hlen1 ltac:(lia) ltac:(lia))
    as (r' & E1 & W1 & H1 & L1 & R1 & A1).
  rewrite (border_scan_ext img img1 16 W0 H0 R0) in A1. rewrite W0, H0 in A1.
  exists r'. split; [exact E1|].
  destruct (image_of img1 r') as [w2 h2 b2]. destruct img1 as [w1 h1 b1].
  cbn [width height rgba] in *. subst w2 h2. f_equal.
  apply list_eq_at; [exact L1|].
  intros i Hi. destruct (decide (i mod 4 = 3)) as [H3|H3]; [|apply R1, H3].
  destruct (alpha_index_cover (width img) (height img) i) as (p & Hg & <-);
    [lia|lia|exact H3|].
  destruct (A0 p Hg) as (A0c & _). destruct (A1 p Hg) as (A1c & A1n).
  set (bc0 := border_connected (select_seeds (border_scan img 16) K)
                (tolerance * tolerance) (rgba img) (width img) (height img)) in *.
  set (bc1 := border_connected (select_seeds (border_scan img 16) K)
                (tolerance * tolerance) b1 (width img) (height img)) in *.
  assert (H10 : bc1 p -> bc0 p).
  { apply border_connected_impl. intros q. unfold background.
    rewrite (pixel_rgb_ext b1 (rgba img)) by exact R0. auto. }
  destruct (decide (at_ b2 (alpha_index (width img) p) = at_ b1 (alpha_index (width img) p)))
    as [E|N]; [exact E|].
  exfalso. apply N. apply A1n. intros Hbc. apply N.
  rewrite (A1c Hbc), (A0c (H10 Hbc)). reflexivity.
Qed.

Lemma floodfill_idempotent_witness :
  exists r',
    background_to_alpha_floodfill
      (image_of (mkPngImage 1 1 [10; 20; 30; 255]) (NewImage (mkPngImage 1 1 [10; 20; 30; 0])))
      28 2 = Ok r' /\
    image_of (image_of (mkPngImage 1 1 [10; 20; 30; 255])
                (NewImage (mkPngImage 1 1 [10; 20; 30; 0]))) r' =
    image_of (mkPngImage 1 1 [10; 20; 30; 255]) (NewImage (mkPngImage 1 1 [10; 20; 30; 0])).
Proof.
  apply (floodfill_idempotent (mkPngImage 1 1 [10; 20; 30; 255]) 28 2);
    [reflexivity|cbn; lia|cbn; lia|vm_compute; reflexivity].
Defined.

(** X12. A larger tolerance never clears less: with the same [K], every
    pixel whose alpha is 0 after the call with [tolerance] has alpha 0
    after the call with a tolerance of larger or equal magnitude. *)
Theorem floodfill_tolerance_monotone (img : PngImage) (tolerance tolerance' K : Z)
  (r r' : returned) :
  len (rgba img) = width img * height img * 4 ->
  0 < width img -> 0 < height img ->
  Z.abs tolerance <= Z.abs tolerance' ->
  background_to_alpha_floodfill img tolerance K = Ok r ->
  background_to_alpha_floodfill img tolerance' K = Ok r' ->
  forall p, in_grid (width img) (height img) p ->
    at_ (rgba (image_of img r)) (alpha_index (width img) p) = 0 ->
    at_ (rgba (image_of img r')) (alpha_index (width img) p) = 0.
Proof.
  intros Hlen Hw Hh Htol H H' p Hg Hz.
  destruct (floodfill_spec img tolerance K Hlen Hw Hh) as (r0 & E0 & _ & _ & _ & _ & A0).
  rewrite E0 in H. injection H as <-.
  destruct (floodfill_spec img tolerance' K Hlen Hw Hh) as (r1 & E1 & _ & _ & _ & _ & A1).
  rewrite E1 in H'. injection H' as <-.
  destruct (A0 p Hg) as (_ & A0n). destruct (A1 p Hg) as (A1c & A1n).
  assert (Hmono : forall q,
    border_connected (select_seeds (border_scan img 16) K) (tolerance * tolerance)
      (rgba img) (width img) (height img) q ->
    border_connected (select_seeds (border_scan img 16) K) (tolerance' * tolerance')
      (rgba img) (width img) (height img) q).
  { apply border_connected_impl. intros q. unfold background.
    apply is_bg_mono. nia. }
  destruct (decide (at_ (rgba (image_of img r1)) (alpha_index (width img) p) = 0))
    as [E|N]; [exact E|].
  exfalso. apply N. rewrite A1n by auto. rewrite <- A0n; [exact Hz|].
  intros Hbc. apply N, A1c, Hmono, Hbc.
Qed.

Lemma floodfill_tolerance_monotone_witness :
  at_ (rgba (image_of (mkPngImage 1 1 [10; 20; 30; 255])
               (NewImage (mkPngImage 1 1 [10; 20; 30; 0])))) (alpha_index 1 (0, 0)) = 0.
Proof.
  apply (floodfill_tolerance_monotone (mkPngImage 1 1 [10; 20; 30; 255]) 5 (-28) 2
           (NewImage (mkPngImage 1 1 [10; 20; 30; 0]))
           (NewImage (mkPngImage 1 1 [10; 20; 30; 0])));
    try (vm_compute; reflexivity); try (cbn; lia).
  unfold in_grid. cbn. lia.
Defined.

Lemma all_background_connected seeds tol_sq (rgba0 : list Z) (w h : Z) :
  (forall p, in_grid w h p -> background seeds tol_sq rgba0 w p) ->
  forall p, in_grid w h p -> border_connected seeds tol_sq rgba0 w h p.
Proof.
  intros Hall [x y]. revert x.
  assert (Hy : forall n : nat, forall x, in_grid w h (x, Z.of_nat n) ->
            border_connected seeds tol_sq rgba0 w h (x, Z.of_nat n)).
  { induction n as [|n IH]; intros x Hg.
    - apply bc_edge; [|apply Hall, Hg]. split; [exact Hg|]. cbn. lia.
    - apply (bc_step _ _ _ _ _ (x, Z.of_nat n)).
      + apply IH. unfold in_grid in *. cbn [fst snd] in *. lia.
      + unfold adjacent4. cbn [fst snd]. lia.
      + exact Hg.
      + apply Hall, Hg. }
  intros x Hg. assert (0 <= y) by (unfold in_grid in Hg; cbn in Hg; lia).
  rewrite <- (Z2Nat.id y) by lia. apply Hy. rewrite Z2Nat.id by lia. exact Hg.
Qed.

(** X13. When every pixel of the image satisfies the background
    predicate, every alpha byte of the result is 0. *)
Theorem floodfill_all_background (img : PngImage) (tolerance K : Z) (r : returned) :
  len (rgba img) = width img * height img * 4 ->
  0 < width img -> 0 < height img ->
  background_to_alpha_floodfill img tolerance K = Ok r ->
  (forall p, in_grid (width img) (height img) p ->
     background (select_seeds (border_scan img 16) K) (tolerance * tolerance)
       (rgba img) (width img) p) ->
  forall p, in_grid (width img) (height img) p ->
    at_ (rgba (image_of img r)) (alpha_index (width img) p) = 0.
Proof.
  intros Hlen Hw Hh H Hall p Hg.
  destruct (floodfill_spec img tolerance K Hlen Hw Hh) as (r0 & E0 & _ & _ & _ & _ & A0).
  rewrite E0 in H. injection H as <-.
  apply (A0 p Hg). apply all_background_connected; assumption.
Qed.

Lemma floodfill_all_background_witness :
  at_ (rgba (image_of (mkPngImage 1 1 [10; 20; 30; 255])
               (NewImage (mkPngImage 1 1 [10; 20; 30; 0])))) (alpha_index 1 (0, 0)) = 0.
Proof.
  apply (floodfill_all_background (mkPngImage 1 1 [10; 20; 30; 255]) 28 2
           (NewImage (mkPngImage 1 1 [10; 20; 30; 0])));
    try (vm_compute; reflexivity); try (cbn; lia).
  - intros [x y] Hg. unfold in_grid in Hg. cbn in Hg.
    assert (x = 0) by lia. assert (y = 0) by lia. subst. vm_compute. reflexivity.
  - unfold in_grid. cbn. lia.
Defined.

Lemma at_byte (l : list Z) (i : Z) : is_bytes l -> 0 <= at_ l i < 256.
Proof.
  intros Hl. unfold at_. destruct (i <? 0); [lia|].
  rewrite nth_lookup. destruct (l !! Z.to_nat i) as [b|] eqn:E; cbn; [|lia].
  unfold is_bytes in Hl. rewrite Forall_forall in Hl.
  apply Hl. eapply list_elem_of_lookup_2. exact E.
Qed.

(** A sampled colour is the colour of an edge pixel. *)
Lemma border_scan_on_edge (img : PngImage) (c : rgb) :
  0 < width img -> 0 < height img ->
  In c (border_scan img 16) ->
  exists p, on_edge (width img) (height img) p /\
    pixel_rgb (rgba img) (width img) (fst p) (snd p) = c.
Proof.
  intros Hw Hh Hc. apply list_elem_of_In in Hc. unfold border_scan in Hc. cbv zeta in Hc.
  apply elem_of_app in Hc as [Hc|Hc];
    apply list_elem_of_bind in Hc as (k & Hc & Hk);
    apply elem_of_every_nth in Hk as (Hk & _);
    apply elem_of_cons in Hc as [->|Hc];
    try (apply list_elem_of_singleton in Hc as ->).
  - exists (k, 0). split; [|reflexivity]. unfold on_edge, in_grid. cbn. lia.
  - exists (k, height img - 1). split; [|reflexivity]. unfold on_edge, in_grid. cbn. lia.
  - exists (0, k). split; [|reflexivity]. unfold on_edge, in_grid. cbn. lia.
  - exists (width img - 1, k). split; [|reflexivity]. unfold on_edge, in_grid. cbn. lia.
Qed.

Lemma color_dist_sq_refl (c : rgb) : _color_dist_sq c c = 0.
Proof. destruct c as [[r g] b]. unfold _color_dist_sq. rewrite !Z.sub_diag. reflexivity. Qed.

Lemma sq_diff_byte (a b : Z) : 0 <= a < 256 -> 0 <= b < 256 -> (a - b) ^ 2 <= 65025.
Proof.
  intros Ha Hb. rewrite Z.pow_2_r.
  assert (Hd : -255 <= a - b <= 255) by lia. revert Hd. generalize (a - b).
  intros d Hd. nia.
Qed.

(** No two colours of bytes are further apart than 3 * 255 ^ 2. *)
Lemma color_dist_sq_bytes (l : list Z) (w x y x' y' : Z) :
  is_bytes l ->
  _color_dist_sq (pixel_rgb l w x y) (pixel_rgb l w x' y') <= 195075.
Proof.
  intros Hl. unfold pixel_rgb, _color_dist_sq. cbv zeta.
  pose proof (fun i j => sq_diff_byte _ _ (at_byte l i Hl) (at_byte l j Hl)) as H.
  pose proof (H ((y * w + x) * 4) ((y' * w + x') * 4)).
  pose proof (H ((y * w + x) * 4 + 1) ((y' * w + x') * 4 + 1)).
  pose proof (H ((y * w + x) * 4 + 2) ((y' * w + x') * 4 + 2)).
  lia.
Qed.

Lemma select_seeds_nonempty (img : PngImage) (K : Z) :
  0 < width img -> 0 < K ->
  exists s, In s (select_seeds (border_scan img 16) K) /\ In s (border_scan img 16).
Proof.
  intros Hw HK.
  destruct (select_seeds (border_scan img 16) K) as [|s seeds] eqn:Es.
  - apply select_seeds_nil in Es as [|Es]; [lia|].
    destruct (border_scan_nonempty img Hw Es).
  - exists s. split; [left; reflexivity|].
    destruct (select_seeds_spec (border_scan img 16) K) as (_ & Hin & _).
    apply Hin. rewrite Es. left. reflexivity.
Qed.

(** X14. Whatever the tolerance, every edge pixel whose colour is one of
    the seed colours is made transparent; with [K >= 1] there is such a
    pixel, so the call never leaves the image as it was unless that alpha
    was 0 already. *)
Theorem floodfill_clears_seed_coloured_edge (img : PngImage) (tolerance K : Z)
  (r : returned) :
  len (rgba img) = width img * height img * 4 ->
  0 < width img -> 0 < height img ->
  background_to_alpha_floodfill img tolerance K = Ok r ->
  (forall p, on_edge (width img) (height img) p ->
     In (pixel_rgb (rgba img) (width img) (fst p) (snd p))
        (select_seeds (border_scan img 16) K) ->
     at_ (rgba (image_of img r)) (alpha_index (width img) p) = 0) /\
  (0 < K ->
   exists p, on_edge (width img) (height img) p /\
     at_ (rgba (image_of img r)) (alpha_index (width img) p) = 0).
Proof.
  intros Hlen Hw Hh H.
  destruct (floodfill_spec img tolerance K Hlen Hw Hh) as (r0 & E0 & _ & _ & _ & _ & A0).
  rewrite E0 in H. injection H as <-.
  assert (Hedge : forall p, on_edge (width img) (height img) p ->
    In (pixel_rgb (rgba img) (width img) (fst p) (snd p))
       (select_seeds (border_scan img 16) K) ->
    at_ (rgba (image_of img r0)) (alpha_index (width img) p) = 0).
  { intros p He Hin. apply (A0 p (proj1 He)). apply bc_edge; [exact He|].
    unfold background, is_bg. apply existsb_exists.
    eexists. split; [exact Hin|]. apply Z.leb_le.
    rewrite color_dist_sq_refl. nia. }
  split; [exact Hedge|].
  intros HK. destruct (select_seeds_nonempty img K Hw HK) as (s & Hs & Hc).
  destruct (border_scan_on_edge img s Hw Hh Hc) as (p & He & Hp).
  exists p. split; [exact He|]. apply Hedge; [exact He|]. rewrite Hp. exact Hs.
Qed.

Lemma floodfill_clears_seed_coloured_edge_witness :
  exists p, on_edge 1 1 p /\
    at_ (rgba (image_of (mkPngImage 1 1 [10; 20; 30; 255])
                 (NewImage (mkPngImage 1 1 [10; 20; 30; 0])))) (alpha_index 1 p) = 0.
Proof.
  apply (proj2 (floodfill_clears_seed_coloured_edge (mkPngImage 1 1 [10; 20; 30; 255]) 0 2
                  (NewImage (mkPngImage 1 1 [10; 20; 30; 0]))
                  eq_refl ltac:(cbn; lia) ltac:(cbn; lia) ltac:(vm_compute; reflexivity))).
  lia.
Defined.

(** X15. On an image of bytes, a tolerance of magnitude 442 or more with
    [K >= 1] makes the whole image transparent: no two colours are
    further apart than that. *)
Theorem floodfill_full_tolerance (img : PngImage) (tolerance K : Z) (r : returned) :
  image_ok img -> 0 < width img -> 0 < height img ->
  0 < K -> 442 <= Z.abs tolerance ->
  background_to_alpha_floodfill img tolerance K = Ok r ->
  forall p, in_grid (width img) (height img) p ->
    at_ (rgba (image_of img r)) (alpha_index (width img) p) = 0.
Proof.
  intros (Hlen & Hb) Hw Hh HK Htol H p Hg.
  destruct (floodfill_spec img tolerance K Hlen Hw Hh) as (r0 & E0 & _ & _ & _ & _ & A0).
  rewrite E0 in H. injection H as <-.
  apply (A0 p Hg). apply all_background_connected; [|exact Hg].
  intros [x y] _.
  destruct (select_seeds_nonempty img K Hw HK) as (s & Hs & Hc).
  destruct (border_scan_on_edge img s Hw Hh Hc) as ([x' y'] & _ & Hp).
  unfold background, is_bg. apply existsb_exists.
  exists s. split; [exact Hs|]. apply Z.leb_le. subst s. cbn [fst snd].
  pose proof (color_dist_sq_bytes (rgba img) (width img) x y x' y' Hb).
  assert (442 * 442 <= tolerance * tolerance) by (destruct (Z.abs_spec tolerance); nia).
  lia.
Qed.

Lemma floodfill_full_tolerance_witness :
  at_ (rgba (image_of (mkPngImage 2 1 [0; 0; 0; 255; 255; 255; 255; 255])
               (NewImage (mkPngImage 2 1 [0; 0; 0; 0; 255; 255; 255; 0]))))
      (alpha_index 2 (1, 0)) = 0.
Proof.
  apply (floodfill_full_tolerance (mkPngImage 2 1 [0; 0; 0; 255; 255; 255; 255; 255]) 442 1
           (NewImage (mkPngImage 2 1 [0; 0; 0; 0; 255; 255; 255; 0])));
    try (vm_compute; reflexivity); try (cbn; lia).
  - split; [reflexivity|]. unfold is_bytes. apply (bool_decide_unpack _). vm_compute. exact I.
  - unfold in_grid. cbn. lia.
Defined.


(** ** Buffers longer than the dimensions require *)

Lemma filter_none_rgba_surplus (rgba : list Z) (w h : Z) :
  0 <= w -> 0 <= h -> w * h * 4 <= len rgba ->
  _filter_none_rgba rgba w h =
  _filter_none_rgba (take (Z.to_nat (w * h * 4)) rgba) w h.
Proof.
  intros Hw Hh Hlen. unfold _filter_none_rgba. cbv zeta.
  destruct (bytearray _) as [out|e]; [|reflexivity]. cbn [bind].
  apply for_each_ext. intros y o Hy.
  apply list_elem_of_In, elem_of_seqZ in Hy.
  unfold filter_none_row. destruct (py_setitem _ _ _); [|reflexivity]. cbn [bind].
  unfold len in Hlen.
  rewrite py_slice_take; [reflexivity|nia|nia|lia].
Qed.

Section Surplus.
Context {z : Zlib} {laws : ZlibLaws z}.

(** X16. The encoder reads only the first [width * height * 4] bytes of
    the buffer: an image whose buffer is longer is written as the same
    file as the image with the surplus cut off, and reading the file back
    gives that shorter image. *)
Theorem write_png_rgba_drops_surplus (img : PngImage) :
  0 <= width img < 2 ^ 32 -> 0 <= height img < 2 ^ 32 ->
  is_bytes (rgba img) -> width img * height img * 4 <= len (rgba img) ->
  let kept := mkPngImage (width img) (height img)
                (take (Z.to_nat (width img * height img * 4)) (rgba img)) in
  (forall raw, _filter_none_rgba (rgba kept) (width img) (height img) = Ok raw ->
     len (zlib_compress raw) < 2 ^ 32) ->
  exists png, write_png_rgba img = Ok png /\ write_png_rgba kept = Ok png /\
    read_png png = Ok kept.
Proof.
  intros Hw Hh Hb Hlen kept Hfit.
  assert (Hsame : write_png_rgba img = write_png_rgba kept).
  { unfold write_png_rgba, kept. cbn [width height rgba].
    rewrite <- filter_none_rgba_surplus by lia. reflexivity. }
  destruct (write_read_png kept) as (png & E & _ & R).
  - unfold image_ok, kept. cbn [width height rgba]. split.
    + unfold len in *. rewrite length_take. nia.
    + unfold is_bytes in *. apply Forall_take, Hb.
  - exact Hw.
  - exact Hh.
  - exact Hfit.
  - exists png. rewrite Hsame. auto.
Qed.

End Surplus.

Lemma write_png_rgba_drops_surplus_witness :
  exists png,
    @write_png_rgba stored_zlib (mkPngImage 1 1 [10; 20; 30; 255; 99; 98]) = Ok png /\
    @write_png_rgba stored_zlib (mkPngImage 1 1 [10; 20; 30; 255]) = Ok png /\
    @read_png stored_zlib png = Ok (mkPngImage 1 1 [10; 20; 30; 255]).
Proof.
  apply (@write_png_rgba_drops_surplus stored_zlib stored_zlib_laws
           (mkPngImage 1 1 [10; 20; 30; 255; 99; 98])).
  - cbn. lia.
  - cbn. lia.
  - unfold is_bytes. apply (bool_decide_unpack _). vm_compute. exact I.
  - vm_compute. discriminate.
  - intros raw H. vm_compute in H. injection H as <-. vm_compute. reflexivity.
Defined.

(** ** What the decoder can raise *)

(** X17. The chunk reader refuses a byte string only for its signature:
    whatever follows the eight signature bytes (a chunk cut short, a
    length field running past the end, no IEND) it yields chunks, of
    bytes, and raises nothing. *)
Theorem read_chunks_rejects_only_signature (png : list Z) :
  is_bytes png ->
  (startswith png PNG_SIGNATURE = true ->
   exists chunks, _read_chunks png = Ok chunks /\
     Forall (fun c => is_bytes (snd c)) chunks) /\
  (startswith png PNG_SIGNATURE = false ->
   _read_chunks png = Err (ValueError "Not a PNG (bad signature)")).
Proof.
  intros Hb. unfold _read_chunks. split; intros ->; [|reflexivity].
  cbn [negb]. change (len PNG_SIGNATURE) with 8.
  destruct (read_chunks_loop_returns png Hb (length png) 8) as (chunks & E);
    [lia|unfold len; lia|].
  exists chunks. split; [exact E|]. eapply read_chunks_loop_bytes; eauto.
Qed.

Lemma read_chunks_rejects_only_signature_witness :
  exists chunks,
    _read_chunks (PNG_SIGNATURE ++ [0; 0; 0; 100; 73; 68; 65; 84; 1; 2]) = Ok chunks /\
    Forall (fun c => is_bytes (snd c)) chunks.
Proof.
  apply (proj1 (read_chunks_rejects_only_signature
                  (PNG_SIGNATURE ++ [0; 0; 0; 100; 73; 68; 65; 84; 1; 2])
                  ltac:(unfold is_bytes; apply (bool_decide_unpack _); vm_compute; exact I))).
  vm_compute. reflexivity.
Defined.

Lemma unpack_IIBBBBB_error (l : list Z) (e : exn) :
  unpack_IIBBBBB l = Err e -> e = StructError.
Proof.
  intros H. unfold unpack_IIBBBBB in H.
  do 13 (destruct l as [|? l]; [injection H as <-; reflexivity|]).
  destruct l; [cbn in H; discriminate|injection H as <-; reflexivity].
Qed.

(** Reconstruction returns a buffer of the expected length or raises a
    [ValueError]. *)
Lemma unfilter_scanlines_outcome (raw : list Z) (w h bpp : Z) :
  0 <= w -> 0 <= h -> 0 < bpp ->
  (exists out, _unfilter_scanlines raw w h bpp = Ok out /\ len out = h * (w * bpp)) \/
  (exists msg, _unfilter_scanlines raw w h bpp = Err (ValueError msg)).
Proof.
  intros Hw Hh Hbpp.
  destruct (Z.ltb_spec (len raw) (h * (1 + w * bpp))) as [Hs|Hl].
  { right. eexists. apply unfilter_too_short, Hs. }
  destruct (decide (w = 0)) as [->|Hw0].
  { left. exists []. split; [apply unfilter_scanlines_zero_width; lia|].
    unfold len. cbn [length]. lia. }
  destruct (decide (Forall (fun y => valid_filter (at_ raw (y * (1 + w * bpp))) = true)
                      (seqZ 0 h))) as [Hall|Hsome].
  - left. destruct (unfilter_scanlines_ok raw w h bpp) as (out & E & L & _);
      try lia; [|eauto].
    intros y Hy. rewrite Forall_forall in Hall.
    specialize (Hall y ltac:(apply elem_of_seqZ; lia)).
    unfold valid_filter in Hall. lia.
  - right. apply not_Forall_Exists in Hsome; [|apply _].
    apply Exists_exists in Hsome as (y & Hy & Hbad).
    apply elem_of_seqZ in Hy. cbn in Hbad.
    destruct (unfilter_scanlines_bad_filter raw w h bpp) as (f & _ & E); try lia; [|eauto].
    exists y. split; [lia|]. destruct (valid_filter _); [contradiction|reflexivity].
Qed.

Section DecodeErrors.
Context {z : Zlib}.

(** X18. On a file of bytes the decoder raises nothing but a
    [ValueError], the [struct.error] of unpacking an IHDR payload of the
    wrong size, or what [zlib.decompress] raises on the joined IDAT
    payloads: no index is ever out of range and the chunk loop ends. *)
Theorem read_png_raises (png : list Z) (e : exn) :
  is_bytes png -> read_png png = Err e ->
  (exists msg, e = ValueError msg) \/ e = StructError \/
  (exists data, is_bytes data /\ zlib_decompress data = Err e).
Proof.
  intros Hb H. unfold read_png in H.
  destruct (read_chunks_returns png Hb) as [(chunks & E)|E]; rewrite E in H;
    cbn [bind] in H; [|injection H as <-; left; eauto].
  assert (Hcb : Forall (fun c => is_bytes (snd c)) chunks).
  { unfold _read_chunks in E. destruct (negb _); [discriminate|].
    eapply read_chunks_loop_bytes; eauto. }
  destruct (collect_chunks chunks None []) as [[ihdr|] idat] eqn:Ecol;
    [|injection H as <-; left; eauto].
  destruct (collect_chunks_bytes chunks None [] (Some ihdr) idat Hcb) as (Hi & Hp);
    [intros; discriminate|constructor|exact Ecol|].
  specialize (Hi ihdr eq_refl).
  destruct (unpack_IIBBBBB ihdr) as [hdr|e'] eqn:Eh; cbn [bind] in H;
    [|injection H as <-; right; left; eapply unpack_IIBBBBB_error, Eh].
  destruct hdr as [[[[[[w h] bit_depth] color_type] comp] filt] interlace].
  destruct (unpack_IIBBBBB_range _ _ _ _ _ _ _ _ Hi Eh) as (Hw & Hh).
  destruct (_ || _); [injection H as <-; left; eauto|].
  destruct (negb (interlace =? 0)); [injection H as <-; left; eauto|].
  destruct (negb (bit_depth =? 8)); [injection H as <-; left; eauto|].
  assert (Hbpp : forall bpp, (bpp = 3 \/ bpp = 4) ->
    (do raw <- zlib_decompress (concat idat);
     do pixels <- _unfilter_scanlines raw w h bpp;
     do rgba <- (if bpp =? 4 then Ok pixels else expand_rgb pixels w h);
     Ok (mkPngImage w h rgba)) = Err e ->
    (exists msg, e = ValueError msg) \/ e = StructError \/
    (exists data, is_bytes data /\ zlib_decompress data = Err e)).
  { intros bpp Hb34 H'.
    destruct (zlib_decompress (concat idat)) as [raw|e'] eqn:Ez; cbn [bind] in H'.
    2: { injection H' as <-. right; right. exists (concat idat). split; [|exact Ez].
         unfold is_bytes. apply Forall_concat. exact Hp. }
    destruct (unfilter_scanlines_outcome raw w h bpp) as [(out & Eo & Lo)|(msg & Eo)];
      try lia; rewrite Eo in H'; cbn [bind] in H'; [|injection H' as <-; left; eauto].
    destruct Hb34 as [-> | ->].
    - replace (3 =? 4) with false in H' by reflexivity.
      destruct (expand_rgb_ok out w h) as (buf & Eb & _); [nia|lia|].
      rewrite Eb in H'. discriminate.
    - discriminate. }
  destruct (color_type =? 2); [apply (Hbpp 3); auto|].
  destruct (color_type =? 6); [apply (Hbpp 4); auto|].
  cbn [bind] in H. injection H as <-. left; eauto.
Qed.

End DecodeErrors.

Lemma read_png_raises_witness :
  (exists msg, ValueError "PNG missing IHDR" = ValueError msg) \/
  ValueError "PNG missing IHDR" = StructError \/
  (exists data, is_bytes data /\
     @zlib_decompress stored_zlib data = Err (ValueError "PNG missing IHDR")).
Proof.
  apply (@read_png_raises stored_zlib PNG_SIGNATURE).
  - unfold is_bytes. apply (bool_decide_unpack _). vm_compute. exact I.
  - vm_compute. reflexivity.
Defined.


(** ** What the encoder can raise *)

Section EncodeErrors.
Context {z : Zlib}.


End EncodeErrors.

